(** * Ring outlier filter: a shallow embedding of
    [sensing/pointcloud_preprocessor/src/outlier_filter/ring_outlier_filter_nodelet.cpp]

    Conventions of the embedding.
    - [float] and [double] values are the rationals they denote; values that
      are not finite numbers are not among them.  The [float] arithmetic of
      the azimuth difference (lines 147-148) is rounded to binary32
      ([binary32]), as IEEE 754 prescribes.  Elsewhere [+], [-], [*] and [/]
      are exact; the comparisons are exact as they are in the program.  A
      division by zero is written out where it arises: it is undefined
      behaviour where the quotient is cast to an integer
      ([Undefined DivisionByZero]), and it yields [None] where the quotient is
      only stored.
    - [size_t] values and vector positions are [nat]; [int] and [uint32_t]
      values are [Z], the wrap-around of [uint32_t] arithmetic written out
      with [mod 2^32].
    - The byte buffer [data] of a [PointCloud2] is kept at the granularity of
      one record per [point_step] bytes; byte offsets ([data_idx],
      [output_size], ...) stay byte offsets, and the record at offset [o] is
      the one at position [o / point_step].
    - A subscript taken from the input (a ring id) is checked where it is
      used.  An exception is the outcome [Thrown]; undefined behaviour is
      the outcome [Undefined], which says that the C++ standard gives the
      rest of the run no meaning, not that the run stops.  The subscripts
      that the loops keep in range by construction ([indices[idx]],
      [indices[walk_first_idx]], the offsets stored in [ring2indices]) are
      read with the total lookup [!!!].
    - The stores through [output_ptr] and [noise_ptr] at the running byte
      offset append a record to the part of the buffer written so far;
      [compose_within_buffers] shows that they stay inside the allocation
      when [width] is the number of points.
    - Allocations are taken to succeed. *)

From Stdlib Require Import ZArith QArith Qminmax Qround Lia Lqa SpecFloat.
From stdpp Require Import base list sorting strings.

Local Open Scope Z_scope.
Local Open Scope nat_scope.

(** ** Numbers *)

(** [a < b] on floats. *)
Definition Qltb (a b : Q) : bool := negb (Qle_bool b a).

(** [static_cast<uint32_t>(f)] for a float [f]: truncation toward zero; the
    behaviour is undefined when the truncated value does not fit. *)
Definition Qtrunc (q : Q) : Z := Z.quot (Qnum q) (Zpos (Qden q)).

(** [uint32_t] arithmetic. *)
Definition u32 (n : Z) : Z := (n mod 2 ^ 32)%Z.

(** *** Rounding to binary32

    A [float] operation gives the binary32 value nearest to the exact
    result, ties to the even significand (IEEE 754, round to nearest). *)

(** [2^e] for an integer [e]. *)
Definition Qpow2 (e : Z) : Q :=
  if (0 <=? e)%Z then inject_Z (2 ^ e) else 1 / inject_Z (2 ^ (- e)).

(** The exponent [e] of a positive rational [q]: [2^e <= q < 2^(e+1)].  It
    is the difference of the bit lengths of numerator and denominator, or
    one less. *)
Definition binade (q : Q) : Z :=
  let a := (Z.log2 (Qnum q) - Z.log2 (Zpos (Qden q)))%Z in
  if Qle_bool (Qpow2 a) q then a else (a - 1)%Z.

(** The nearest integer, ties to even. *)
Definition round_half_even (q : Q) : Z :=
  let f := Qfloor q in
  match (q - inject_Z f ?= 1 # 2)%Q with
  | Lt => f
  | Gt => (f + 1)%Z
  | Eq => if Z.even f then f else (f + 1)%Z
  end.

(** The unit in the last place of the binary32 values of the binade of a
    positive [q]: 24 significant bits, the least exponent being -126 (below
    it the values are subnormal). *)
Definition ulp32 (q : Q) : Q := Qpow2 (Z.max (binade q) (-126) - 23).

(** The binary32 value nearest to [q], for [q] below [2^128] in
    magnitude. *)
Definition binary32 (q : Q) : Q :=
  match (q ?= 0)%Q with
  | Eq => 0%Q
  | Gt => (inject_Z (round_half_even (q / ulp32 q)) * ulp32 q)%Q
  | Lt => (- (inject_Z (round_half_even (- q / ulp32 (- q))) * ulp32 (- q)))%Q
  end.

(** ** Outcomes *)

(** Operations to which the C++ standard gives no meaning. *)
Inductive Fault : Set :=
| OutOfBounds      (* operator[] outside a vector *)
| DivisionByZero   (* float division by zero whose result is cast to uint *)
| CastOutOfRange.  (* float to uint32_t cast of a value that does not fit *)

Inductive Exception : Set :=
| OutOfRange.      (* std::out_of_range thrown by vector::at *)

(** A run returns a value, throws, or reaches undefined behaviour.  At
    [Undefined] the model stops following the run: the standard says nothing
    about what happens from there on, and a given build may well go on and
    return a value. *)
Inductive outcome (A : Type) : Type :=
| Done (a : A)
| Thrown (e : Exception)
| Undefined (f : Fault).
Arguments Done {A} a.
Arguments Thrown {A} e.
Arguments Undefined {A} f.

#[global] Instance outcome_ret : MRet outcome := λ A a, Done a.
#[global] Instance outcome_bind : MBind outcome := λ A B k m,
  match m with
  | Done a => k a
  | Thrown e => Thrown e
  | Undefined f => Undefined f
  end.

(** [static_cast<uint32_t>(q)]: the truncated value when it fits; the
    conversion is undefined behaviour when it does not. *)
Definition float_to_uint (q : Q) : outcome Z :=
  let t := Qtrunc q in
  if ((0 <=? t) && (t <? 2 ^ 32))%Z then Done t else Undefined CastOutOfRange.

(** ** Point types and messages *)

Module PointXYZI.
Record t : Set := mk { x : Q; y : Q; z : Q; intensity : Q }.
Definition zero : t := mk 0 0 0 0.
End PointXYZI.

Module PointXYZIRADRT.
Record t : Set := mk {
  x : Q; y : Q; z : Q; intensity : Q;
  ring : nat;            (* uint16_t *)
  azimuth : Q;           (* centidegrees *)
  distance : Q;
  return_type : nat;
  time_stamp : Q }.
Definition zero : t := mk 0 0 0 0 0 0 0 0 0.
End PointXYZIRADRT.

#[global] Instance PointXYZI_inhabited : Inhabited PointXYZI.t :=
  populate PointXYZI.zero.
#[global] Instance PointXYZIRADRT_inhabited : Inhabited PointXYZIRADRT.t :=
  populate PointXYZIRADRT.zero.

(** [sensor_msgs::msg::PointCloud2] with records of type [P]. *)
Record PointCloud2 (P : Type) : Type := mkPointCloud2 {
  data : list P;
  point_step : nat;
  width : nat;
  height : nat;
  is_bigendian : bool;
  is_dense : bool }.
Arguments mkPointCloud2 {P}.
Arguments data {P}.
Arguments point_step {P}.
Arguments width {P}.
Arguments height {P}.
Arguments is_bigendian {P}.
Arguments is_dense {P}.

(** [cloud.data.size()], in bytes. *)
Definition data_size {P : Type} (cloud : PointCloud2 P) : nat :=
  point_step cloud * length (data cloud).

(** [cloud.data.resize(nbytes)]: new bytes are zero. *)
Definition data_resize {P : Type} (zero : P) (nbytes : nat)
    (cloud : PointCloud2 P) : PointCloud2 P :=
  mkPointCloud2 (resize (nbytes / point_step cloud) zero (data cloud))
    (point_step cloud) (width cloud) (height cloud)
    (is_bigendian cloud) (is_dense cloud).

(** The record read through [&input->data[data_idx]]. *)
Definition input_at (input : PointCloud2 PointXYZIRADRT.t) (data_idx : nat)
    : PointXYZIRADRT.t :=
  data input !!! (data_idx / point_step input).

Record TransformInfo : Type := {
  need_transform : bool;
  eigen_transform : nat → nat → Q   (* coefficient (row, column) of the 4x4 matrix *)
}.

(** ** Configuration *)

Inductive RoiMode : Set := RoiNone | RoiFixedXyz | RoiAzimuthDistance.

(** Modelled from the spec: the table [roi_mode_map_] is declared in the
    header, which is not part of the sources; the branches of the [switch]
    in [createBinaryImage] say that code 1 selects the xyz box and code 2
    the azimuth/distance box, every other mode taking the default branch. *)
Definition roi_mode_map_ (m : RoiMode) : Z :=
  match m with
  | RoiNone => 0
  | RoiFixedXyz => 1
  | RoiAzimuthDistance => 2
  end%Z.

Record Config : Type := {
  distance_ratio_ : Q;
  object_length_threshold_ : Q;
  num_points_threshold_ : Z;
  max_rings_num_ : nat;
  publish_noise_points_ : bool;
  x_max_ : Q; x_min_ : Q;
  y_max_ : Q; y_min_ : Q;
  z_max_ : Q; z_min_ : Q;
  min_azimuth_deg_ : Q;
  max_azimuth_deg_ : Q;
  max_distance_ : Q;
  vertical_bins_ : Z;
  max_azimuth_diff_ : Q;
  noise_threshold_ : Z;
  roi_mode_ : RoiMode }.

(** The defaults declared in the constructor. *)
Definition default_config : Config := {|
  distance_ratio_ := 103 # 100;
  object_length_threshold_ := 1 # 10;
  num_points_threshold_ := 4;
  max_rings_num_ := 128;
  publish_noise_points_ := false;
  x_max_ := 18; x_min_ := -12;
  y_max_ := 2; y_min_ := -2;
  z_max_ := 10; z_min_ := 0;
  min_azimuth_deg_ := 135;
  max_azimuth_deg_ := 225;
  max_distance_ := 12;
  vertical_bins_ := 128;
  max_azimuth_diff_ := 50;
  noise_threshold_ := 2;
  roi_mode_ := RoiFixedXyz |}.

(** ** Ring Partitioner (lines 113-124) *)

(** [ring2indices]: [max_rings_num_] empty vectors. *)
Definition ring2indices_init (max_rings_num : nat) : list (list nat) :=
  replicate max_rings_num [].

(** The loop over [data_idx]; [pts] are the records from [data_idx] on.
    [ring2indices[ring]] is not bounds-checked. *)
Fixpoint ring_partition (step : nat) (pts : list PointXYZIRADRT.t)
    (data_idx : nat) (ring2indices : list (list nat))
    : outcome (list (list nat)) :=
  match pts with
  | [] => Done ring2indices
  | p :: rest =>
      let ring := PointXYZIRADRT.ring p in
      if decide (ring < length ring2indices) then
        ring_partition step rest (data_idx + step)
          (alter (λ indices, indices ++ [data_idx]) ring ring2indices)
      else Undefined OutOfBounds
  end.

(** ** Walk Segmenter, Cluster Classifier and Output Compositor (lines 126-252) *)

(** [azimuth_diff] of lines 147-148: a [float] subtraction and a [float]
    addition, each rounded to binary32; the comparison is exact.  (Where a
    result leaves the range of binary32 the program has an infinity of the
    same sign, which compares with [0.f] and [100.f] as the model's value
    does.) *)
Definition azimuth_diff (current_azimuth next_azimuth : Q) : Q :=
  let azimuth_diff := binary32 (next_azimuth - current_azimuth) in
  if Qltb azimuth_diff 0 then binary32 (azimuth_diff + 36000) else azimuth_diff.

(** The same two lines on the bit patterns of binary32, with the operations
    of the standard library's specification of IEEE 754 ([SpecFloat], 24
    bits of precision, exponents below 128); [36000.f] is 9216000 * 2^-8. *)
Definition azimuth_diff_bits (current_azimuth next_azimuth : spec_float)
    : spec_float :=
  let azimuth_diff := SFsub 24 128 next_azimuth current_azimuth in
  if SFltb azimuth_diff (S754_zero false)
  then SFadd 24 128 azimuth_diff (S754_finite false 9216000 (-8))
  else azimuth_diff.

(** The rational that a finite binary32 bit pattern denotes. *)
Definition SF2Q (x : spec_float) : option Q :=
  match x with
  | S754_zero _ => Some 0%Q
  | S754_finite s m e =>
      Some ((if s then -1 else 1) * inject_Z (Zpos m) * Qpow2 e)%Q
  | _ => None
  end.

(** [binary32] of the exact sum and difference of [x] and [y] is what
    [SpecFloat] computes on the bit patterns. *)
Definition binary32_agrees (x y : spec_float) : bool :=
  match SF2Q x, SF2Q y, SF2Q (SFadd 24 128 x y), SF2Q (SFsub 24 128 x y) with
  | Some a, Some b, Some sum, Some difference =>
      Qeq_bool (binary32 (a + b)) sum && Qeq_bool (binary32 (a - b)) difference
  | _, _, _, _ => false
  end.

(** Bit patterns of all kinds: zero, 36000, 0.001, 1 and its neighbour,
    100, 2^-20, subnormal values, the least normal value, values with a
    full significand. *)
Definition binary32_samples : list spec_float :=
  [S754_zero false;
   S754_finite false 9216000 (-8); S754_finite true 9216000 (-8);
   S754_finite false 8589935 (-33); S754_finite true 8589935 (-33);
   S754_finite false 8388608 (-23); S754_finite false 8388609 (-23);
   S754_finite false 16777215 (-24); S754_finite false 13107200 (-17);
   S754_finite false 8388608 (-43); S754_finite false 12582912 (-23);
   S754_finite false 1 (-149); S754_finite false 5 (-149);
   S754_finite false 8388607 (-149); S754_finite false 8388608 (-149);
   S754_finite true 11184811 (-25); S754_finite false 13421773 (-27);
   S754_finite false 9437184 (-8); S754_finite false 16777215 0;
   S754_finite false 9216001 (-8); S754_finite false 9215999 (-8);
   S754_finite false 8796093 (-10)].

(** The condition of lines 155-158: the next point stays in the same walk. *)
Definition same_walk (cfg : Config) (current next : PointXYZIRADRT.t) : bool :=
  let current_distance := PointXYZIRADRT.distance current in
  let next_distance := PointXYZIRADRT.distance next in
  Qltb (Qmax current_distance next_distance)
       (Qmin current_distance next_distance * distance_ratio_ cfg)
  && Qltb (azimuth_diff (PointXYZIRADRT.azimuth current)
                        (PointXYZIRADRT.azimuth next)) 100.

(** Modelled from the spec: [isCluster] is defined in the header, which is
    not part of the sources.  Section 4.4 accepts a walk when its point count
    is at least [num_points_threshold] or its estimated spatial extent is at
    least [object_length_threshold]; the call sites hand over the two end
    records of the walk only, so the extent is the distance between them
    (compared squared, a threshold that is not positive being always
    reached). *)
Definition isCluster_model (cfg : Config)
    (input : PointCloud2 PointXYZIRADRT.t)
    (data_idx_both_ends : nat * nat) (walk_size : Z) : bool :=
  let first_point := input_at input (fst data_idx_both_ends) in
  let last_point := input_at input (snd data_idx_both_ends) in
  let x := (PointXYZIRADRT.x first_point - PointXYZIRADRT.x last_point)%Q in
  let y := (PointXYZIRADRT.y first_point - PointXYZIRADRT.y last_point)%Q in
  let z := (PointXYZIRADRT.z first_point - PointXYZIRADRT.z last_point)%Q in
  (num_points_threshold_ cfg <=? walk_size)%Z
  || Qle_bool (object_length_threshold_ cfg) 0
  || Qle_bool (object_length_threshold_ cfg * object_length_threshold_ cfg)
              (x * x + y * y + z * z).

(** One call of [isCluster]: the walk range and the decision. *)
Record Walk : Set := mkWalk {
  walk_first : Z;
  walk_last : Z;
  walk_kept : bool }.

(** The two buffers under construction.  [output_data] holds the records
    written so far, that is the first [output_size] bytes of [output.data];
    [walks] is the trace of the calls of [isCluster]. *)
Record Buffers : Type := mkBuffers {
  output_data : list PointXYZI.t;
  output_size : nat;
  noise_points_data : list PointXYZI.t;
  noise_points_size : nat;
  walks : list Walk }.

Definition empty_buffers : Buffers := mkBuffers [] 0 [] 0 [].

(** [for (int i = first; i <= last; i++)]. *)
Definition int_range (first last : Z) : list Z :=
  map (λ k, first + Z.of_nat k)%Z (seq 0 (Z.to_nat (last - first + 1))).

(** [indices[i]] for an [int] subscript. *)
Definition at_int (indices : list nat) (i : Z) : nat :=
  indices !!! Z.to_nat i.

Section FasterFilter.
Variable sizeof_PointXYZI : nat.
Variable isCluster : PointCloud2 PointXYZIRADRT.t → nat * nat → Z → bool.
Variable cfg : Config.
Variable transform_info : TransformInfo.
Variable input : PointCloud2 PointXYZIRADRT.t.

(** The record stored through [output_ptr] or [noise_ptr] for the input
    record [p]. *)
Definition to_PointXYZI (p : PointXYZIRADRT.t) : PointXYZI.t :=
  if need_transform transform_info then
    let m := eigen_transform transform_info in
    let coord (r : nat) : Q :=
      (m r 0%nat * PointXYZIRADRT.x p + m r 1%nat * PointXYZIRADRT.y p
       + m r 2%nat * PointXYZIRADRT.z p + m r 3%nat * 1)%Q in
    PointXYZI.mk (coord 0) (coord 1) (coord 2) (PointXYZIRADRT.intensity p)
  else
    PointXYZI.mk (PointXYZIRADRT.x p) (PointXYZIRADRT.y p)
      (PointXYZIRADRT.z p) (PointXYZIRADRT.intensity p).

(** Lines 166-182: one record to the accepted buffer. *)
Definition push_output (data_idx : nat) (b : Buffers) : Buffers :=
  mkBuffers (output_data b ++ [to_PointXYZI (input_at input data_idx)])
    (output_size b + sizeof_PointXYZI)
    (noise_points_data b) (noise_points_size b) (walks b).

(** Lines 186-202: one record to the noise buffer. *)
Definition push_noise (data_idx : nat) (b : Buffers) : Buffers :=
  mkBuffers (output_data b) (output_size b)
    (noise_points_data b ++ [to_PointXYZI (input_at input data_idx)])
    (noise_points_size b + sizeof_PointXYZI) (walks b).

Definition record_walk (w : Walk) (b : Buffers) : Buffers :=
  mkBuffers (output_data b) (output_size b)
    (noise_points_data b) (noise_points_size b) (walks b ++ [w]).

Definition classify (indices : list nat) (walk_first_idx walk_last_idx : Z)
    : bool :=
  isCluster input
    (at_int indices walk_first_idx, at_int indices walk_last_idx)
    (walk_last_idx - walk_first_idx + 1).

(** Lines 162-204: the walk closed inside the loop. *)
Definition close_walk (indices : list nat) (walk_first_idx walk_last_idx : Z)
    (b : Buffers) : Buffers :=
  let is_cluster := classify indices walk_first_idx walk_last_idx in
  let b := record_walk (mkWalk walk_first_idx walk_last_idx is_cluster) b in
  if is_cluster then
    foldl (λ b i, push_output (at_int indices i) b) b
      (int_range walk_first_idx walk_last_idx)
  else if publish_noise_points_ cfg then
    foldl (λ b (_ : Z), push_noise (at_int indices walk_first_idx) b) b
      (int_range walk_first_idx walk_last_idx)
  else b.

(** Lines 211-251: the walk closed after the loop. *)
Definition close_last_walk (indices : list nat)
    (walk_first_idx walk_last_idx : Z) (b : Buffers) : Buffers :=
  let is_cluster := classify indices walk_first_idx walk_last_idx in
  let b := record_walk (mkWalk walk_first_idx walk_last_idx is_cluster) b in
  if is_cluster then
    foldl (λ b i, push_output (at_int indices i) b) b
      (int_range walk_first_idx walk_last_idx)
  else if publish_noise_points_ cfg then
    foldl (λ b i, push_noise (at_int indices i) b) b
      (int_range walk_first_idx (walk_last_idx - 1))
  else b.

(** Lines 136-207: [n] iterations of the loop are left, the next one at
    [idx]. *)
Fixpoint walk_loop (indices : list nat) (n idx : nat)
    (walk_first_idx walk_last_idx : Z) (b : Buffers) : Z * Z * Buffers :=
  match n with
  | O => (walk_first_idx, walk_last_idx, b)
  | S n' =>
      let current_data_idx := indices !!! idx in
      let next_data_idx := indices !!! (idx + 1) in
      let walk_last_idx := Z.of_nat idx in
      if same_walk cfg (input_at input current_data_idx)
                       (input_at input next_data_idx)
      then walk_loop indices n' (S idx) walk_first_idx walk_last_idx b
      else walk_loop indices n' (S idx) (Z.of_nat idx + 1)%Z walk_last_idx
             (close_walk indices walk_first_idx walk_last_idx b)
  end.

(** Lines 130-252: the body of the loop over the rings. *)
Definition filter_ring (b : Buffers) (indices : list nat) : Buffers :=
  if decide (length indices < 2) then b
  else
    let '(walk_first_idx, walk_last_idx, b) :=
      walk_loop indices (length indices - 1) 0 0%Z (-1)%Z b in
    if (walk_first_idx >? walk_last_idx)%Z then b
    else close_last_walk indices walk_first_idx walk_last_idx b.

Definition filter_rings (ring2indices : list (list nat)) : Buffers :=
  foldl filter_ring empty_buffers ring2indices.

(** [setUpPointCloudFormat] (lines 338-360); [frame_id] and the field
    table written by [PointCloud2Modifier] are not kept. *)
Definition setUpPointCloudFormat (formatted_points : PointCloud2 PointXYZI.t)
    (points_size : nat) : PointCloud2 PointXYZI.t :=
  let formatted_points :=
    data_resize PointXYZI.zero points_size formatted_points in
  let formatted_points :=
    data_resize PointXYZI.zero
      (point_step formatted_points * width input) formatted_points in
  mkPointCloud2 (data formatted_points) (point_step formatted_points)
    (data_size formatted_points / point_step formatted_points)
    1 (is_bigendian input) (is_dense input).

(** The cloud handed to [setUpPointCloudFormat]: [point_step] is
    [sizeof(PointXYZI)], [data] the records written to it. *)
Definition composed (records : list PointXYZI.t) : PointCloud2 PointXYZI.t :=
  mkPointCloud2 records sizeof_PointXYZI 0 0 false false.
End FasterFilter.

(** ** Visibility Estimator (lines 362-494) *)

(** [cv::Mat] of [uchar]: the rows of the image. *)
Definition Mat : Type := list (list Z).

(** [frequency_image.at<uchar>(row, col) = value]. *)
Definition mat_set (row col : nat) (value : Z) (image : Mat) : Mat :=
  alter (λ cells, <[col := value]> cells) row image.

Section CreateBinaryImage.
Variable cfg : Config.

Definition horizontal_bins : Z := 36.

(** Lines 371-387. *)
Definition max_azimuth : Q :=
  if (roi_mode_map_ (roi_mode_ cfg) =? 2)%Z
  then (max_azimuth_deg_ cfg * 100)%Q else 36000%Q.
Definition min_azimuth : Q :=
  if (roi_mode_map_ (roi_mode_ cfg) =? 2)%Z
  then (min_azimuth_deg_ cfg * 100)%Q else 0%Q.

(** Lines 390-391. *)
Definition horizontal_resolution : outcome Z :=
  float_to_uint ((max_azimuth - min_azimuth) / inject_Z horizontal_bins).

(** Lines 400-402: [pcl_noise_ring_array.at(p.ring).push_back(p)]. *)
Fixpoint noise_ring_partition (pts : list PointXYZIRADRT.t)
    (pcl_noise_ring_array : list (list PointXYZIRADRT.t))
    : outcome (list (list PointXYZIRADRT.t)) :=
  match pts with
  | [] => Done pcl_noise_ring_array
  | p :: rest =>
      if decide (PointXYZIRADRT.ring p < length pcl_noise_ring_array) then
        noise_ring_partition rest
          (alter (λ single_ring, single_ring ++ [p])
             (PointXYZIRADRT.ring p) pcl_noise_ring_array)
      else Thrown OutOfRange
  end.

(** The right-hand side of [condition] (lines 428-429), in [uint]
    arithmetic.  With a resolution of zero the quotient is not a finite
    number and its cast to [uint] is undefined behaviour. *)
Definition sector_bound (horizontal_resolution i : Z) : outcome Z :=
  if (horizontal_resolution =? 0)%Z then Undefined DivisionByZero
  else
    first_sector ← float_to_uint (min_azimuth / inject_Z horizontal_resolution);
    Done (u32 ((i + 1 + first_sector) * horizontal_resolution)).

(** The [switch] of lines 432-458: does the point count? *)
Definition in_roi (p : PointXYZIRADRT.t) : bool :=
  if (roi_mode_map_ (roi_mode_ cfg) =? 1)%Z then
    Qltb (PointXYZIRADRT.x p) (x_max_ cfg) && Qltb (x_min_ cfg) (PointXYZIRADRT.x p)
    && Qltb (y_max_ cfg) (PointXYZIRADRT.y p) && Qltb (PointXYZIRADRT.y p) (y_min_ cfg)
    && Qltb (PointXYZIRADRT.z p) (z_max_ cfg) && Qltb (z_min_ cfg) (PointXYZIRADRT.z p)
  else if (roi_mode_map_ (roi_mode_ cfg) =? 2)%Z then
    Qltb (PointXYZIRADRT.azimuth p) max_azimuth
    && Qltb min_azimuth (PointXYZIRADRT.azimuth p)
    && Qltb (PointXYZIRADRT.distance p) (max_distance_ cfg)
  else true.

(** The [while] loop of lines 424-469; [n] is the distance of
    [current_temp_segment_index] to [size() - 1].  The index advances
    also when [condition] turns false. *)
Fixpoint segment_while (single_ring : list PointXYZIRADRT.t)
    (horizontal_resolution i : Z) (n current_temp_segment_index : nat)
    (noise_frequency_i : Z) : outcome (nat * Z) :=
  match n with
  | O => Done (current_temp_segment_index, noise_frequency_i)
  | S n' =>
      bound ← sector_bound horizontal_resolution i;
      let p := single_ring !!! current_temp_segment_index in
      let azimuth :=
        if Qltb (PointXYZIRADRT.azimuth p) 0 then 0%Q
        else PointXYZIRADRT.azimuth p in
      if Qltb azimuth (inject_Z bound) then
        segment_while single_ring horizontal_resolution i n'
          (S current_temp_segment_index)
          (if in_roi p then noise_frequency_i + 1 else noise_frequency_i)%Z
      else Done (S current_temp_segment_index, noise_frequency_i)
  end.

(** The [for] loop of lines 419-477: [m] sectors are left, the next one
    is [i]. *)
Fixpoint segment_for (single_ring : list PointXYZIRADRT.t)
    (horizontal_resolution : Z) (ring_id m : nat) (i : Z)
    (current_temp_segment_index : nat) (frequency_image : Mat)
    : outcome Mat :=
  match m with
  | O => Done frequency_image
  | S m' =>
      '(index, noise_frequency_i) ←
        segment_while single_ring horizontal_resolution i
          (length single_ring - 1 - current_temp_segment_index)
          current_temp_segment_index 0%Z;
      let noise_frequency_i := Z.min noise_frequency_i 255 in
      segment_for single_ring horizontal_resolution ring_id m' (i + 1)%Z
        index (mat_set ring_id (Z.to_nat i) noise_frequency_i frequency_image)
  end.

(** Lines 406-478, one ring. *)
Definition analyze_ring (horizontal_resolution : Z) (frequency_image : Mat)
    (single_ring : list PointXYZIRADRT.t) : outcome Mat :=
  match single_ring with
  | [] => Done frequency_image
  | front :: _ =>
      segment_for single_ring horizontal_resolution
        (PointXYZIRADRT.ring front) (Z.to_nat horizontal_bins - 1) 0%Z 0
        frequency_image
  end.

Fixpoint analyze_rings (horizontal_resolution : Z) (frequency_image : Mat)
    (pcl_noise_ring_array : list (list PointXYZIRADRT.t)) : outcome Mat :=
  match pcl_noise_ring_array with
  | [] => Done frequency_image
  | single_ring :: rest =>
      frequency_image ←
        analyze_ring horizontal_resolution frequency_image single_ring;
      analyze_rings horizontal_resolution frequency_image rest
  end.

(** The image before [cv::inRange].  [vertical_bins] is the [uint32_t] of
    line 369: a negative parameter wraps around.  Line 396 hands it to
    [cv::Size], whose height is an [int]; the model gives the image
    [vertical_bins] rows, which is what the program asks for when
    [vertical_bins_] lies between 0 and 2^31 - 1.  What OpenCV makes of a
    height that the conversion turns negative is not in the sources. *)
Definition frequency_image_of (input : PointCloud2 PointXYZIRADRT.t)
    : outcome Mat :=
  let vertical_bins := Z.to_nat (u32 (vertical_bins_ cfg)) in
  horizontal_resolution ← horizontal_resolution;
  pcl_noise_ring_array ←
    noise_ring_partition (data input) (replicate vertical_bins []);
  analyze_rings horizontal_resolution
    (replicate vertical_bins (replicate (Z.to_nat horizontal_bins) 0%Z))
    pcl_noise_ring_array.

(** [cv::inRange(frequency_image, noise_threshold_, 255, binary_image)]:
    both bounds are inclusive. *)
Definition inRange (lowerb upperb : Z) (image : Mat) : Mat :=
  map (map (λ v, if ((lowerb <=? v) && (v <=? upperb))%Z then 255 else 0)%Z)
    image.

Definition createBinaryImage (input : PointCloud2 PointXYZIRADRT.t)
    : outcome Mat :=
  frequency_image ← frequency_image_of input;
  Done (inRange (noise_threshold_ cfg) 255 frequency_image).
End CreateBinaryImage.

(** [cv::countNonZero]. *)
Definition countNonZero (image : Mat) : Z :=
  Z.of_nat (length (filter (λ v : Z, v ≠ 0%Z) (concat image))).

(** [calculateFilledPixels] (lines 487-494); [None] is the float that is
    not a finite number, the quotient by zero. *)
Definition calculateFilledPixels (frequency_image : Mat)
    (vertical_bins horizontal_bins : Z) : option Q :=
  let num_pixels := countNonZero frequency_image in
  let total := u32 (vertical_bins * horizontal_bins) in
  if (total =? 0)%Z then None
  else Some (inject_Z num_pixels / inject_Z total)%Q.

(** ** The frame (lines 82-293) *)

Inductive Message : Type :=
| NoisePoints (noise_points : PointCloud2 PointXYZI.t)
| FrequencyImage (frequency_image : Mat)
| Visibility (data : option Q).

Section Frame.
Variable sizeof_PointXYZI : nat.
Variable isCluster : PointCloud2 PointXYZIRADRT.t → nat * nat → Z → bool.
Variable cfg : Config.
Variable transform_info : TransformInfo.
Variable input : PointCloud2 PointXYZIRADRT.t.

(** Lines 113-124. *)
Definition ring2indices_of : outcome (list (list nat)) :=
  ring_partition (point_step input) (data input) 0
    (ring2indices_init (max_rings_num_ cfg)).

(** Lines 126-252. *)
Definition compose : outcome Buffers :=
  ring2indices ← ring2indices_of;
  Done (filter_rings sizeof_PointXYZI isCluster cfg transform_info input
          ring2indices).

(** Lines 260-273: what is published besides the noise points. *)
Definition visibility_messages : outcome (list Message) :=
  frequency_image ← createBinaryImage cfg input;
  let num_filled_pixels :=
    calculateFilledPixels frequency_image (u32 (vertical_bins_ cfg)) 36 in
  Done [FrequencyImage frequency_image;
        Visibility ((λ filled, 1 - filled)%Q <$> num_filled_pixels)].

(** [faster_filter]: the messages published, in order, and [output].  For
    a run that throws or reaches undefined behaviour the messages are those
    published before that point. *)
Definition faster_filter
    : list Message * outcome (PointCloud2 PointXYZI.t) :=
  match compose with
  | Thrown e => ([], Thrown e)
  | Undefined f => ([], Undefined f)
  | Done b =>
      let output :=
        setUpPointCloudFormat input
          (composed sizeof_PointXYZI (output_data b)) (output_size b) in
      if publish_noise_points_ cfg then
        let noise_points :=
          setUpPointCloudFormat input
            (composed sizeof_PointXYZI (noise_points_data b))
            (noise_points_size b) in
        match visibility_messages with
        | Thrown e => ([NoisePoints noise_points], Thrown e)
        | Undefined f => ([NoisePoints noise_points], Undefined f)
        | Done messages => (NoisePoints noise_points :: messages, Done output)
        end
      else ([], Done output)
  end.
End Frame.

(** ** Frames and configurations used in the examples *)

Definition make_point (x y z intensity : Q) (ring : nat) (azimuth distance : Q)
    : PointXYZIRADRT.t :=
  PointXYZIRADRT.mk x y z intensity ring azimuth distance 0 0.

(** An unorganised cloud ([height = 1], [width] = number of points) of
    48-byte records. *)
Definition make_cloud (pts : list PointXYZIRADRT.t)
    : PointCloud2 PointXYZIRADRT.t :=
  mkPointCloud2 pts 48 (length pts) 1 false true.

(** The defaults, with the given parameters replaced. *)
Definition configure (num_points_threshold : Z) (publish_noise_points : bool)
    (vertical_bins noise_threshold : Z) (roi_mode : RoiMode)
    (min_azimuth_deg max_azimuth_deg : Q) : Config := {|
  distance_ratio_ := distance_ratio_ default_config;
  object_length_threshold_ := object_length_threshold_ default_config;
  num_points_threshold_ := num_points_threshold;
  max_rings_num_ := max_rings_num_ default_config;
  publish_noise_points_ := publish_noise_points;
  x_max_ := x_max_ default_config; x_min_ := x_min_ default_config;
  y_max_ := y_max_ default_config; y_min_ := y_min_ default_config;
  z_max_ := z_max_ default_config; z_min_ := z_min_ default_config;
  min_azimuth_deg_ := min_azimuth_deg;
  max_azimuth_deg_ := max_azimuth_deg;
  max_distance_ := max_distance_ default_config;
  vertical_bins_ := vertical_bins;
  max_azimuth_diff_ := max_azimuth_diff_ default_config;
  noise_threshold_ := noise_threshold;
  roi_mode_ := roi_mode |}.

Definition no_transform : TransformInfo :=
  {| need_transform := false; eigen_transform := λ _ _, 0%Q |}.

(** [sizeof(PointXYZI)] for four floats. *)
Definition sizeof_four_floats : nat := 16.

(** Five points of ring 0, one centimetre and a tenth of a degree apart, at
    the same distance: the condition of lines 155-158 holds for every
    consecutive pair. *)
Definition frame_five : PointCloud2 PointXYZIRADRT.t :=
  make_cloud
    [make_point 10 0 0 1 0 0 10;
     make_point 10 (1 # 100) 0 2 0 10 10;
     make_point 10 (2 # 100) 0 3 0 20 10;
     make_point 10 (3 # 100) 0 4 0 30 10;
     make_point 10 (4 # 100) 0 5 0 40 10].

(** Three points of ring 0; from the second to the third the azimuth
    grows by 150. *)
Definition frame_three : PointCloud2 PointXYZIRADRT.t :=
  make_cloud
    [make_point 10 0 0 1 0 0 10;
     make_point 10 (1 # 100) 0 2 0 10 10;
     make_point 10 (2 # 100) 0 3 0 160 10].

(** The filter with the classifier of the spec, no transform and
    16-byte output records. *)
Definition run_compose (cfg : Config) (input : PointCloud2 PointXYZIRADRT.t)
    : outcome Buffers :=
  compose sizeof_four_floats (isCluster_model cfg) cfg no_transform input.

Definition run_filter (cfg : Config) (input : PointCloud2 PointXYZIRADRT.t)
    : list Message * outcome (PointCloud2 PointXYZI.t) :=
  faster_filter sizeof_four_floats (isCluster_model cfg) cfg no_transform input.

(** The output record of an input record when no transform is applied. *)
Definition copied (p : PointXYZIRADRT.t) : PointXYZI.t :=
  PointXYZI.mk (PointXYZIRADRT.x p) (PointXYZIRADRT.y p)
    (PointXYZIRADRT.z p) (PointXYZIRADRT.intensity p).

(** Noise output enabled, everything else as declared. *)
Definition cfg_noise : Config := configure 4 true 128 2 RoiFixedXyz 135 225.

(** Five points required for a cluster, noise output enabled. *)
Definition cfg_five : Config := configure 5 true 128 2 RoiFixedXyz 135 225.

(** One point whose ring id is the declared [max_rings_num]. *)
Definition frame_ring_128 : PointCloud2 PointXYZIRADRT.t :=
  make_cloud [make_point 10 0 0 1 128 0 10].

(** The azimuth/distance mode with an empty azimuth window. *)
Definition cfg_empty_window : Config :=
  configure 4 true 128 2 RoiAzimuthDistance 135 135.

(** One ring, no region of interest, threshold 2. *)
Definition cfg_one_ring : Config := configure 4 true 1 2 RoiNone 135 225.

(** Ring 0: three points in the first sector, four in the last one. *)
Definition frame_last_sector : PointCloud2 PointXYZIRADRT.t :=
  make_cloud
    [make_point 10 0 0 1 0 100 10;
     make_point 10 0 0 1 0 200 10;
     make_point 10 0 0 1 0 300 10;
     make_point 10 0 0 1 0 35500 10;
     make_point 10 0 0 1 0 35600 10;
     make_point 10 0 0 1 0 35700 10;
     make_point 10 0 0 1 0 35800 10].

(** A single point: no ring has two points. *)
Definition frame_one : PointCloud2 PointXYZIRADRT.t :=
  make_cloud [make_point 10 0 0 1 0 0 10].

(** The positions of a ring that belong to a walk. *)
Definition walk_range (w : Walk) : list Z :=
  int_range (walk_first w) (walk_last w).

(** The positions of a ring that the loop of lines 136-207 reads, as
    [indices[idx]] or as [indices[idx + 1]]: all of them, and none when the
    ring has fewer than two points and is skipped (line 131). *)
Definition visited (indices : list nat) : list Z :=
  if decide (length indices < 2) then []
  else int_range 0 (Z.of_nat (length indices) - 1).

(** The cells that [cv::inRange] turns into 255: the count lies between the
    threshold and 255, both included. *)
Definition filled_cells (noise_threshold : Z) (frequency_image : Mat) : Z :=
  Z.of_nat (length (filter (λ v : Z, (noise_threshold ≤ v ≤ 255)%Z)
                      (concat frequency_image))).

(** Following the spec's words (section 4.6, step 5): a cell is filled if
    its count exceeds the threshold. *)
Definition filled_cells_spec (noise_threshold : Z) (frequency_image : Mat) : Z :=
  Z.of_nat (length (filter (λ v : Z, (noise_threshold < v)%Z)
                      (concat frequency_image))).

(** No ring at all, the other parameters as in [cfg_one_ring]. *)
Definition cfg_no_ring : Config := configure 4 true 0 2 RoiNone 135 225.

(** The byte counters agree with the records written, and at most
    [budget] records went to each buffer. *)
Definition within (sizeof_PointXYZI : nat) (budget : nat) (b0 b : Buffers)
    : Prop :=
  length (output_data b) ≤ length (output_data b0) + budget
  ∧ length (noise_points_data b) ≤ length (noise_points_data b0) + budget
  ∧ (output_size b0 = sizeof_PointXYZI * length (output_data b0) →
     output_size b = sizeof_PointXYZI * length (output_data b))
  ∧ (noise_points_size b0 = sizeof_PointXYZI * length (noise_points_data b0) →
     noise_points_size b
     = sizeof_PointXYZI * length (noise_points_data b)).

(** The condition of lines 155-158 for the positions [i] and [i + 1] of a
    ring. *)
Definition continuous_at (cfg : Config) (input : PointCloud2 PointXYZIRADRT.t)
    (indices : list nat) (i : Z) : bool :=
  same_walk cfg (input_at input (indices !!! Z.to_nat i))
    (input_at input (indices !!! (Z.to_nat i + 1))).

(** The records that a kept walk of a ring sends to the accepted buffer. *)
Definition accepted_records (transform_info : TransformInfo)
    (input : PointCloud2 PointXYZIRADRT.t) (indices : list nat) (w : Walk)
    : list PointXYZI.t :=
  if walk_kept w then
    map (λ i, to_PointXYZI transform_info (input_at input (at_int indices i)))
      (walk_range w)
  else [].
(** A record of one of the two buffers that is the image of an input
    point. *)
Definition is_input_record (transform_info : TransformInfo)
    (input : PointCloud2 PointXYZIRADRT.t) (r : PointXYZI.t) : Prop :=
  ∃ p, p ∈ data input ∧ r = to_PointXYZI transform_info p.

(** An offset stored in [ring2indices]: the start of a record of the
    input. *)
Definition valid_offset (input : PointCloud2 PointXYZIRADRT.t) (o : nat)
    : Prop :=
  ∃ k p, o = k * point_step input ∧ data input !! k = Some p.
(** Both buffers of [b'] are those of [b] followed by records of input
    points. *)
Definition grown_by_input (transform_info : TransformInfo)
    (input : PointCloud2 PointXYZIRADRT.t) (b b' : Buffers) : Prop :=
  ∃ accepted noise,
    output_data b' = output_data b ++ accepted
    ∧ noise_points_data b' = noise_points_data b ++ noise
    ∧ Forall (is_input_record transform_info input) accepted
    ∧ Forall (is_input_record transform_info input) noise.

(** One ring row, the xyz region with the declared bounds. *)
Definition cfg_xyz_one_ring : Config :=
  configure 4 true 1 2 RoiFixedXyz 135 225.


(** * Mission planner: a shallow embedding of
    [planning/mission_planner/src/mission_planner/mission_planner.cpp]

    The node's collaborators (the arrival checker, the planner plugin, the
    tf buffer, the clock, the random engine and the lanelet map) are not
    part of the sources: what they answer is a parameter of each operation.
    A thrown exception is a result of its own and leaves the members as they
    were when it was thrown. *)

Module Planner.

Record Header : Type := mkHeader { stamp : Z; frame_id : string }.

Record Pose : Type := mkPose {
  position : Q * Q * Q;
  orientation : Q * Q * Q * Q }.

Record PoseStamped : Type := mkPoseStamped {
  ps_header : Header;
  ps_pose : Pose }.

Record PoseWithUuidStamped : Type := mkGoal {
  goal_header : Header;
  goal_pose_of : Pose;
  goal_uuid : list Z }.

Record Odometry : Type := mkOdometry {
  odom_header : Header;
  odom_pose : Pose;          (* pose.pose *)
  odom_linear_x : Q }.       (* twist.twist.linear.x *)

Record LaneletPrimitive : Type := mkPrimitive {
  id : Z;
  primitive_type : string }.

Record LaneletSegment : Type := mkSegment {
  preferred_primitive : LaneletPrimitive;
  primitives : list LaneletPrimitive }.

Record LaneletRoute : Type := mkRoute {
  header : Header;
  start_pose : Pose;
  goal_pose : Pose;
  segments : list LaneletSegment;
  uuid : list Z }.

(** A default-constructed primitive. *)
Definition empty_primitive : LaneletPrimitive := mkPrimitive 0 EmptyString.

(** [convert(const LaneletPrimitive &)] (lines 37-43). *)
Definition convert_primitive (p : LaneletPrimitive) : LaneletPrimitive :=
  mkPrimitive (id p) (primitive_type p).

(** [convert(const LaneletSegment &)] (lines 45-54): of the preferred
    primitive only the id is assigned. *)
Definition convert_segment (s : LaneletSegment) : LaneletSegment :=
  mkSegment
    (mkPrimitive (id (preferred_primitive s)) (primitive_type empty_primitive))
    (convert_primitive (preferred_primitive s)
     :: map convert_primitive (primitives s)).

(** The requests of the two route services. *)
Record SetRouteRequest : Type := mkSetRoute {
  sr_header : Header;
  sr_goal : Pose;
  sr_segments : list LaneletSegment }.

Record SetRoutePointsRequest : Type := mkSetRoutePoints {
  srp_header : Header;
  srp_goal : Pose;
  srp_waypoints : list Pose }.

(** What the handlers throw. *)
Inductive Exception : Type :=
| ERROR_ROUTE_EXISTS
| ERROR_PLANNER_UNREADY
| ERROR_PLANNER_FAILED
| TransformError
| out_of_range
| NoSuchPrimitiveError.

Inductive result (A : Type) : Type :=
| Returned (a : A)
| Thrown (e : Exception).
Arguments Returned {A} a.
Arguments Thrown {A} e.

(** [state_]: the stamp and the state. *)
Record RouteState : Type := mkRouteState {
  state_stamp : Z;
  state : Z }.

Inductive Publication : Type :=
| PubState (s : RouteState)
| PubRoute (route : LaneletRoute)
| PubMarker (route : LaneletRoute).

Section Callbacks.
(** The constants [RouteState::Message::UNSET], [SET] and [ARRIVED]. *)
Variable UNSET SET ARRIVED : Z.
(** The arrival checker: its state and its four operations. *)
Variable Checker : Type.
Variable is_arrived : Checker → PoseStamped → bool.
Variable set_goal_none : Checker → Checker.
Variable set_goal : PoseWithUuidStamped → Checker → Checker.
Variable modify_goal : PoseWithUuidStamped → Checker → Checker.
(** The map message. *)
Variable HADMapBin : Type.

(** The members of the node that the handlers read and write, and what
    the node has published. *)
Record Node : Type := mkNode {
  map_frame_ : string;
  state_ : RouteState;
  odometry_ : option Odometry;
  map_ptr_ : option HADMapBin;
  arrival_checker_ : Checker;
  published : list Publication }.

(** What the collaborators answer during one callback: the clock, the tf
    lookup ([None] for a [tf2::TransformException]), the planner plugin and
    the random engine. *)
Record Environment : Type := mkEnvironment {
  now : Z;
  do_transform : string → PoseStamped → option PoseStamped;
  planner_ready : bool;
  planner_plan : list Pose → LaneletRoute;
  random_id : list Z }.

(** [transform_pose] (lines 119-130). *)
Definition transform_pose (env : Environment) (node : Node)
    (input : PoseStamped) : result PoseStamped :=
  match do_transform env (map_frame_ node) input with
  | Some output => Returned output
  | None => Thrown TransformError
  end.

(** [change_route()] (lines 132-136). *)
Definition change_route_none (node : Node) : Node :=
  mkNode (map_frame_ node) (state_ node) (odometry_ node) (map_ptr_ node)
    (set_goal_none (arrival_checker_ node)) (published node).

(** [change_route(const LaneletRoute &)] (lines 138-148). *)
Definition change_route (route : LaneletRoute) (node : Node) : Node :=
  let goal := mkGoal (header route) (goal_pose route) (uuid route) in
  mkNode (map_frame_ node) (state_ node) (odometry_ node) (map_ptr_ node)
    (set_goal goal (arrival_checker_ node))
    (published node ++ [PubRoute route; PubMarker route]).

(** [change_state] (lines 150-155). *)
Definition change_state (env : Environment) (s : Z) (node : Node) : Node :=
  let state_ := mkRouteState (now env) s in
  mkNode (map_frame_ node) state_ (odometry_ node) (map_ptr_ node)
    (arrival_checker_ node) (published node ++ [PubState state_]).

(** [on_odometry] (lines 104-117). *)
Definition on_odometry (env : Environment) (msg : Odometry) (node : Node)
    : Node :=
  let node :=
    mkNode (map_frame_ node) (state_ node) (Some msg) (map_ptr_ node)
      (arrival_checker_ node) (published node) in
  if (state (state_ node) =? SET)%Z then
    let pose := mkPoseStamped (odom_header msg) (odom_pose msg) in
    if is_arrived (arrival_checker_ node) pose
    then change_state env ARRIVED node
    else node
  else node.

(** [on_clear_route] (lines 158-164); the response is [success = true]. *)
Definition on_clear_route (env : Environment) (node : Node) : Node :=
  change_state env UNSET (change_route_none node).

(** [on_set_route] (lines 167-201): the exception thrown, or the node
    after the response [success = true]. *)
Definition on_set_route (env : Environment) (req : SetRouteRequest)
    (node : Node) : result Node :=
  if negb (state (state_ node) =? UNSET)%Z then Thrown ERROR_ROUTE_EXISTS
  else
    match odometry_ node with
    | None => Thrown ERROR_PLANNER_UNREADY
    | Some odometry =>
        let pose := mkPoseStamped (sr_header req) (sr_goal req) in
        match transform_pose env node pose with
        | Thrown e => Thrown e
        | Returned transformed =>
            let route :=
              mkRoute
                (mkHeader (stamp (sr_header req)) (map_frame_ node))
                (odom_pose odometry)
                (ps_pose transformed)
                (map convert_segment (sr_segments req))
                (random_id env) in
            Returned (change_state env SET (change_route route node))
        end
    end.

(** The loop of lines 230-233: the waypoints are transformed in order, up
    to the first failure. *)
Fixpoint transform_waypoints (env : Environment) (node : Node)
    (request_header : Header) (waypoints : list Pose) : result (list Pose) :=
  match waypoints with
  | [] => Returned []
  | waypoint :: rest =>
      match transform_pose env node (mkPoseStamped request_header waypoint) with
      | Thrown e => Thrown e
      | Returned transformed =>
          match transform_waypoints env node request_header rest with
          | Thrown e => Thrown e
          | Returned points => Returned (ps_pose transformed :: points)
          end
      end
  end.

(** [on_set_route_points] (lines 204-251). *)
Definition on_set_route_points (env : Environment)
    (req : SetRoutePointsRequest) (node : Node) : result Node :=
  if negb (state (state_ node) =? UNSET)%Z then Thrown ERROR_ROUTE_EXISTS
  else if negb (planner_ready env) then Thrown ERROR_PLANNER_UNREADY
  else
    match odometry_ node with
    | None => Thrown ERROR_PLANNER_UNREADY
    | Some odometry =>
        match transform_waypoints env node (srp_header req)
                (srp_waypoints req) with
        | Thrown e => Thrown e
        | Returned waypoints =>
            match transform_pose env node
                    (mkPoseStamped (srp_header req) (srp_goal req)) with
            | Thrown e => Thrown e
            | Returned goal =>
                let points := odom_pose odometry :: waypoints ++ [ps_pose goal] in
                let route := planner_plan env points in
                if decide (segments route = []) then Thrown ERROR_PLANNER_FAILED
                else
                  let route :=
                    mkRoute
                      (mkHeader (stamp (srp_header req)) (map_frame_ node))
                      (start_pose route) (goal_pose route) (segments route)
                      (random_id env) in
                  Returned (change_state env SET (change_route route node))
            end
        end
    end.

(** [onMap] (lines 356-359). *)
Definition onMap (msg : HADMapBin) (node : Node) : Node :=
  mkNode (map_frame_ node) (state_ node) (odometry_ node) (Some msg)
    (arrival_checker_ node) (published node).

(** [on_modified_goal] (lines 362-366). *)
Definition on_modified_goal (msg : PoseWithUuidStamped) (node : Node) : Node :=
  mkNode (map_frame_ node) (state_ node) (odometry_ node) (map_ptr_ node)
    (modify_goal msg (arrival_checker_ node)) (published node).

(** The node after the constructor (lines 69-102). *)
Definition constructed (env : Environment) (map_frame : string)
    (checker : Checker) : Node :=
  change_state env UNSET
    (mkNode map_frame (mkRouteState 0 0) None None checker []).

(** The callbacks of the node, and the node after one of them; a request
    that throws leaves the node as it was. *)
Inductive Event : Type :=
| Odometry_received (msg : Odometry)
| Map_received (msg : HADMapBin)
| Modified_goal (msg : PoseWithUuidStamped)
| Clear_route
| Set_route (req : SetRouteRequest)
| Set_route_points (req : SetRoutePointsRequest).

Definition after {A : Type} (r : result A) (otherwise : A) : A :=
  match r with
  | Returned a => a
  | Thrown _ => otherwise
  end.

Definition handle (env : Environment) (event : Event) (node : Node) : Node :=
  match event with
  | Odometry_received msg => on_odometry env msg node
  | Map_received msg => onMap msg node
  | Modified_goal msg => on_modified_goal msg node
  | Clear_route => on_clear_route env node
  | Set_route req => after (on_set_route env req node) node
  | Set_route_points req => after (on_set_route_points env req node) node
  end.

Definition run (events : list (Environment * Event)) (node : Node) : Node :=
  foldl (λ node step, handle (fst step) (snd step) node) node events.

(** *** [checkRerouteSafety] (lines 253-354) *)

(** The lanelet map made from the map message, and the lanelet2 queries. *)
Variable Lanelet : Type.
Variable laneletLayer_get : HADMapBin → Z → option Lanelet.
Variable getClosestLanelet : list Lanelet → Pose → option Lanelet.
Variable arc_length : Lanelet → Pose → Q.
Variable getLaneletLength2d : Lanelet → Q.

(** The lambda of lines 263-277: [is_same] is assigned in every iteration
    of the loop over the original primitives. *)
Definition hasSamePrimitives
    (original_primitives target_primitives : list LaneletPrimitive) : bool :=
  if negb (length original_primitives =? length target_primitives) then false
  else
    foldl (λ (_ : bool) primitive,
             existsb (λ p, (id p =? id primitive)%Z) target_primitives)
      false original_primitives.

(** The loop of lines 280-287 from position [i] on: the first matching
    position, or the size of the route. *)
Fixpoint find_start_idx (original_segments : list LaneletSegment)
    (target_front_primitives : list LaneletPrimitive) (i : nat) : nat :=
  match original_segments with
  | [] => i
  | segment :: rest =>
      if hasSamePrimitives (primitives segment) target_front_primitives
      then i
      else find_start_idx rest target_front_primitives (S i)
  end.

(** [segments.at(i)]. *)
Definition segment_at (route_segments : list LaneletSegment) (i : nat)
    : result LaneletSegment :=
  match route_segments !! i with
  | Some segment => Returned segment
  | None => Thrown out_of_range
  end.

(** The loop of lines 290-303, [n] iterations left, the next one at [i]:
    the value of [end_idx]. *)
Fixpoint find_end_idx (original_segments target_segments : list LaneletSegment)
    (start_idx n i : nat) : result nat :=
  match n with
  | O => Returned start_idx
  | S n' =>
      let original_route_idx := start_idx + i in
      if length original_segments - 1 <? original_route_idx
      then Returned start_idx
      else
        match segment_at original_segments original_route_idx,
              segment_at target_segments i with
        | Returned original, Returned target =>
            if negb (hasSamePrimitives (primitives original)
                       (primitives target))
            then Returned (original_route_idx + 1)
            else find_end_idx original_segments target_segments start_idx
                   n' (S i)
        | Thrown e, _ => Thrown e
        | _, Thrown e => Thrown e
        end
  end.

(** [laneletLayer.get] for each primitive, in order. *)
Fixpoint get_lanelets (map_msg : HADMapBin) (l : list LaneletPrimitive)
    : result (list Lanelet) :=
  match l with
  | [] => Returned []
  | primitive :: rest =>
      match laneletLayer_get map_msg (id primitive) with
      | None => Thrown NoSuchPrimitiveError
      | Some lanelet =>
          match get_lanelets map_msg rest with
          | Thrown e => Thrown e
          | Returned lanelets => Returned (lanelet :: lanelets)
          end
      end
  end.

(** [*std::min_element] of a vector that is not empty. *)
Definition min_element (l : list Q) : Q :=
  match l with
  | [] => 0%Q
  | x :: rest => foldl Qmin x rest
  end.

(** The loop of lines 333-345, [n] iterations left, the next one at [i].
    [lanelets_length] is made with [primitives.size()] zeros and the lengths
    are pushed behind them. *)
Fixpoint accumulate_length (map_msg : HADMapBin)
    (original_segments : list LaneletSegment) (n i : nat)
    (accumulated_length : Q) : result Q :=
  match n with
  | O => Returned accumulated_length
  | S n' =>
      match segment_at original_segments i with
      | Thrown e => Thrown e
      | Returned segment =>
          match primitives segment with
          | [] => Returned accumulated_length
          | _ :: _ =>
              match get_lanelets map_msg (primitives segment) with
              | Thrown e => Thrown e
              | Returned lanelets =>
                  let lanelets_length :=
                    replicate (length (primitives segment)) 0%Q
                    ++ map getLaneletLength2d lanelets in
                  accumulate_length map_msg original_segments n' (S i)
                    (accumulated_length + min_element lanelets_length)%Q
              end
          end
      end
  end.

Definition checkRerouteSafety (node : Node)
    (original_route target_route : LaneletRoute) : result bool :=
  match segments original_route, segments target_route,
        map_ptr_ node, odometry_ node with
  | _ :: _, target_front :: _, Some map_msg, Some odometry =>
      let target_front_primitives := primitives target_front in
      let start_idx :=
        find_start_idx (segments original_route) target_front_primitives 0 in
      match find_end_idx (segments original_route) (segments target_route)
              start_idx (length (segments target_route) - 1) 1 with
      | Thrown e => Thrown e
      | Returned end_idx =>
          let current_pose := start_pose target_route in
          match segment_at (segments original_route) start_idx with
          | Thrown e => Thrown e
          | Returned start_segment =>
              match get_lanelets map_msg (primitives start_segment) with
              | Thrown e => Thrown e
              | Returned start_lanelets =>
                  match getClosestLanelet start_lanelets current_pose with
                  | None => Returned false
                  | Some closest_lanelet =>
                      let dist_to_current_pose :=
                        arc_length closest_lanelet current_pose in
                      let lanelet_length :=
                        getLaneletLength2d closest_lanelet in
                      let accumulated_length :=
                        (lanelet_length - dist_to_current_pose)%Q in
                      match accumulate_length map_msg (segments original_route)
                              (end_idx - (start_idx + 1)) (start_idx + 1)
                              accumulated_length with
                      | Thrown e => Thrown e
                      | Returned accumulated_length =>
                          let current_velocity := odom_linear_x odometry in
                          Returned
                            (negb (Qle_bool accumulated_length
                                     (current_velocity * 10)))
                      end
                  end
              end
          end
      end
  | _, _, _, _ => Returned false
  end.
End Callbacks.

Arguments mkNode {Checker HADMapBin}.
Arguments map_frame_ {Checker HADMapBin}.
Arguments state_ {Checker HADMapBin}.
Arguments odometry_ {Checker HADMapBin}.
Arguments map_ptr_ {Checker HADMapBin}.
Arguments arrival_checker_ {Checker HADMapBin}.
Arguments published {Checker HADMapBin}.
Arguments Odometry_received {HADMapBin}.
Arguments Map_received {HADMapBin}.
Arguments Modified_goal {HADMapBin}.
Arguments Clear_route {HADMapBin}.
Arguments Set_route {HADMapBin}.
Arguments Set_route_points {HADMapBin}.
Arguments transform_pose {Checker HADMapBin}.
Arguments transform_waypoints {Checker HADMapBin}.
Arguments change_state {Checker HADMapBin}.
Arguments change_route_none {Checker} set_goal_none {HADMapBin}.
Arguments change_route {Checker} set_goal {HADMapBin}.
Arguments constructed UNSET {Checker HADMapBin}.
Arguments onMap {Checker HADMapBin}.
Arguments on_modified_goal {Checker} modify_goal {HADMapBin}.
Arguments on_odometry SET ARRIVED {Checker} is_arrived {HADMapBin}.
Arguments on_clear_route UNSET {Checker} set_goal_none {HADMapBin}.
Arguments on_set_route UNSET SET {Checker} set_goal {HADMapBin}.
Arguments on_set_route_points UNSET SET {Checker} set_goal {HADMapBin}.
Arguments handle UNSET SET ARRIVED {Checker} is_arrived set_goal_none set_goal
  modify_goal {HADMapBin}.
Arguments run UNSET SET ARRIVED {Checker} is_arrived set_goal_none set_goal
  modify_goal {HADMapBin}.
Arguments get_lanelets {HADMapBin Lanelet}.
Arguments accumulate_length {HADMapBin Lanelet}.
Arguments checkRerouteSafety {Checker HADMapBin Lanelet}.

(** An example: 1, 2 and 3 for UNSET, SET and ARRIVED; an arrival checker
    that keeps the goal and answers yes at the goal's position; a tf buffer
    that knows every frame but [unknown]; a planner that answers one
    segment, or none for fewer than two points. *)
Definition example_checker : Type := option PoseWithUuidStamped.

Definition example_is_arrived (checker : example_checker) (pose : PoseStamped)
    : bool :=
  match checker with
  | Some goal =>
      Qeq_bool (fst (fst (position (goal_pose_of goal))))
        (fst (fst (position (ps_pose pose))))
  | None => false
  end.

Definition example_set_goal (goal : PoseWithUuidStamped)
    (checker : example_checker) : example_checker :=
  Some goal.

Definition example_pose (x : Q) : Pose :=
  mkPose (x, 0%Q, 0%Q) (0%Q, 0%Q, 0%Q, 1%Q).

Definition example_odometry (x velocity : Q) : Odometry :=
  mkOdometry (mkHeader 0 "map") (example_pose x) velocity.

Definition example_transform (target : string) (input : PoseStamped)
    : option PoseStamped :=
  if decide (frame_id (ps_header input) = "unknown") then None
  else Some (mkPoseStamped (mkHeader (stamp (ps_header input)) target)
               (ps_pose input)).

Definition example_plan (points : list Pose) : LaneletRoute :=
  match points with
  | start :: _ :: _ =>
      mkRoute (mkHeader 0 EmptyString) start (List.last points start)
        [mkSegment (mkPrimitive 1 "lane") [mkPrimitive 1 "lane"]] []
  | _ => mkRoute (mkHeader 0 EmptyString) (example_pose 0) (example_pose 0) [] []
  end.

Definition example_env (clock : Z) : Environment :=
  mkEnvironment clock example_transform true example_plan [7; 7; 7; 7]%Z.

Definition example_handle
    : Environment → Event unit → Node example_checker unit
      → Node example_checker unit :=
  handle 1 2 3 example_is_arrived (λ _, None) example_set_goal
    example_set_goal.

(** The node after the constructor and a first odometry message. *)
Definition example_started : Node example_checker unit :=
  example_handle (example_env 1) (Odometry_received (example_odometry 0 2))
    (constructed 1 (example_env 0) "map" None).

Definition example_request : SetRouteRequest :=
  mkSetRoute (mkHeader 5 "base_link") (example_pose 40)
    [mkSegment (mkPrimitive 10 "lane")
       [mkPrimitive 11 "lane"; mkPrimitive 12 "lane"];
     mkSegment (mkPrimitive 20 "lane") []].

(** The same node after a route to x = 40 is set, and after the vehicle
    has arrived there. *)
Definition example_driving : Node example_checker unit :=
  example_handle (example_env 2) (Set_route example_request) example_started.

Definition example_arrived : Node example_checker unit :=
  example_handle (example_env 3) (Odometry_received (example_odometry 40 0))
    example_driving.

(** Callbacks without [clear_route]. *)
Definition example_events : list (Environment * Event unit) :=
  [(example_env 4, Odometry_received (example_odometry 41 1));
   (example_env 5, Set_route example_request);
   (example_env 6, Map_received ());
   (example_env 7,
    Set_route_points (mkSetRoutePoints (mkHeader 7 "map") (example_pose 50) []));
   (example_env 8,
    Modified_goal (mkGoal (mkHeader 8 "map") (example_pose 41) []));
   (example_env 9, Odometry_received (example_odometry 41 0))].

(** An example map: every positive id is a lanelet of length 50, the
    closest lanelet is the first one, and the arc length of a pose is its x
    coordinate. *)
Definition example_lanelet_get (map_msg : unit) (lanelet_id : Z) : option Z :=
  if (0 <? lanelet_id)%Z then Some lanelet_id else None.

Definition example_closest (lanelets : list Z) (pose : Pose) : option Z :=
  head lanelets.

Definition example_arc_length (lanelet : Z) (pose : Pose) : Q :=
  fst (fst (position pose)).

Definition example_lanelet_length (lanelet : Z) : Q := 50.

(** A route from the ids of the primitives of its segments. *)
Definition example_route (start : Pose) (ids : list (list Z)) : LaneletRoute :=
  mkRoute (mkHeader 0 "map") start start
    (map (λ l, mkSegment (mkPrimitive (hd 0%Z l) "lane")
                 (map (λ i, mkPrimitive i "lane") l)) ids)
    [].

(** The example node after the map has come in. *)
Definition example_mapped : Node example_checker unit :=
  example_handle (example_env 2) (Map_received ()) example_started.
End Planner.

(** * Properties *)

(** ** Comparisons on floats *)

Lemma Qltb_lt (a b : Q) : Qltb a b = true ↔ (a < b)%Q.
Proof.
  unfold Qltb. rewrite negb_true_iff. split.
  - intros H. apply Qnot_le_lt. intros Hle.
    apply Qle_bool_iff in Hle. congruence.
  - intros H. destruct (Qle_bool b a) eqn:E; [|done].
    apply Qle_bool_iff in E. exfalso. by apply (Qlt_not_le a b).
Qed.

Lemma Qltb_ge (a b : Q) : Qltb a b = false ↔ (b <= a)%Q.
Proof.
  unfold Qltb. rewrite negb_false_iff. apply Qle_bool_iff.
Qed.

(** ** Rounding to binary32 *)

Lemma round_half_even_le (q : Q) (k : Z) :
  (q <= inject_Z k)%Q → (round_half_even q <= k)%Z.
Proof.
  intros Hq. unfold round_half_even.
  assert (Qfloor q <= k)%Z as Hfloor.
  { rewrite <- (Qfloor_Z k). by apply Qfloor_resp_le. }
  destruct (Qcompare_spec (q - inject_Z (Qfloor q)) (1 # 2)) as [Heq|Hlt|Hgt];
    [destruct (Z.even _)| |]; try lia.
  - destruct (Z.eq_dec (Qfloor q) k) as [Hk|Hk]; [|lia].
    rewrite Hk in Heq. lra.
  - destruct (Z.eq_dec (Qfloor q) k) as [Hk|Hk]; [|lia].
    rewrite Hk in Hgt. lra.
Qed.

Lemma round_half_even_ge (q : Q) (k : Z) :
  (inject_Z k <= q)%Q → (k <= round_half_even q)%Z.
Proof.
  intros Hq. unfold round_half_even.
  assert (k <= Qfloor q)%Z as Hfloor.
  { rewrite <- (Qfloor_Z k). by apply Qfloor_resp_le. }
  destruct (_ ?= _)%Q; [destruct (Z.even _)| |]; lia.
Qed.

Lemma Qpow2_pos (e : Z) : (0 < Qpow2 e)%Q.
Proof.
  unfold Qpow2. destruct (0 <=? e)%Z eqn:He.
  - unfold Qlt. simpl. lia.
  - assert (0 < 2 ^ (- e))%Z as Hpos by (apply Z.pow_pos_nonneg; lia).
    apply Qlt_shift_div_l; [unfold Qlt; simpl; lia|]. lra.
Qed.

(** Below [2^0] the power is the inverse of an integer. *)
Lemma Qpow2_inverse (e : Z) :
  (e <= 0)%Z → (Qpow2 e * inject_Z (2 ^ (- e)) == 1)%Q.
Proof.
  intros He. unfold Qpow2. destruct (0 <=? e)%Z eqn:Hsign.
  - assert (e = 0)%Z as -> by lia. reflexivity.
  - assert (0 < 2 ^ (- e))%Z as Hpos by (apply Z.pow_pos_nonneg; lia).
    field. intros Hzero. unfold Qeq in Hzero. simpl in Hzero. lia.
Qed.

Lemma Zpow2_pos (e : Z) : (0 <= e)%Z → (0 < 2 ^ e)%Z.
Proof. intros He. by apply Z.pow_pos_nonneg. Qed.

(** [2^(x - y)] is the quotient of [2^x] by [2^y]. *)
Lemma Qpow2_quotient (x y : Z) :
  (0 <= x)%Z → (0 <= y)%Z →
  (Qpow2 (x - y) * inject_Z (2 ^ y) == inject_Z (2 ^ x))%Q.
Proof.
  intros Hx Hy. unfold Qpow2.
  destruct (Z.leb_spec 0 (x - y)) as [Hsign|Hsign].
  - rewrite <- inject_Z_mult, <- Z.pow_add_r by lia.
    by replace (x - y + y)%Z with x by lia.
  - pose proof (Zpow2_pos (- (x - y)) ltac:(lia)) as Hpos.
    assert (inject_Z (2 ^ y) == inject_Z (2 ^ x) * inject_Z (2 ^ (- (x - y))))%Q
      as ->.
    { rewrite <- inject_Z_mult, <- Z.pow_add_r by lia.
      by replace (x + - (x - y))%Z with y by lia. }
    field. intros Hzero. unfold Qeq in Hzero. simpl in Hzero. lia.
Qed.

(** [binade] is the exponent of the binade. *)
Lemma binade_spec (q : Q) :
  (0 < q)%Q → (Qpow2 (binade q) <= q)%Q ∧ (q < Qpow2 (binade q + 1))%Q.
Proof.
  intros Hpos. unfold binade.
  set (ln := Z.log2 (Qnum q)). set (ld := Z.log2 (Z.pos (Qden q))).
  assert (0 < Qnum q)%Z as Hnum.
  { unfold Qlt in Hpos. simpl in Hpos. lia. }
  destruct (Z.log2_spec (Qnum q) Hnum) as [Hn0 Hn1].
  destruct (Z.log2_spec (Z.pos (Qden q)) (Pos2Z.is_pos _)) as [Hd0 Hd1].
  fold ln in Hn0, Hn1. fold ld in Hd0, Hd1.
  assert (0 <= ln)%Z as Hln by apply Z.log2_nonneg.
  assert (0 <= ld)%Z as Hld by apply Z.log2_nonneg.
  pose proof (Zpow2_pos ln Hln) as Hpn.
  pose proof (Zpow2_pos ld Hld) as Hpd.
  assert (0 < inject_Z (2 ^ ld))%Q as Hqd by (unfold Qlt; simpl; lia).
  assert (0 < inject_Z (2 ^ (ld + 1)))%Q as Hqd1.
  { unfold Qlt. simpl. pose proof (Zpow2_pos (ld + 1)). lia. }
  rewrite <- Z.add_1_r in Hn1, Hd1.
  assert (q * inject_Z (2 ^ ld) < inject_Z (2 ^ (ln + 1)))%Q as Hupper.
  { assert (Qnum q * 2 ^ ld < 2 ^ (ln + 1) * Z.pos (Qden q))%Z as Hz.
    { clear Hqd Hqd1. revert Hn1 Hd0 Hpd.
      generalize (2 ^ (ln + 1))%Z (2 ^ ld)%Z. intros. nia. }
    unfold Qlt, Qmult. cbn [Qnum Qden inject_Z].
    by rewrite Pos.mul_1_r, !Z.mul_1_r. }
  assert (inject_Z (2 ^ ln) < q * inject_Z (2 ^ (ld + 1)))%Q as Hlower.
  { assert (2 ^ ln * Z.pos (Qden q) < Qnum q * 2 ^ (ld + 1))%Z as Hz.
    { clear Hqd Hqd1. revert Hn0 Hd1 Hpn.
      generalize (2 ^ ln)%Z (2 ^ (ld + 1))%Z. intros. nia. }
    unfold Qlt, Qmult. cbn [Qnum Qden inject_Z].
    by rewrite Pos.mul_1_r, !Z.mul_1_r. }
  destruct (Qle_bool (Qpow2 (ln - ld)) q) eqn:Htest.
  - apply Qle_bool_iff in Htest. split; [done|].
    replace (ln - ld + 1)%Z with ((ln + 1) - ld)%Z by lia.
    pose proof (Qpow2_quotient (ln + 1) ld ltac:(lia) Hld) as Hquot.
    apply (Qmult_lt_r _ _ (inject_Z (2 ^ ld))); [done|].
    by rewrite Hquot.
  - assert (q < Qpow2 (ln - ld))%Q as Hbelow.
    { apply Qnot_le_lt. intros Hle. apply Qle_bool_iff in Hle. congruence. }
    split.
    + replace (ln - ld - 1)%Z with (ln - (ld + 1))%Z by lia.
      pose proof (Qpow2_quotient ln (ld + 1) Hln ltac:(lia)) as Hquot.
      apply Qlt_le_weak.
      apply (Qmult_lt_r _ _ (inject_Z (2 ^ (ld + 1)))); [done|].
      by rewrite Hquot.
    + by replace (ln - ld - 1 + 1)%Z with (ln - ld)%Z by lia.
Qed.

(** The nearest integer is at most one half away. *)
Lemma round_half_even_nearest (q : Q) :
  (- (1 # 2) <= inject_Z (round_half_even q) - q)%Q
  ∧ (inject_Z (round_half_even q) - q <= 1 # 2)%Q.
Proof.
  unfold round_half_even.
  pose proof (Qfloor_le q) as Hfloor.
  pose proof (Qlt_floor q) as Hceil.
  rewrite inject_Z_plus in Hceil. change (inject_Z 1) with 1%Q in Hceil.
  destruct (Qcompare_spec (q - inject_Z (Qfloor q)) (1 # 2)) as [Heq|Hlt|Hgt].
  - destruct (Z.even _);
      [|rewrite inject_Z_plus; change (inject_Z 1) with 1%Q]; lra.
  - lra.
  - rewrite inject_Z_plus. change (inject_Z 1) with 1%Q. lra.
Qed.

(** The rounding of a positive rational is a multiple of the unit in the
    last place of its binade and lies at most half a unit away. *)
Lemma binary32_nearest (q : Q) :
  (0 < q)%Q →
  (∃ k, binary32 q = (inject_Z k * ulp32 q)%Q)
  ∧ (- (ulp32 q / 2) <= binary32 q - q)%Q
  ∧ (binary32 q - q <= ulp32 q / 2)%Q.
Proof.
  intros Hpos. unfold binary32.
  destruct (Qcompare_spec q 0) as [Hzero|Hneg|_]; [lra|lra|].
  split; [by eexists|].
  pose proof (Qpow2_pos (Z.max (binade q) (-126) - 23)) as Hulp.
  fold (ulp32 q) in Hulp.
  destruct (round_half_even_nearest (q / ulp32 q)) as [Hlow Hhigh].
  set (k := inject_Z (round_half_even (q / ulp32 q))) in *.
  set (u := ulp32 q) in *.
  assert ((k - q / u) * u == k * u - q)%Q as Heq.
  { field. intros Hzero. rewrite Hzero in Hulp. by apply Qlt_irrefl in Hulp. }
  assert (- (u / 2) == - (1 # 2) * u)%Q as Hneg by field.
  assert (u / 2 == (1 # 2) * u)%Q as Hhalf by field.
  assert (0 <= u)%Q as Hu by (by apply Qlt_le_weak).
  split.
  - rewrite <- Heq, Hneg. by apply Qmult_le_compat_r.
  - rewrite <- Heq, Hhalf. by apply Qmult_le_compat_r.
Qed.

(** A positive rational below [2^k] lies in a binade below [k]. *)
Lemma binade_below (q : Q) (k : Z) :
  (0 <= k)%Z → (0 < q)%Q → (q < inject_Z (2 ^ k))%Q → (binade q <= k - 1)%Z.
Proof.
  intros Hk Hpos Hq. unfold binade.
  set (a := (Z.log2 (Qnum q) - Z.log2 (Z.pos (Qden q)))%Z).
  assert (a <= k)%Z as Ha.
  { assert (Z.log2 (Qnum q) <= Z.log2 (Z.pos (Qden q) * 2 ^ k))%Z as Hlog.
    { apply Z.log2_le_mono. unfold Qlt in Hq. simpl in Hq.
      rewrite Z.mul_1_r, Z.mul_comm in Hq. by apply Z.lt_le_incl. }
    rewrite Z.log2_mul_pow2 in Hlog; [|apply Pos2Z.is_pos|done].
    unfold a. clear Hq. lia. }
  destruct (Qle_bool (Qpow2 a) q) eqn:Htest; [|clear Hq; lia].
  apply Qle_bool_iff in Htest.
  destruct (Z.eq_dec a k) as [Heq|Hne]; [|clear Hq; lia].
  exfalso. rewrite Heq in Htest. unfold Qpow2 in Htest.
  destruct (0 <=? k)%Z eqn:Hsign; [|lia].
  apply (Qlt_irrefl q). by eapply Qlt_le_trans.
Qed.

(** The rounding of a positive rational does not pass a multiple of its
    unit in the last place, and keeps such a multiple as it is. *)
Lemma binary32_le_multiple (q : Q) (k : Z) :
  (0 < q)%Q → (q <= inject_Z k * ulp32 q)%Q →
  (binary32 q <= inject_Z k * ulp32 q)%Q.
Proof.
  intros Hpos Hq. unfold binary32.
  destruct (Qcompare_spec q 0) as [Hzero|Hneg|_]; [lra|lra|].
  pose proof (Qpow2_pos (Z.max (binade q) (-126) - 23)) as Hulp.
  fold (ulp32 q) in Hulp.
  apply Qmult_le_compat_r; [|lra].
  rewrite <- Zle_Qle. apply round_half_even_le.
  apply Qle_shift_div_r; [done|]. lra.
Qed.

Lemma binary32_ge_multiple (q : Q) (k : Z) :
  (0 < q)%Q → (inject_Z k * ulp32 q <= q)%Q →
  (inject_Z k * ulp32 q <= binary32 q)%Q.
Proof.
  intros Hpos Hq. unfold binary32.
  destruct (Qcompare_spec q 0) as [Hzero|Hneg|_]; [lra|lra|].
  pose proof (Qpow2_pos (Z.max (binade q) (-126) - 23)) as Hulp.
  fold (ulp32 q) in Hulp.
  apply Qmult_le_compat_r; [|lra].
  rewrite <- Zle_Qle. apply round_half_even_ge.
  apply Qle_shift_div_l; [done|]. lra.
Qed.

(** Every multiple of [2^(n-24)] is a multiple of the unit in the last
    place of a positive rational below [2^n]: such a rational has at most 24
    significant bits above [2^(n-24)]. *)
Lemma multiple_of_ulp32 (q : Q) (n m : Z) :
  (0 <= n <= 24)%Z → (0 < q)%Q → (q < inject_Z (2 ^ n))%Q →
  ∃ k, (inject_Z k * ulp32 q == inject_Z m * Qpow2 (n - 24))%Q.
Proof.
  intros Hn Hpos Hq.
  assert (0 <= n)%Z as Hn0 by lia.
  pose proof (binade_below q n Hn0 Hpos Hq) as Hbinade.
  unfold ulp32.
  set (e := (Z.max (binade q) (-126) - 23)%Z).
  set (t := (n - 24)%Z).
  assert (e <= t)%Z as He by lia.
  assert (t <= 0)%Z as Ht by lia.
  exists (m * 2 ^ (t - e))%Z.
  assert (e <= 0)%Z as He0 by lia.
  pose proof (Qpow2_inverse e He0) as Hinverse.
  pose proof (Qpow2_inverse t Ht) as Hunit.
  assert (2 ^ (- e) = 2 ^ (t - e) * 2 ^ (- t))%Z as Hsplit.
  { rewrite <- Z.pow_add_r by lia. f_equal. lia. }
  rewrite Hsplit, inject_Z_mult in Hinverse.
  rewrite inject_Z_mult.
  set (A := inject_Z (2 ^ (t - e))) in *.
  set (B := inject_Z (2 ^ (- t))) in *.
  set (u := Qpow2 e) in *.
  set (T := Qpow2 t) in *.
  transitivity (inject_Z m * A * u * (T * B))%Q.
  - rewrite Hunit. ring.
  - transitivity (inject_Z m * T * (u * (A * B)))%Q; [ring|].
    rewrite Hinverse. ring.
Qed.

Lemma binary32_zero (q : Q) : (q == 0)%Q → binary32 q = 0%Q.
Proof.
  intros Hq. unfold binary32.
  destruct (Qcompare_spec q 0) as [_|Hneg|Hpos]; [done|lra|lra].
Qed.

Lemma binary32_negative (q : Q) :
  (q < 0)%Q → binary32 q = (- binary32 (- q))%Q.
Proof.
  intros Hq. unfold binary32.
  destruct (Qcompare_spec q 0) as [Hzero|_|Hpos]; [lra| |lra].
  destruct (Qcompare_spec (- q) 0) as [Hzero|Hneg|_]; [lra|lra|done].
Qed.

(** Rounding keeps a rational between 0 and a binary32 value [b] below
    [2^n] there. *)
Lemma binary32_between (q b : Q) (n m : Z) :
  (0 <= n <= 24)%Z → (b == inject_Z m * Qpow2 (n - 24))%Q →
  (b < inject_Z (2 ^ n))%Q →
  (0 <= q)%Q → (q <= b)%Q →
  (0 <= binary32 q)%Q ∧ (binary32 q <= b)%Q.
Proof.
  intros Hn Hb Hbelow Hq0 Hqb.
  destruct (Qlt_le_dec 0 q) as [Hpos|Hzero].
  - assert (q < inject_Z (2 ^ n))%Q as Hqn by (by eapply Qle_lt_trans).
    destruct (multiple_of_ulp32 q n m Hn Hpos Hqn) as [k Hk].
    clear Hbelow Hqn. split.
    + apply (Qle_trans _ (inject_Z 0 * ulp32 q));
        [change (inject_Z 0) with 0%Q; lra|].
      apply binary32_ge_multiple; [done|].
      change (inject_Z 0) with 0%Q. lra.
    + rewrite Hb, <- Hk. apply binary32_le_multiple; [done|]. lra.
  - clear Hbelow. rewrite binary32_zero by lra. lra.
Qed.

(** A binary32 value below [2^n] in magnitude is its own rounding. *)
Lemma binary32_exact (q : Q) (n m : Z) :
  (0 <= n <= 24)%Z → (q == inject_Z m * Qpow2 (n - 24))%Q →
  (- inject_Z (2 ^ n) < q)%Q → (q < inject_Z (2 ^ n))%Q →
  (binary32 q == q)%Q.
Proof.
  assert (∀ q m, (0 <= n <= 24)%Z → (q == inject_Z m * Qpow2 (n - 24))%Q →
                 (0 < q)%Q → (q < inject_Z (2 ^ n))%Q →
                 (binary32 q == q)%Q) as Hpositive.
  { intros p j Hn Hp Hpos Hbelow.
    destruct (multiple_of_ulp32 p n j Hn Hpos Hbelow) as [k Hk].
    apply Qle_antisym.
    - apply (Qle_trans _ (inject_Z k * ulp32 p)); [|lra].
      apply binary32_le_multiple; [done|]. lra.
    - apply (Qle_trans _ (inject_Z k * ulp32 p)); [lra|].
      apply binary32_ge_multiple; [done|]. lra. }
  intros Hn Hq Hlow Hhigh.
  destruct (Qcompare_spec q 0) as [Hzero|Hneg|Hpos].
  - rewrite binary32_zero by done. lra.
  - rewrite binary32_negative by done.
    rewrite (Hpositive (- q)%Q (- m)%Z); [ring|done| |lra|lra].
    rewrite inject_Z_opp, Hq. ring.
  - by apply (Hpositive q m).
Qed.

(** On every pair of the sample bit patterns the rounding of the exact
    sum and of the exact difference is the result of the bit-level
    operations of [SpecFloat]. *)
Lemma binary32_agrees_on_samples :
  forallb (λ x, forallb (binary32_agrees x) binary32_samples)
    binary32_samples = true.
Proof. by vm_compute. Qed.

(** ** Azimuth difference *)

Lemma binary32_to_36000 (q : Q) :
  (0 <= q)%Q → (q <= 36000)%Q →
  (0 <= binary32 q)%Q ∧ (binary32 q <= 36000)%Q.
Proof.
  intros H0 H1.
  apply (binary32_between q 36000 16 9216000); [lia| | |done|done];
    by vm_compute.
Qed.

(** On whole centidegrees the binary32 arithmetic of lines 147-148 is
    exact. *)
Lemma azimuth_diff_whole (current next : Z) :
  (0 <= current < 36000)%Z → (0 <= next < 36000)%Z →
  (azimuth_diff (inject_Z current) (inject_Z next)
   == inject_Z (if (next - current <? 0)%Z then next - current + 36000
                else next - current))%Q.
Proof.
  intros Hcurrent Hnext. unfold azimuth_diff.
  assert (inject_Z next - inject_Z current == inject_Z (next - current))%Q
    as Hexact.
  { unfold Zminus. rewrite inject_Z_plus, inject_Z_opp. ring. }
  assert (binary32 (inject_Z next - inject_Z current)
          == inject_Z (next - current))%Q as Hdiff.
  { rewrite <- Hexact at 1.
    apply (binary32_exact _ 24 (next - current)); [lia| | |].
    - rewrite Hexact. change (Qpow2 (24 - 24)) with 1%Q. ring.
    - rewrite Hexact. change (- inject_Z (2 ^ 24))%Q with (inject_Z (- 16777216)).
      rewrite <- Zlt_Qlt. lia.
    - rewrite Hexact. change (2 ^ 24)%Z with 16777216%Z.
      rewrite <- Zlt_Qlt. lia. }
  destruct (Z.ltb_spec (next - current) 0) as [Hneg|Hpos].
  - assert (Qltb (binary32 (inject_Z next - inject_Z current)) 0 = true)
      as ->.
    { apply Qltb_lt. rewrite Hdiff. change 0%Q with (inject_Z 0).
      by rewrite <- Zlt_Qlt. }
    assert (binary32 (inject_Z next - inject_Z current) + 36000
            == inject_Z (next - current + 36000))%Q as Hsum.
    { rewrite Hdiff, inject_Z_plus. reflexivity. }
    rewrite <- Hsum at 1.
    apply (binary32_exact _ 24 (next - current + 36000)); [lia| | |].
    + rewrite Hsum. change (Qpow2 (24 - 24)) with 1%Q. ring.
    + rewrite Hsum. change (- inject_Z (2 ^ 24))%Q with (inject_Z (- 16777216)).
      rewrite <- Zlt_Qlt. lia.
    + rewrite Hsum. change (2 ^ 24)%Z with 16777216%Z.
      rewrite <- Zlt_Qlt. lia.
  - assert (Qltb (binary32 (inject_Z next - inject_Z current)) 0 = false)
      as ->; [|done].
    apply Qltb_ge. rewrite Hdiff. change 0%Q with (inject_Z 0).
    by rewrite <- Zle_Qle.
Qed.

(** C9, as amended: for raw azimuths in [0, 36000) the binary32 difference
    next - current, plus 36000 when negative, lies in [0, 36000], the upper
    end included; it lies in [0, 36000) when both azimuths are whole
    centidegrees; from 35950 to 50 it is 100. *)
Theorem C9_azimuth_diff_range (current_azimuth next_azimuth : Q) :
  (0 <= current_azimuth)%Q → (current_azimuth < 36000)%Q →
  (0 <= next_azimuth)%Q → (next_azimuth < 36000)%Q →
  (0 <= azimuth_diff current_azimuth next_azimuth)%Q
  ∧ (azimuth_diff current_azimuth next_azimuth <= 36000)%Q
  ∧ ((∃ current next : Z,
        current_azimuth = inject_Z current ∧ next_azimuth = inject_Z next) →
     (azimuth_diff current_azimuth next_azimuth < 36000)%Q)
  ∧ (azimuth_diff 35950 50 == 100)%Q.
Proof.
  intros Hc0 Hc1 Hn0 Hn1.
  assert ((0 <= azimuth_diff current_azimuth next_azimuth)%Q
          ∧ (azimuth_diff current_azimuth next_azimuth <= 36000)%Q)
    as [Hlow Hhigh].
  { unfold azimuth_diff.
    set (x := (next_azimuth - current_azimuth)%Q).
    assert (-36000 <= x)%Q as Hx0 by (unfold x; lra).
    assert (x <= 36000)%Q as Hx1 by (unfold x; lra).
    assert (-36000 <= binary32 x ∧ binary32 x <= 36000)%Q as [Hd0 Hd1].
    { destruct (Qlt_le_dec x 0) as [Hneg|Hpos].
      - rewrite binary32_negative by done.
        destruct (binary32_to_36000 (- x)) as [H0 H1]; lra.
      - destruct (binary32_to_36000 x) as [H0 H1]; lra. }
    destruct (Qltb (binary32 x) 0) eqn:Hsign.
    - apply Qltb_lt in Hsign. apply binary32_to_36000; lra.
    - apply Qltb_ge in Hsign. lra. }
  split_and!; [done|done| |by vm_compute].
  intros (current & next & -> & ->).
  change 0%Q with (inject_Z 0) in Hc0, Hn0.
  rewrite <- Zle_Qle in Hc0, Hn0.
  change 36000%Q with (inject_Z 36000) in Hc1, Hn1.
  rewrite <- Zlt_Qlt in Hc1, Hn1.
  rewrite azimuth_diff_whole by lia.
  change 36000%Q with (inject_Z 36000). rewrite <- Zlt_Qlt.
  destruct (next - current <? 0)%Z eqn:Hsign; lia.
Qed.

Lemma C9_azimuth_diff_range_witness :
  (0 <= azimuth_diff 35950 50)%Q
  ∧ (azimuth_diff 35950 50 <= 36000)%Q
  ∧ ((∃ current next : Z,
        35950%Q = inject_Z current ∧ 50%Q = inject_Z next) →
     (azimuth_diff 35950 50 < 36000)%Q)
  ∧ (azimuth_diff 35950 50 == 100)%Q.
Proof.
  apply (C9_azimuth_diff_range 35950 50); by vm_compute.
Defined.

(** C9, as stated, fails: 0.001 centidegree back from the binary32 value
    nearest to 0.001 (8589935 * 2^-33) to 0 gives the difference
    -0.001 + 36000, which binary32 rounds to 36000. *)
Lemma C9_counterexample :
  let current_azimuth := (8589935 # 8589934592)%Q in
  let next_azimuth := 0%Q in
  (binary32 current_azimuth == current_azimuth)%Q
  ∧ (0 <= current_azimuth)%Q ∧ (current_azimuth < 36000)%Q
  ∧ (0 <= next_azimuth)%Q ∧ (next_azimuth < 36000)%Q
  ∧ (azimuth_diff current_azimuth next_azimuth == 36000)%Q
  ∧ ¬ (azimuth_diff current_azimuth next_azimuth < 36000)%Q
  ∧ azimuth_diff_bits (S754_finite false 8589935 (-33)) (S754_zero false)
    = S754_finite false 9216000 (-8).
Proof.
  simpl. split_and!; try by vm_compute.
Qed.

(** ** Ring Partitioner *)

Lemma length_alter_ring {A : Type} (f : list A → list A) (ring : nat)
    (ring2indices : list (list A)) :
  length (alter f ring ring2indices) = length ring2indices.
Proof. apply length_alter. Qed.

Lemma ring_partition_out_of_bounds (step : nat) (pts : list PointXYZIRADRT.t) :
  ∀ (data_idx : nat) (ring2indices : list (list nat)),
    Exists (λ p, length ring2indices ≤ PointXYZIRADRT.ring p) pts →
    ring_partition step pts data_idx ring2indices = Undefined OutOfBounds.
Proof.
  induction pts as [|p rest IH]; intros data_idx ring2indices Hex.
  - by apply Exists_nil in Hex.
  - simpl. case_decide as Hlt; [|done].
    apply IH. rewrite length_alter_ring.
    apply Exists_cons in Hex as [Hp|Hrest]; [lia|done].
Qed.

Lemma concat_ring2indices_init (max_rings_num : nat) :
  concat (ring2indices_init max_rings_num) = [].
Proof.
  unfold ring2indices_init. induction max_rings_num as [|n IH]; [done|].
  simpl. done.
Qed.

Lemma concat_alter_push {A : Type} (a : A) (ring2indices : list (list A)) :
  ∀ ring : nat,
    ring < length ring2indices →
    concat (alter (λ indices, indices ++ [a]) ring ring2indices)
    ≡ₚ concat ring2indices ++ [a].
Proof.
  unfold alter.
  induction ring2indices as [|indices rest IH]; intros ring Hlt; simpl in *.
  - lia.
  - destruct ring as [|ring]; simpl.
    + rewrite <- !app_assoc. apply Permutation_app_head, Permutation_app_comm.
    + rewrite IH by lia. by rewrite app_assoc.
Qed.

(** The offsets of the records of [pts], the first one at [data_idx]. *)
Lemma ring_partition_perm (step : nat) (pts : list PointXYZIRADRT.t) :
  ∀ (data_idx : nat) (ring2indices ring2indices' : list (list nat)),
    ring_partition step pts data_idx ring2indices = Done ring2indices' →
    concat ring2indices'
    ≡ₚ concat ring2indices
       ++ map (λ k, data_idx + k * step) (seq 0 (length pts)).
Proof.
  induction pts as [|p rest IH]; intros data_idx r2i r2i' Hdone; simpl in *.
  - inversion Hdone. by rewrite app_nil_r.
  - case_decide as Hlt; [|discriminate Hdone].
    apply IH in Hdone. rewrite Hdone, concat_alter_push by done.
    rewrite <- app_assoc. apply Permutation_app_head. simpl.
    rewrite Nat.add_0_r. constructor.
    rewrite <- seq_shift, map_map.
    apply Permutation_refl'. apply map_ext. intros k. lia.
Qed.

Lemma ring_partition_ring (step : nat) (pts : list PointXYZIRADRT.t) :
  ∀ (data_idx : nat) (ring2indices ring2indices' : list (list nat)),
    ring_partition step pts data_idx ring2indices = Done ring2indices' →
    ∀ ring indices' o,
      ring2indices' !! ring = Some indices' → o ∈ indices' →
      (∃ indices, ring2indices !! ring = Some indices ∧ o ∈ indices)
      ∨ ∃ k p, o = data_idx + k * step ∧ pts !! k = Some p
               ∧ PointXYZIRADRT.ring p = ring.
Proof.
  induction pts as [|p rest IH]; intros data_idx r2i r2i' Hdone ring indices' o
    Hlook Hin; simpl in *.
  - inversion Hdone; subst. left. eauto.
  - case_decide as Hlt; [|discriminate Hdone].
    destruct (IH _ _ _ Hdone _ _ _ Hlook Hin)
      as [(indices & Hl & Ho)|(k & q & -> & Hk & Hr)].
    + destruct (decide (PointXYZIRADRT.ring p = ring)) as [Heq|Hne].
      * subst ring. rewrite list_lookup_alter_eq in Hl.
        destruct (r2i !! PointXYZIRADRT.ring p) as [old|] eqn:Hold;
          simpl in Hl; [|discriminate Hl].
        inversion Hl; subst.
        apply elem_of_app in Ho as [Ho|Ho].
        -- left. eauto.
        -- apply list_elem_of_singleton in Ho. subst o.
           right. exists 0, p. split; [lia|]. done.
      * rewrite list_lookup_alter_ne in Hl by done. left. eauto.
    + right. exists (S k), q. split; [lia|]. done.
Qed.


Lemma input_at_offset (input : PointCloud2 PointXYZIRADRT.t) (k : nat)
    (p : PointXYZIRADRT.t) :
  0 < point_step input → data input !! k = Some p →
  input_at input (k * point_step input) = p.
Proof.
  intros Hstep Hk. unfold input_at. rewrite Nat.div_mul by lia.
  by apply list_lookup_total_correct.
Qed.

(** C8: a point whose ring id is at least the configured maximum makes the
    partitioner subscript [ring2indices] outside its bounds; no error is
    raised and the id is not clipped. *)
Theorem C8_ring_id_not_validated (sizeof_PointXYZI : nat)
    (isCluster : PointCloud2 PointXYZIRADRT.t → nat * nat → Z → bool)
    (cfg : Config) (transform_info : TransformInfo)
    (input : PointCloud2 PointXYZIRADRT.t) :
  Exists (λ p, max_rings_num_ cfg ≤ PointXYZIRADRT.ring p) (data input) →
  ring2indices_of cfg input = Undefined OutOfBounds
  ∧ faster_filter sizeof_PointXYZI isCluster cfg transform_info input
    = ([], Undefined OutOfBounds).
Proof.
  intros Hex.
  assert (ring2indices_of cfg input = Undefined OutOfBounds) as Hpart.
  { apply ring_partition_out_of_bounds.
    unfold ring2indices_init. by rewrite length_replicate. }
  split; [done|].
  unfold faster_filter, compose. by rewrite Hpart.
Qed.

Lemma C8_ring_id_not_validated_witness :
  ring2indices_of default_config frame_ring_128 = Undefined OutOfBounds
  ∧ run_filter default_config frame_ring_128 = ([], Undefined OutOfBounds).
Proof.
  apply (C8_ring_id_not_validated sizeof_four_floats
           (isCluster_model default_config) default_config no_transform
           frame_ring_128).
  apply Exists_cons_hd. vm_compute. lia.
Defined.

(** ** Output buffers *)

Lemma setUpPointCloudFormat_data_size (input : PointCloud2 PointXYZIRADRT.t)
    (formatted_points : PointCloud2 PointXYZI.t) (points_size : nat) :
  0 < point_step formatted_points →
  data_size (setUpPointCloudFormat input formatted_points points_size)
  = point_step formatted_points * width input.
Proof.
  intros Hstep. unfold setUpPointCloudFormat, data_size, data_resize. simpl.
  rewrite length_resize.
  rewrite (Nat.mul_comm (point_step formatted_points) (width input)).
  rewrite Nat.div_mul by lia. lia.
Qed.

(** C4: the buffer handed downstream has the size of the input's point
    count times the output stride, whatever byte count was written: for the
    five-point frame 64 bytes are written and 80 bytes are exposed. *)
Theorem C4_buffer_size_is_input_width :
  (∀ (input : PointCloud2 PointXYZIRADRT.t)
     (records : list PointXYZI.t) (points_size : nat),
     data_size (setUpPointCloudFormat input
                  (composed sizeof_four_floats records) points_size)
     = sizeof_four_floats * width input)
  ∧ ∃ b output,
      run_compose default_config frame_five = Done b
      ∧ output_size b = 64
      ∧ run_filter default_config frame_five = ([], Done output)
      ∧ data_size output = 80
      ∧ width output = 5.
Proof.
  split.
  - intros input records points_size.
    apply setUpPointCloudFormat_data_size. simpl. unfold sizeof_four_floats. lia.
  - eexists _, _. split_and!; [by vm_compute|done|by vm_compute|done|done].
Qed.

(** ** Walks *)

(** C1: on the five-point ring whose consecutive pairs all satisfy the
    continuity condition the only walk is [0, 3]: the fifth point is in no
    walk and is not emitted.  With the threshold at 4 the walk is kept and
    four records are written; with the threshold at 5 it is rejected and
    nothing is accepted. *)
Theorem C1_five_point_ring_single_walk_of_four :
  run_compose default_config frame_five
  = Done {| output_data := map copied (take 4 (data frame_five));
            output_size := 4 * sizeof_four_floats;
            noise_points_data := [];
            noise_points_size := 0;
            walks := [mkWalk 0 3 true] |}
  ∧ run_compose cfg_five frame_five
    = Done {| output_data := [];
              output_size := 0;
              noise_points_data := map copied (take 3 (data frame_five));
              noise_points_size := 3 * sizeof_four_floats;
              walks := [mkWalk 0 3 false] |}.
Proof. split; by vm_compute. Qed.

Lemma length_int_range (first last : Z) :
  length (int_range first last) = Z.to_nat (last - first + 1).
Proof. unfold int_range. by rewrite length_map, length_seq. Qed.

Lemma int_range_nil (first last : Z) :
  (last < first)%Z → int_range first last = [].
Proof.
  intros H. unfold int_range.
  replace (Z.to_nat (last - first + 1)) with 0 by lia. done.
Qed.

Lemma int_range_app (first mid last : Z) :
  (first ≤ mid + 1)%Z → (mid ≤ last)%Z →
  int_range first mid ++ int_range (mid + 1) last = int_range first last.
Proof.
  intros H1 H2. unfold int_range.
  replace (Z.to_nat (last - first + 1))
    with (Z.to_nat (mid - first + 1) + Z.to_nat (last - (mid + 1) + 1)) by lia.
  rewrite seq_app, map_app. f_equal. simpl.
  rewrite <- (Nat.add_0_r (Z.to_nat (mid - first + 1))) at 1.
  rewrite <- fmap_add_seq, <- list_fmap_compose.
  apply map_ext. intros k. simpl. lia.
Qed.

Section Compositor.
Variable sizeof_PointXYZI : nat.
Variable isCluster : PointCloud2 PointXYZIRADRT.t → nat * nat → Z → bool.
Variable cfg : Config.
Variable transform_info : TransformInfo.
Variable input : PointCloud2 PointXYZIRADRT.t.

Local Abbreviation push_output :=
  (push_output sizeof_PointXYZI transform_info input).
Local Abbreviation push_noise :=
  (push_noise sizeof_PointXYZI transform_info input).
Local Abbreviation walk_loop :=
  (walk_loop sizeof_PointXYZI isCluster cfg transform_info input).

(** The noise loop of lines 185-203 stores the same record at every
    iteration. *)
Lemma foldl_push_noise_same {A : Type} (data_idx : nat) (l : list A) :
  ∀ b : Buffers,
    let b' := foldl (λ b _, push_noise data_idx b) b l in
    noise_points_data b'
    = noise_points_data b
      ++ replicate (length l) (to_PointXYZI transform_info (input_at input data_idx))
    ∧ noise_points_size b' = noise_points_size b + length l * sizeof_PointXYZI
    ∧ output_data b' = output_data b
    ∧ output_size b' = output_size b
    ∧ walks b' = walks b.
Proof.
  induction l as [|a l IH]; intros b; simpl.
  - by rewrite app_nil_r, Nat.add_0_r.
  - destruct (IH (push_noise data_idx b)) as (H1 & H2 & H3 & H4 & H5).
    rewrite H1, H2, H3, H4, H5. simpl.
    rewrite <- app_assoc. split_and!; try done. lia.
Qed.
Lemma walks_foldl_push_output {A : Type} (f : A → nat) (l : list A) :
  ∀ b, walks (foldl (λ b i, push_output (f i) b) b l) = walks b.
Proof. induction l as [|a l IH]; intros b; simpl; [done|by rewrite IH]. Qed.

Lemma walks_foldl_push_noise {A : Type} (f : A → nat) (l : list A) :
  ∀ b, walks (foldl (λ b i, push_noise (f i) b) b l) = walks b.
Proof. induction l as [|a l IH]; intros b; simpl; [done|by rewrite IH]. Qed.

Lemma walks_close_walk (indices : list nat) (first last : Z) (b : Buffers) :
  walks (close_walk sizeof_PointXYZI isCluster cfg transform_info input
           indices first last b)
  = walks b ++ [mkWalk first last (classify isCluster input indices first last)].
Proof.
  unfold close_walk.
  destruct (classify isCluster input indices first last).
  - by rewrite (walks_foldl_push_output (at_int indices)).
  - destruct (publish_noise_points_ cfg); [|done].
    by rewrite (walks_foldl_push_noise (λ _, at_int indices first)).
Qed.

Lemma walks_close_last_walk (indices : list nat) (first last : Z) (b : Buffers) :
  walks (close_last_walk sizeof_PointXYZI isCluster cfg transform_info
           input indices first last b)
  = walks b ++ [mkWalk first last (classify isCluster input indices first last)].
Proof.
  unfold close_last_walk.
  destruct (classify isCluster input indices first last).
  - by rewrite (walks_foldl_push_output (at_int indices)).
  - destruct (publish_noise_points_ cfg); [|done].
    by rewrite (walks_foldl_push_noise (at_int indices)).
Qed.

(** The walks closed by [n] iterations starting at [idx] cover the
    positions from [walk_first_idx] up to the new [walk_first_idx]. *)
Lemma walk_loop_cover (indices : list nat) (n : nat) :
  ∀ (idx : nat) (first last : Z) (b : Buffers) first' last' b',
    (0 ≤ first ≤ Z.of_nat idx)%Z →
    walk_loop indices n idx first last b = (first', last', b') →
    (first ≤ first' ≤ Z.of_nat (idx + n))%Z
    ∧ last' = (if n is O then last else Z.of_nat (idx + n) - 1)%Z
    ∧ ∃ ws, walks b' = walks b ++ ws
            ∧ concat (map walk_range ws) = int_range first (first' - 1)
            ∧ Forall (λ w, (walk_first w ≤ walk_last w)%Z) ws.
Proof.
  induction n as [|n IH]; intros idx first last b first' last' b' Hfirst Hloop.
  - simpl in Hloop. inversion Hloop; subst. split; [lia|]. split; [done|].
    exists []. rewrite app_nil_r. split; [done|]. split; [|done].
    simpl. by rewrite int_range_nil by lia.
  - simpl in Hloop.
    destruct (same_walk cfg _ _).
    + apply IH in Hloop as (Hf & Hl & ws & Hws & Hcover & Hne); [|lia].
      split; [lia|]. split; [destruct n; lia|].
      by exists ws.
    + apply IH in Hloop as (Hf & Hl & ws & Hws & Hcover & Hne); [|lia].
      split; [lia|]. split; [destruct n; lia|].
      exists (mkWalk first (Z.of_nat idx)
                (classify isCluster input indices first (Z.of_nat idx)) :: ws).
      rewrite Hws, walks_close_walk, <- app_assoc. split; [done|]. split.
      * simpl. rewrite Hcover. unfold walk_range. simpl.
        apply int_range_app; lia.
      * constructor; [simpl; lia|done].
Qed.

(** The walks of one ring, in the order in which they are closed, are the
    positions 0, ..., [size() - 2] cut into consecutive non-empty ranges. *)
Lemma filter_ring_cover (indices : list nat) (b : Buffers) :
  ∃ ws, walks (filter_ring sizeof_PointXYZI isCluster cfg transform_info input
                   b indices) = walks b ++ ws
        ∧ concat (map walk_range ws)
          = int_range 0 (Z.of_nat (length indices) - 2)
        ∧ Forall (λ w, (walk_first w ≤ walk_last w)%Z) ws.
Proof.
  unfold filter_ring. case_decide as Hlen.
  - exists []. rewrite app_nil_r. split; [done|]. split; [|done].
    simpl. by rewrite int_range_nil by lia.
  - destruct (walk_loop indices (length indices - 1) 0 0%Z (-1)%Z b)
      as [[first' last'] b'] eqn:Hloop.
    apply walk_loop_cover in Hloop as (Hf & Hl & ws & Hws & Hcover & Hne);
      [|lia].
    destruct (length indices - 1) as [|n] eqn:Hn; [lia|].
    destruct (first' >? last')%Z eqn:Hcmp.
    + exists ws. split; [done|]. split; [|done].
      rewrite Hcover. f_equal. lia.
    + exists (ws ++ [mkWalk first' last'
                       (classify isCluster input indices first' last')]).
      rewrite walks_close_last_walk, Hws, <- app_assoc. split; [done|]. split.
      * rewrite map_app, concat_app, Hcover. simpl. rewrite app_nil_r.
        unfold walk_range. simpl.
        replace (Z.of_nat (length indices) - 2)%Z with last' by lia.
        replace first' with ((first' - 1) + 1)%Z at 2 by lia.
        apply int_range_app; lia.
      * apply Forall_app. split; [done|]. constructor; [simpl; lia|done].
Qed.
Local Abbreviation fits := (within sizeof_PointXYZI).

Lemma within_refl (b : Buffers) : fits 0 b b.
Proof. unfold within. split_and!; [lia|lia|done|done]. Qed.

Lemma within_trans (m n : nat) (b0 b1 b2 : Buffers) :
  fits m b0 b1 → fits n b1 b2 → fits (m + n) b0 b2.
Proof.
  unfold within. intros (H1 & H2 & H3 & H4) (K1 & K2 & K3 & K4).
  split_and!; [lia|lia|auto|auto].
Qed.

Lemma within_weaken (m n : nat) (b0 b : Buffers) :
  m ≤ n → fits m b0 b → fits n b0 b.
Proof.
  unfold within. intros Hle (H1 & H2 & H3 & H4).
  split_and!; [lia|lia|done|done].
Qed.

Lemma foldl_push_output_within {A : Type} (f : A → nat) (l : list A) :
  ∀ b, fits (length l) b (foldl (λ b i, push_output (f i) b) b l).
Proof.
  induction l as [|a l IH]; intros b; simpl.
  - apply within_refl.
  - apply (within_trans 1 (length l) b (push_output (f a) b)); [|apply IH].
    unfold within. simpl. rewrite length_app. simpl.
    split_and!; [lia|lia|lia|done].
Qed.

Lemma foldl_push_noise_within {A : Type} (f : A → nat) (l : list A) :
  ∀ b, fits (length l) b (foldl (λ b i, push_noise (f i) b) b l).
Proof.
  induction l as [|a l IH]; intros b; simpl.
  - apply within_refl.
  - apply (within_trans 1 (length l) b (push_noise (f a) b)); [|apply IH].
    unfold within. simpl. rewrite length_app. simpl.
    split_and!; [lia|lia|done|lia].
Qed.

Lemma record_walk_within (w : Walk) (b : Buffers) :
  fits 0 b (record_walk w b).
Proof. unfold within. simpl. split_and!; [lia|lia|done|done]. Qed.

Lemma close_walk_within (indices : list nat) (first last : Z) (b : Buffers) :
  fits (Z.to_nat (last - first + 1)) b
    (close_walk sizeof_PointXYZI isCluster cfg transform_info input
       indices first last b).
Proof.
  unfold close_walk. rewrite <- length_int_range.
  set (w := mkWalk _ _ _).
  apply (within_trans 0 (length (int_range first last)) b (record_walk w b));
    [apply record_walk_within|].
  destruct (classify isCluster input indices first last).
  - apply (foldl_push_output_within (at_int indices)).
  - destruct (publish_noise_points_ cfg).
    + apply (foldl_push_noise_within (λ _, at_int indices first)).
    + eapply within_weaken; [|apply within_refl]. lia.
Qed.

Lemma close_last_walk_within (indices : list nat) (first last : Z)
    (b : Buffers) :
  fits (Z.to_nat (last - first + 1)) b
    (close_last_walk sizeof_PointXYZI isCluster cfg transform_info input
       indices first last b).
Proof.
  unfold close_last_walk.
  set (w := mkWalk _ _ _).
  apply (within_trans 0 (Z.to_nat (last - first + 1)) b (record_walk w b));
    [apply record_walk_within|].
  destruct (classify isCluster input indices first last).
  - eapply within_weaken;
      [|apply (foldl_push_output_within (at_int indices))].
    rewrite length_int_range. lia.
  - destruct (publish_noise_points_ cfg).
    + eapply within_weaken;
        [|apply (foldl_push_noise_within (at_int indices))].
      rewrite length_int_range. lia.
    + eapply within_weaken; [|apply within_refl]. lia.
Qed.

Lemma walk_loop_within (indices : list nat) (n : nat) :
  ∀ (idx : nat) (first last : Z) (b : Buffers) first' last' b',
    (0 ≤ first ≤ Z.of_nat idx)%Z →
    walk_loop indices n idx first last b = (first', last', b') →
    fits (Z.to_nat (first' - first)) b b'.
Proof.
  induction n as [|n IH]; intros idx first last b first' last' b' Hfirst Hloop.
  - simpl in Hloop. inversion Hloop; subst.
    eapply within_weaken; [|apply within_refl]. lia.
  - pose proof (walk_loop_cover indices (S n) idx first last b first' last' b'
                  Hfirst Hloop) as (Hrange & _).
    simpl in Hloop. destruct (same_walk cfg _ _).
    + by apply IH in Hloop; [|lia].
    + assert (0 ≤ Z.of_nat idx + 1 ≤ Z.of_nat (S idx))%Z as Hnext by lia.
      pose proof (walk_loop_cover indices n (S idx) _ _ _ _ _ _
                    Hnext Hloop) as (Hrange' & _).
      apply IH in Hloop; [|lia].
      eapply within_weaken;
        [|exact (within_trans _ _ _ _ _
                   (close_walk_within indices first (Z.of_nat idx) b) Hloop)].
      lia.
Qed.

Lemma filter_ring_within (indices : list nat) (b : Buffers) :
  fits (length indices) b
    (filter_ring sizeof_PointXYZI isCluster cfg transform_info input
       b indices).
Proof.
  unfold filter_ring. case_decide as Hlen.
  - eapply within_weaken; [|apply within_refl]. lia.
  - destruct (walk_loop indices (length indices - 1) 0 0%Z (-1)%Z b)
      as [[first' last'] b'] eqn:Hloop.
    assert (0 ≤ 0 ≤ Z.of_nat 0)%Z as Hstart by lia.
    pose proof (walk_loop_cover indices _ 0 _ _ b first' last' b' Hstart Hloop)
      as (Hrange & Hlast & _).
    apply walk_loop_within in Hloop; [|lia].
    destruct (length indices - 1) as [|n] eqn:Hn; [lia|].
    destruct (first' >? last')%Z eqn:Hcmp.
    + eapply within_weaken; [|exact Hloop]. lia.
    + eapply within_weaken;
        [|exact (within_trans _ _ _ _ _ Hloop
                   (close_last_walk_within indices first' last' b'))].
      lia.
Qed.

Lemma foldl_filter_ring_within (ring2indices : list (list nat)) :
  ∀ b, fits (length (concat ring2indices)) b
         (foldl (filter_ring sizeof_PointXYZI isCluster cfg transform_info
                   input) b ring2indices).
Proof.
  induction ring2indices as [|indices rest IH]; intros b; simpl.
  - apply within_refl.
  - rewrite length_app.
    eapply within_trans; [apply filter_ring_within|apply IH].
Qed.

(** No more records are written to either buffer than the frame has
    points: every store through [output_ptr] and [noise_ptr] stays inside
    the [point_step * width] bytes allocated at lines 92-102. *)
Lemma compose_within_buffers (b : Buffers) :
  compose sizeof_PointXYZI isCluster cfg transform_info input = Done b →
  length (output_data b) ≤ length (data input)
  ∧ length (noise_points_data b) ≤ length (data input)
  ∧ output_size b = sizeof_PointXYZI * length (output_data b)
  ∧ noise_points_size b = sizeof_PointXYZI * length (noise_points_data b).
Proof.
  unfold compose, ring2indices_of.
  destruct (ring_partition _ _ _ _) as [ring2indices|e|f] eqn:Hpart;
    simpl; [|discriminate|discriminate].
  intros Hb. inversion Hb; subst b. clear Hb.
  apply ring_partition_perm in Hpart. apply Permutation_length in Hpart.
  rewrite length_app, length_map, length_seq in Hpart.
  assert (length (concat (ring2indices_init (max_rings_num_ cfg))) = 0)
    as Hinit by (by rewrite concat_ring2indices_init).
  destruct (foldl_filter_ring_within ring2indices empty_buffers)
    as (H1 & H2 & H3 & H4).
  unfold filter_rings. simpl in *.
  split_and!; [lia|lia|apply H3; lia|apply H4; lia].
Qed.
End Compositor.

(** ** Visibility histogram *)

(** C5: with an empty azimuth window the resolution is 0, no error is
    raised, and the first ring of two points or more makes the scan divide by
    it; a frame without such a ring is processed to the end. *)
Theorem C5_zero_resolution_not_rejected :
  horizontal_resolution cfg_empty_window = Done 0%Z
  ∧ createBinaryImage cfg_empty_window frame_three = Undefined DivisionByZero
  ∧ snd (run_filter cfg_empty_window frame_three) = Undefined DivisionByZero
  ∧ ∃ binary_image,
      createBinaryImage cfg_empty_window frame_one = Done binary_image.
Proof. split_and!; [by vm_compute..|]. eexists. by vm_compute. Qed.

(** What holds of the histogram after every write into one of the first
    [sectors] columns holds of it after the scan of a ring over [sectors]
    sectors, and after the scan of all rings. *)
Section HistogramInvariant.
Variable cfg : Config.
Variable sectors : nat.
Variable P : Mat → Prop.
Hypothesis P_mat_set :
  ∀ (row col : nat) (value : Z) (image : Mat),
    col < sectors → P image → P (mat_set row col value image).

Lemma segment_for_invariant (single_ring : list PointXYZIRADRT.t)
    (horizontal_resolution : Z) (ring_id : nat) (m : nat) :
  ∀ (i : Z) (index : nat) (frequency_image frequency_image' : Mat),
    (0 ≤ i)%Z → Z.to_nat i + m ≤ sectors →
    segment_for cfg single_ring horizontal_resolution ring_id m i index
      frequency_image = Done frequency_image' →
    P frequency_image → P frequency_image'.
Proof.
  induction m as [|m IH]; intros i index image image' Hi Hm Hfor Himage.
  - simpl in Hfor. by inversion Hfor; subst.
  - simpl in Hfor.
    destruct (segment_while cfg single_ring horizontal_resolution i _ index 0%Z)
      as [[index' noise_frequency_i]|e|f]; simpl in Hfor; [|discriminate Hfor|discriminate Hfor].
    apply IH in Hfor; [done|lia|lia|].
    apply P_mat_set; [lia|done].
Qed.

Lemma analyze_rings_invariant (horizontal_resolution : Z)
    (pcl_noise_ring_array : list (list PointXYZIRADRT.t)) :
  ∀ frequency_image frequency_image' : Mat,
    Z.to_nat horizontal_bins - 1 ≤ sectors →
    analyze_rings cfg horizontal_resolution frequency_image
      pcl_noise_ring_array = Done frequency_image' →
    P frequency_image → P frequency_image'.
Proof.
  induction pcl_noise_ring_array as [|single_ring rest IH];
    intros image image' Hsectors Hrings Himage.
  - simpl in Hrings. by inversion Hrings; subst.
  - simpl in Hrings.
    destruct (analyze_ring cfg horizontal_resolution image single_ring)
      as [image1|e|f] eqn:Hring; simpl in Hrings; [|discriminate Hrings|discriminate Hrings].
    apply (IH image1 image' Hsectors Hrings).
    unfold analyze_ring in Hring.
    destruct single_ring as [|front points].
    + by inversion Hring; subst.
    + eapply segment_for_invariant; [| |exact Hring|done]; [lia|].
      change (Z.to_nat 0) with 0. lia.
Qed.
End HistogramInvariant.

Lemma mat_set_other_column (row col other : nat) (value expected : Z)
    (image : Mat) :
  col ≠ other →
  Forall (λ cells, cells !! other = Some expected) image →
  Forall (λ cells, cells !! other = Some expected) (mat_set row col value image).
Proof.
  intros Hne Himage. unfold mat_set. apply Forall_alter; [done|].
  intros cells _ Hcells. by rewrite list_lookup_insert_ne.
Qed.

Lemma mat_set_dimensions (row col rows cols : nat) (value : Z) (image : Mat) :
  length image = rows ∧ Forall (λ cells, length cells = cols) image →
  length (mat_set row col value image) = rows
  ∧ Forall (λ cells, length cells = cols) (mat_set row col value image).
Proof.
  intros [Hrows Hcols]. unfold mat_set. split.
  - rewrite <- Hrows. apply length_alter.
  - apply Forall_alter; [done|]. intros cells _ Hcells.
    by rewrite length_insert.
Qed.

(** The histogram has [vertical_bins] rows of 36 cells. *)
Lemma frequency_image_dimensions (cfg : Config)
    (input : PointCloud2 PointXYZIRADRT.t) (frequency_image : Mat) :
  frequency_image_of cfg input = Done frequency_image →
  length frequency_image = Z.to_nat (u32 (vertical_bins_ cfg))
  ∧ Forall (λ cells, length cells = 36) frequency_image.
Proof.
  intros Himage. unfold frequency_image_of in Himage.
  destruct (horizontal_resolution cfg) as [resolution|e|f];
    simpl in Himage; [|discriminate Himage|discriminate Himage].
  destruct (noise_ring_partition _ _) as [pcl_noise_ring_array|e|f];
    simpl in Himage; [|discriminate Himage|discriminate Himage].
  eapply (analyze_rings_invariant cfg 35
            (λ image, length image = Z.to_nat (u32 (vertical_bins_ cfg))
                      ∧ Forall (λ cells, length cells = 36) image));
    [| |exact Himage|].
  - intros row col value image _. apply mat_set_dimensions.
  - vm_compute. lia.
  - split; [by rewrite length_replicate|].
    apply Forall_replicate. by vm_compute.
Qed.

(** C7: whatever the frame, column 35 of the histogram is never written:
    every ring keeps the initial 0 there, so a count is produced for 35 of
    the 36 sectors only.  On a ring with three points in the first sector and
    four in the last one the row is 3, 0, ..., 0. *)
Theorem C7_last_sector_never_counted (cfg : Config)
    (input : PointCloud2 PointXYZIRADRT.t) (frequency_image : Mat) :
  frequency_image_of cfg input = Done frequency_image →
  Forall (λ cells, cells !! 35 = Some 0%Z) frequency_image
  ∧ frequency_image_of cfg_one_ring frame_last_sector
    = Done [3%Z :: replicate 35 0%Z].
Proof.
  intros Himage. split; [|by vm_compute].
  unfold frequency_image_of in Himage.
  destruct (horizontal_resolution cfg) as [resolution|e|f];
    simpl in Himage; [|discriminate Himage|discriminate Himage].
  destruct (noise_ring_partition _ _) as [pcl_noise_ring_array|e|f];
    simpl in Himage; [|discriminate Himage|discriminate Himage].
  eapply (analyze_rings_invariant cfg 35
            (Forall (λ cells, cells !! 35 = Some 0%Z)));
    [| |exact Himage|].
  - intros row col value image Hcol. apply mat_set_other_column. lia.
  - vm_compute. lia.
  - apply Forall_replicate. by vm_compute.
Qed.

Lemma C7_last_sector_never_counted_witness :
  Forall (λ cells, cells !! 35 = Some 0%Z) [3%Z :: replicate 35 0%Z]
  ∧ frequency_image_of cfg_one_ring frame_last_sector
    = Done [3%Z :: replicate 35 0%Z].
Proof.
  apply (C7_last_sector_never_counted cfg_one_ring frame_last_sector).
  by vm_compute.
Defined.

(** ** Visibility *)

Lemma length_concat_rows {A : Type} (n : nat) (image : list (list A)) :
  Forall (λ cells, length cells = n) image →
  length (concat image) = length image * n.
Proof.
  induction 1 as [|cells image Hcells _ IH]; [done|].
  simpl. rewrite length_app, IH, Hcells. done.
Qed.

Lemma countNonZero_inRange (noise_threshold : Z) (frequency_image : Mat) :
  countNonZero (inRange noise_threshold 255 frequency_image)
  = filled_cells noise_threshold frequency_image.
Proof.
  unfold countNonZero, filled_cells, inRange. f_equal.
  rewrite <- concat_map.
  induction (concat frequency_image) as [|v cells IH]; [done|].
  simpl. rewrite !filter_cons.
  destruct (decide (noise_threshold ≤ v ≤ 255)%Z) as [Hin|Hout].
  - replace ((noise_threshold <=? v)%Z && (v <=? 255)%Z) with true
      by (symmetry; apply andb_true_iff; lia).
    rewrite decide_True by done. simpl. by rewrite IH.
  - replace ((noise_threshold <=? v)%Z && (v <=? 255)%Z) with false
      by (symmetry; apply andb_false_iff; lia).
    rewrite decide_False by (intros H; by apply H). done.
Qed.

Lemma filled_cells_all (noise_threshold : Z) (frequency_image : Mat) :
  Forall (Forall (λ v, (noise_threshold ≤ v ≤ 255)%Z)) frequency_image →
  filled_cells noise_threshold frequency_image
  = Z.of_nat (length (concat frequency_image)).
Proof.
  intros Hall. unfold filled_cells. f_equal. f_equal.
  induction Hall as [|cells image Hcells _ IH]; [done|].
  simpl. rewrite filter_app, IH. f_equal.
  clear IH. induction Hcells as [|v cells Hv _ IH]; [done|].
  rewrite filter_cons, decide_True by done. by rewrite IH.
Qed.

Lemma filled_cells_none (noise_threshold : Z) (frequency_image : Mat) :
  Forall (Forall (λ v, ¬ (noise_threshold ≤ v ≤ 255)%Z)) frequency_image →
  filled_cells noise_threshold frequency_image = 0%Z.
Proof.
  intros Hnone. unfold filled_cells.
  replace (filter _ (concat frequency_image)) with ([] : list Z); [done|].
  symmetry.
  induction Hnone as [|cells image Hcells _ IH]; [done|].
  simpl. rewrite filter_app, IH, app_nil_r.
  clear IH. induction Hcells as [|v cells Hv _ IH]; [done|].
  rewrite filter_cons, decide_False by done. done.
Qed.

Lemma filled_cells_range (noise_threshold : Z) (frequency_image : Mat) :
  (0 ≤ filled_cells noise_threshold frequency_image
   ≤ Z.of_nat (length (concat frequency_image)))%Z.
Proof.
  unfold filled_cells. split; [lia|].
  apply inj_le, length_filter.
Qed.

Lemma Qdiv_unit_range (a b : Z) :
  (0 ≤ a ≤ b)%Z → (0 < b)%Z →
  (0 <= 1 - inject_Z a / inject_Z b)%Q ∧ (1 - inject_Z a / inject_Z b <= 1)%Q.
Proof.
  intros Ha Hb.
  assert (0 < inject_Z b)%Q as Hb' by (unfold Qlt; simpl; lia).
  assert (0 <= inject_Z a / inject_Z b)%Q as H0.
  { apply Qle_shift_div_l; [done|]. rewrite Qmult_0_l.
    unfold Qle; simpl; lia. }
  assert (inject_Z a / inject_Z b <= 1)%Q as H1.
  { apply Qle_shift_div_r; [done|]. rewrite Qmult_1_l.
    unfold Qle; simpl; lia. }
  split; lra.
Qed.

(** C6, as amended: for a histogram of [vertical_bins] rows of 36 cells,
    with [vertical_bins] at least 1 and [vertical_bins * 36] below 2^32, the
    visibility is in [0, 1] and equals 1 - filled / (vertical_bins * 36),
    where a cell is filled when its count is at least [noise_threshold] (and
    at most 255); it is 0 when every cell is filled and 1 when no cell is. *)
Theorem C6_visibility_range (frequency_image : Mat)
    (vertical_bins noise_threshold : Z) :
  (0 < vertical_bins)%Z → (vertical_bins * 36 < 2 ^ 32)%Z →
  length frequency_image = Z.to_nat vertical_bins →
  Forall (λ cells, length cells = 36) frequency_image →
  ∃ num_filled_pixels,
    calculateFilledPixels (inRange noise_threshold 255 frequency_image)
      vertical_bins 36 = Some num_filled_pixels
    ∧ (0 <= 1 - num_filled_pixels)%Q
    ∧ (1 - num_filled_pixels <= 1)%Q
    ∧ (1 - num_filled_pixels
       == 1 - inject_Z (filled_cells noise_threshold frequency_image)
              / inject_Z (vertical_bins * 36))%Q
    ∧ (Forall (Forall (λ v, (noise_threshold ≤ v ≤ 255)%Z)) frequency_image →
       (1 - num_filled_pixels == 0)%Q)
    ∧ (Forall (Forall (λ v, ¬ (noise_threshold ≤ v ≤ 255)%Z)) frequency_image →
       (1 - num_filled_pixels == 1)%Q).
Proof.
  intros Hbins Hfit Hrows Hcols.
  pose proof (length_concat_rows 36 frequency_image Hcols) as Hcells.
  pose proof (filled_cells_range noise_threshold frequency_image) as Hrange.
  assert (Z.of_nat (length (concat frequency_image)) = vertical_bins * 36)%Z
    as Htotal by lia.
  unfold calculateFilledPixels. rewrite countNonZero_inRange.
  unfold u32. rewrite Z.mod_small by lia.
  destruct (vertical_bins * 36 =? 0)%Z eqn:Hzero; [lia|].
  eexists. split; [done|].
  destruct (Qdiv_unit_range (filled_cells noise_threshold frequency_image)
              (vertical_bins * 36)) as [H0 H1]; [lia|lia|].
  split_and!; try done.
  - intros Hall. rewrite (filled_cells_all _ _ Hall), Htotal.
    assert (¬ inject_Z (vertical_bins * 36) == 0)%Q as Hne.
    { intros Heq. unfold Qeq in Heq. simpl in Heq. lia. }
    field. done.
  - intros Hnone. rewrite (filled_cells_none _ _ Hnone).
    assert (¬ inject_Z (vertical_bins * 36) == 0)%Q as Hne.
    { intros Heq. unfold Qeq in Heq. simpl in Heq. lia. }
    field. done.
Qed.

Lemma C6_visibility_range_witness :
  ∃ num_filled_pixels,
    calculateFilledPixels (inRange 2 255 [2%Z :: replicate 35 0%Z]) 1 36
    = Some num_filled_pixels
    ∧ (0 <= 1 - num_filled_pixels)%Q
    ∧ (1 - num_filled_pixels <= 1)%Q
    ∧ (1 - num_filled_pixels
       == 1 - inject_Z (filled_cells 2 [2%Z :: replicate 35 0%Z])
              / inject_Z (1 * 36))%Q
    ∧ (Forall (Forall (λ v, (2 ≤ v ≤ 255)%Z)) [2%Z :: replicate 35 0%Z] →
       (1 - num_filled_pixels == 0)%Q)
    ∧ (Forall (Forall (λ v, ¬ (2 ≤ v ≤ 255)%Z)) [2%Z :: replicate 35 0%Z] →
       (1 - num_filled_pixels == 1)%Q).
Proof.
  apply (C6_visibility_range [2%Z :: replicate 35 0%Z] 1 2).
  - lia.
  - reflexivity.
  - reflexivity.
  - constructor; [reflexivity|constructor].
Defined.

(** C6, as stated, fails where a cell holds exactly [noise_threshold]
    points: on the three-point ring the first sector counts 2 points, no
    cell exceeds the threshold 2, and the visibility is 35/36, not 1.  With
    no ring and no point the quotient is 0/0 and the visibility is not a
    number. *)
Lemma C6_counterexample :
  ∃ frequency_image visibility,
    frequency_image_of cfg_one_ring frame_three = Done frequency_image
    ∧ visibility_messages cfg_one_ring frame_three
      = Done [FrequencyImage (inRange 2 255 frequency_image);
              Visibility (Some visibility)]
    ∧ filled_cells_spec (noise_threshold_ cfg_one_ring) frequency_image = 0%Z
    ∧ ¬ (visibility
         == 1 - inject_Z (filled_cells_spec (noise_threshold_ cfg_one_ring)
                            frequency_image)
                / inject_Z (1 * 36))%Q
    ∧ visibility_messages cfg_no_ring (make_cloud [])
      = Done [FrequencyImage []; Visibility None].
Proof.
  exists [2%Z :: replicate 35 0%Z], (35 # 36)%Q.
  split_and!; [by vm_compute..| |by vm_compute].
  vm_compute. intros H. discriminate H.
Qed.

(** ** What a frame publishes *)

Lemma noise_ring_partition_done (pts : list PointXYZIRADRT.t) :
  ∀ pcl_noise_ring_array : list (list PointXYZIRADRT.t),
    Forall (λ p, PointXYZIRADRT.ring p < length pcl_noise_ring_array) pts →
    ∃ pcl_noise_ring_array',
      noise_ring_partition pts pcl_noise_ring_array
      = Done pcl_noise_ring_array'.
Proof.
  induction pts as [|p rest IH]; intros array Hall; simpl.
  - eauto.
  - apply Forall_cons in Hall as [Hp Hrest].
    case_decide; [|lia]. apply IH. by rewrite length_alter.
Qed.

Section ScanCompletes.
Variable cfg : Config.
Variable resolution first_sector : Z.
Hypothesis resolution_not_zero : resolution ≠ 0%Z.
Hypothesis first_sector_fits :
  float_to_uint (min_azimuth cfg / inject_Z resolution)
  = Done first_sector.

Lemma sector_bound_done (i : Z) :
  sector_bound cfg resolution i
  = Done (u32 ((i + 1 + first_sector) * resolution)).
Proof.
  unfold sector_bound.
  destruct (resolution =? 0)%Z eqn:Hzero; [lia|].
  by rewrite first_sector_fits.
Qed.

Lemma segment_while_done (single_ring : list PointXYZIRADRT.t) (i : Z)
    (n : nat) :
  ∀ (index : nat) (noise_frequency_i : Z),
    ∃ result,
      segment_while cfg single_ring resolution i n index
        noise_frequency_i = Done result.
Proof.
  induction n as [|n IH]; intros index noise_frequency_i; simpl.
  - eauto.
  - rewrite sector_bound_done. simpl.
    destruct (Qltb _ _); [apply IH|eauto].
Qed.

Lemma segment_for_done (single_ring : list PointXYZIRADRT.t) (ring_id : nat)
    (m : nat) :
  ∀ (i : Z) (index : nat) (frequency_image : Mat),
    ∃ frequency_image',
      segment_for cfg single_ring resolution ring_id m i index
        frequency_image = Done frequency_image'.
Proof.
  induction m as [|m IH]; intros i index image; simpl.
  - eauto.
  - destruct (segment_while_done single_ring i
                (length single_ring - 1 - index) index 0%Z)
      as [[index' noise_frequency_i] ->].
    simpl. apply IH.
Qed.

Lemma analyze_rings_done
    (pcl_noise_ring_array : list (list PointXYZIRADRT.t)) :
  ∀ frequency_image : Mat,
    ∃ frequency_image',
      analyze_rings cfg resolution frequency_image
        pcl_noise_ring_array = Done frequency_image'.
Proof.
  induction pcl_noise_ring_array as [|single_ring rest IH]; intros image;
    simpl.
  - eauto.
  - assert (∃ image1,
              analyze_ring cfg resolution image single_ring
              = Done image1) as [image1 ->].
    { unfold analyze_ring. destruct single_ring as [|front points]; [eauto|].
      apply segment_for_done. }
    simpl. apply IH.
Qed.
End ScanCompletes.

(** The histogram pass runs to its end when the ring ids are below
    [vertical_bins], the resolution is not zero and the first sector of the
    window is a valid [uint]. *)
Lemma visibility_messages_done (cfg : Config)
    (input : PointCloud2 PointXYZIRADRT.t) (resolution first_sector : Z) :
  Forall (λ p, PointXYZIRADRT.ring p < Z.to_nat (u32 (vertical_bins_ cfg)))
    (data input) →
  horizontal_resolution cfg = Done resolution →
  resolution ≠ 0%Z →
  float_to_uint (min_azimuth cfg / inject_Z resolution) = Done first_sector →
  ∃ frequency_image visibility,
    visibility_messages cfg input
    = Done [FrequencyImage frequency_image; Visibility visibility].
Proof.
  intros Hrings Hres Hnz Hfirst.
  unfold visibility_messages, createBinaryImage, frequency_image_of.
  rewrite Hres. simpl.
  destruct (noise_ring_partition_done (data input)
              (replicate (Z.to_nat (u32 (vertical_bins_ cfg))) []))
    as [array ->].
  { by rewrite length_replicate. }
  simpl.
  match goal with
  | |- context [analyze_rings cfg resolution ?initial array] =>
      destruct (analyze_rings_done cfg resolution first_sector Hnz Hfirst
                  array initial) as [image ->]
  end.
  simpl. eauto.
Qed.

(** With noise output disabled nothing is published, whatever the frame. *)
Lemma faster_filter_silent (sizeof_PointXYZI : nat)
    (isCluster : PointCloud2 PointXYZIRADRT.t → nat * nat → Z → bool)
    (cfg : Config) (transform_info : TransformInfo)
    (input : PointCloud2 PointXYZIRADRT.t) :
  publish_noise_points_ cfg = false →
  fst (faster_filter sizeof_PointXYZI isCluster cfg transform_info input) = [].
Proof.
  intros Hoff. unfold faster_filter. rewrite Hoff.
  by destruct (compose _ _ _ _ _).
Qed.

(** The histogram pass returns when the ring ids are below
    [vertical_bins], the resolution is not zero and the first sector of the
    window is a valid [uint]. *)
Lemma createBinaryImage_done (cfg : Config)
    (input : PointCloud2 PointXYZIRADRT.t) (resolution first_sector : Z) :
  Forall (λ p, PointXYZIRADRT.ring p < Z.to_nat (u32 (vertical_bins_ cfg)))
    (data input) →
  horizontal_resolution cfg = Done resolution →
  resolution ≠ 0%Z →
  float_to_uint (min_azimuth cfg / inject_Z resolution) = Done first_sector →
  ∃ binary_image, createBinaryImage cfg input = Done binary_image.
Proof.
  intros Hrings Hres Hnz Hfirst.
  destruct (visibility_messages_done cfg input resolution first_sector
              Hrings Hres Hnz Hfirst) as (image & visibility & Hvis).
  unfold visibility_messages in Hvis.
  destruct (createBinaryImage cfg input) as [binary|e|f];
    [eauto|discriminate Hvis|discriminate Hvis].
Qed.




(** * Further properties of the filter *)

(** ** Acquisition order in the ring lists *)

Lemma ring_partition_sorted (step : nat) (pts : list PointXYZIRADRT.t) :
  0 < step →
  ∀ (data_idx : nat) (ring2indices ring2indices' : list (list nat)),
    ring_partition step pts data_idx ring2indices = Done ring2indices' →
    Forall (λ indices, StronglySorted lt indices
                       ∧ Forall (λ o, o < data_idx) indices) ring2indices →
    Forall (λ indices, StronglySorted lt indices
                       ∧ Forall (λ o, o < data_idx + length pts * step) indices)
      ring2indices'.
Proof.
  intros Hstep.
  induction pts as [|p rest IH]; intros data_idx r2i r2i' Hdone Hall;
    simpl in Hdone.
  - inversion Hdone; subst. simpl. by rewrite Nat.add_0_r.
  - case_decide as Hlt; [|discriminate Hdone].
    apply IH in Hdone.
    + eapply Forall_impl; [exact Hdone|]. intros indices [Hs Hb].
      split; [done|]. eapply Forall_impl; [exact Hb|]. simpl. intros o. lia.
    + apply Forall_lookup_2. intros i indices Hi.
      destruct (decide (PointXYZIRADRT.ring p = i)) as [<-|Hne].
      * rewrite list_lookup_alter_eq in Hi.
        destruct (r2i !! PointXYZIRADRT.ring p) as [old|] eqn:Hold;
          simpl in Hi; [|discriminate Hi].
        inversion Hi; subst indices.
        destruct (Forall_lookup_1 _ _ _ _ Hall Hold) as [Hs Hb].
        split.
        -- apply StronglySorted_app_2; [|done|repeat constructor].
           intros x1 x2 Hx1 Hx2. apply list_elem_of_singleton in Hx2.
           subst x2. by apply (proj1 (Forall_forall _ _) Hb).
        -- apply Forall_app. split.
           ++ eapply Forall_impl; [exact Hb|]. simpl. intros o. lia.
           ++ repeat constructor. lia.
      * rewrite list_lookup_alter_ne in Hi by done.
        destruct (Forall_lookup_1 _ _ _ _ Hall Hi) as [Hs Hb].
        split; [done|]. eapply Forall_impl; [exact Hb|]. simpl. intros o. lia.
Qed.

(** X1: when the partitioner ends there are [max_rings_num] ring lists,
    and the offsets of each list are strictly increasing, that is in
    acquisition order, and lie inside the input buffer. *)
Theorem ring_lists_keep_acquisition_order (cfg : Config)
    (input : PointCloud2 PointXYZIRADRT.t) (ring2indices : list (list nat)) :
  0 < point_step input →
  ring2indices_of cfg input = Done ring2indices →
  length ring2indices = max_rings_num_ cfg
  ∧ ∀ ring indices,
      ring2indices !! ring = Some indices →
      StronglySorted lt indices
      ∧ Forall (λ data_idx, data_idx < data_size input) indices.
Proof.
  intros Hstep Hdone. split.
  - unfold ring2indices_of in Hdone.
    assert (∀ pts d r r', ring_partition (point_step input) pts d r = Done r' →
                          length r' = length r) as Hlen.
    { induction pts as [|p rest IH]; intros d r r' H; simpl in H.
      - by inversion H.
      - case_decide; [|discriminate H]. apply IH in H.
        by rewrite length_alter in H. }
    apply Hlen in Hdone. rewrite Hdone. unfold ring2indices_init.
    by rewrite length_replicate.
  - intros ring indices Hlook.
    apply (ring_partition_sorted _ _ Hstep) in Hdone.
    + destruct (Forall_lookup_1 _ _ _ _ Hdone Hlook) as [Hs Hb].
      split; [done|]. eapply Forall_impl; [exact Hb|]. simpl.
      unfold data_size. intros o. lia.
    + unfold ring2indices_init. apply Forall_replicate.
      split; constructor.
Qed.

Lemma ring_lists_keep_acquisition_order_witness :
  length ([0; 48; 96; 144; 192] :: replicate 127 []) = 128
  ∧ ∀ ring indices,
      ([0; 48; 96; 144; 192] :: replicate 127 []) !! ring = Some indices →
      StronglySorted lt indices
      ∧ Forall (λ data_idx, data_idx < data_size frame_five) indices.
Proof.
  apply (ring_lists_keep_acquisition_order default_config frame_five).
  - simpl. lia.
  - reflexivity.
Defined.

(** ** What the walks are and what they emit *)

Lemma elem_of_int_range (first last i : Z) :
  i ∈ int_range first last ↔ (first ≤ i ≤ last)%Z.
Proof.
  unfold int_range. rewrite list_elem_of_fmap. split.
  - intros (k & -> & Hk). apply elem_of_seq in Hk. lia.
  - intros Hi. exists (Z.to_nat (i - first)). split; [lia|].
    apply elem_of_seq. lia.
Qed.

Section Emission.
Variable sizeof_PointXYZI : nat.
Variable isCluster : PointCloud2 PointXYZIRADRT.t → nat * nat → Z → bool.
Variable cfg : Config.
Variable transform_info : TransformInfo.
Variable input : PointCloud2 PointXYZIRADRT.t.

Local Abbreviation push_output :=
  (push_output sizeof_PointXYZI transform_info input).
Local Abbreviation push_noise :=
  (push_noise sizeof_PointXYZI transform_info input).
Local Abbreviation walk_loop :=
  (walk_loop sizeof_PointXYZI isCluster cfg transform_info input).
Local Abbreviation record_of :=
  (λ data_idx, to_PointXYZI transform_info (input_at input data_idx)).

Lemma foldl_push_output_data {A : Type} (f : A → nat) (l : list A) :
  ∀ b,
    let b' := foldl (λ b i, push_output (f i) b) b l in
    output_data b' = output_data b ++ map (λ i, record_of (f i)) l
    ∧ noise_points_data b' = noise_points_data b.
Proof.
  induction l as [|a l IH]; intros b; simpl.
  - by rewrite app_nil_r.
  - destruct (IH (push_output (f a) b)) as [H1 H2]. rewrite H1, H2. simpl.
    by rewrite <- app_assoc.
Qed.

Lemma foldl_push_noise_data {A : Type} (f : A → nat) (l : list A) :
  ∀ b,
    let b' := foldl (λ b i, push_noise (f i) b) b l in
    noise_points_data b' = noise_points_data b ++ map (λ i, record_of (f i)) l
    ∧ output_data b' = output_data b.
Proof.
  induction l as [|a l IH]; intros b; simpl.
  - by rewrite app_nil_r.
  - destruct (IH (push_noise (f a) b)) as [H1 H2]. rewrite H1, H2. simpl.
    by rewrite <- app_assoc.
Qed.

(** The accepted buffer after a walk is closed, in the loop or after it. *)
Lemma close_walk_output (indices : list nat) (first last : Z) (b : Buffers) :
  output_data (close_walk sizeof_PointXYZI isCluster cfg transform_info input
                 indices first last b)
  = output_data b
    ++ accepted_records transform_info input indices
         (mkWalk first last (classify isCluster input indices first last)).
Proof.
  unfold close_walk, accepted_records, walk_range. simpl.
  destruct (classify isCluster input indices first last).
  - by destruct (foldl_push_output_data (at_int indices)
                   (int_range first last)
                   (record_walk (mkWalk first last true) b)) as [-> _].
  - rewrite app_nil_r. destruct (publish_noise_points_ cfg); [|done].
    by destruct (foldl_push_noise_data (λ _ : Z, at_int indices first)
                   (int_range first last)
                   (record_walk (mkWalk first last false) b)) as [_ ->].
Qed.

Lemma close_last_walk_output (indices : list nat) (first last : Z)
    (b : Buffers) :
  output_data (close_last_walk sizeof_PointXYZI isCluster cfg transform_info
                 input indices first last b)
  = output_data b
    ++ accepted_records transform_info input indices
         (mkWalk first last (classify isCluster input indices first last)).
Proof.
  unfold close_last_walk, accepted_records, walk_range. simpl.
  destruct (classify isCluster input indices first last).
  - by destruct (foldl_push_output_data (at_int indices)
                   (int_range first last)
                   (record_walk (mkWalk first last true) b)) as [-> _].
  - rewrite app_nil_r. destruct (publish_noise_points_ cfg); [|done].
    by destruct (foldl_push_noise_data (at_int indices)
                   (int_range first (last - 1))
                   (record_walk (mkWalk first last false) b)) as [_ ->].
Qed.

(** The walks closed in the loop: continuous inside, followed by a break,
    and the accepted buffer receives the records of the kept ones. *)
Lemma walk_loop_walks (indices : list nat) (n : nat) :
  ∀ (idx : nat) (first last : Z) (b : Buffers) first' last' b',
    (∀ i, (first ≤ i < Z.of_nat idx)%Z →
          continuous_at cfg input indices i = true) →
    walk_loop indices n idx first last b = (first', last', b') →
    (∀ i, (first' ≤ i < Z.of_nat (idx + n))%Z →
          continuous_at cfg input indices i = true)
    ∧ ∃ ws,
        walks b' = walks b ++ ws
        ∧ Forall (λ w,
            (∀ i, (walk_first w ≤ i < walk_last w)%Z →
                  continuous_at cfg input indices i = true)
            ∧ continuous_at cfg input indices (walk_last w) = false) ws
        ∧ output_data b'
          = output_data b
            ++ concat (map (accepted_records transform_info input indices) ws).
Proof.
  induction n as [|n IH]; intros idx first last b first' last' b' Hopen Hloop.
  - simpl in Hloop. inversion Hloop; subst. split.
    { intros i Hi. apply Hopen. lia. }
    exists []. simpl. by rewrite !app_nil_r.
  - simpl in Hloop.
    destruct (same_walk cfg (input_at input (indices !!! idx))
                (input_at input (indices !!! (idx + 1)))) eqn:Hpair.
    + apply IH in Hloop as (Hopen' & ws & Hws & Hcont & Hout).
      * split; [|by exists ws]. intros i Hi. apply Hopen'. lia.
      * intros i Hi. destruct (decide (i = Z.of_nat idx)) as [->|Hne].
        -- unfold continuous_at. by rewrite Nat2Z.id.
        -- apply Hopen. lia.
    + apply IH in Hloop as (Hopen' & ws & Hws & Hcont & Hout).
      * split; [intros i Hi; apply Hopen'; lia|].
        exists (mkWalk first (Z.of_nat idx)
                  (classify isCluster input indices first (Z.of_nat idx))
                :: ws).
        rewrite Hws, walks_close_walk, <- app_assoc. split; [done|]. split.
        -- constructor; [|done]. simpl. split; [done|].
           unfold continuous_at. by rewrite Nat2Z.id.
        -- rewrite Hout, close_walk_output, <- app_assoc. done.
      * intros i Hi. lia.
Qed.

Lemma filter_ring_walks (indices : list nat) (b : Buffers) :
  ∃ ws,
    walks (filter_ring sizeof_PointXYZI isCluster cfg transform_info input
             b indices) = walks b ++ ws
    ∧ Forall (λ w,
        (∀ i, (walk_first w ≤ i < walk_last w)%Z →
              continuous_at cfg input indices i = true)
        ∧ ((walk_last w < Z.of_nat (length indices) - 2)%Z →
           continuous_at cfg input indices (walk_last w) = false)) ws
    ∧ output_data (filter_ring sizeof_PointXYZI isCluster cfg transform_info
                     input b indices)
      = output_data b
        ++ concat (map (accepted_records transform_info input indices) ws).
Proof.
  unfold filter_ring. case_decide as Hlen.
  - exists []. simpl. by rewrite !app_nil_r.
  - destruct (walk_loop indices (length indices - 1) 0 0%Z (-1)%Z b)
      as [[first' last'] b'] eqn:Hloop.
    assert (0 ≤ 0 ≤ Z.of_nat 0)%Z as Hstart by lia.
    pose proof (walk_loop_cover sizeof_PointXYZI isCluster cfg transform_info
                  input indices _ 0 _ _ b first' last' b' Hstart Hloop)
      as (Hrange & Hlast & _).
    apply walk_loop_walks in Hloop as (Hopen & ws & Hws & Hcont & Hout);
      [|intros i Hi; lia].
    destruct (length indices - 1) as [|n] eqn:Hn; [lia|].
    assert (Forall (λ w,
        (∀ i, (walk_first w ≤ i < walk_last w)%Z →
              continuous_at cfg input indices i = true)
        ∧ ((walk_last w < Z.of_nat (length indices) - 2)%Z →
           continuous_at cfg input indices (walk_last w) = false)) ws)
      as Hcont'.
    { eapply Forall_impl; [exact Hcont|]. simpl. intros w [H1 H2]. done. }
    destruct (first' >? last')%Z eqn:Hcmp.
    + by exists ws.
    + exists (ws ++ [mkWalk first' last'
                       (classify isCluster input indices first' last')]).
      rewrite walks_close_last_walk, Hws, <- app_assoc. split; [done|]. split.
      * apply Forall_app. split; [done|]. constructor; [|done]. simpl. split.
        -- intros i Hi. apply Hopen. lia.
        -- intros Hlt. lia.
      * rewrite close_last_walk_output, Hout, map_app, concat_app. simpl.
        by rewrite app_nil_r, <- app_assoc.
Qed.
End Emission.

(** C2: a walk closed at a continuity break and classified as rejected
    adds, when noise output is enabled, as many records to the noise buffer
    as the walk has points, each of them a copy of the walk's FIRST point:
    the loop of lines 185-203 runs over the walk but reads
    [indices[walk_first_idx]] at every turn.  The sibling loop of lines
    234-250, for the same walk closed at the end of a ring, stores the points
    of the walk themselves, but the last.  Nothing goes to the accepted
    buffer.  On the three-point ring the only walk is [0, 1] (no walk
    [2, 2] is made), and the noise buffer receives the first point twice. *)
Theorem C2_rejected_walk_noise_records (sizeof_PointXYZI : nat)
    (isCluster : PointCloud2 PointXYZIRADRT.t → nat * nat → Z → bool)
    (cfg : Config) (transform_info : TransformInfo)
    (input : PointCloud2 PointXYZIRADRT.t) (indices : list nat)
    (walk_first_idx walk_last_idx : Z) (b : Buffers) :
  publish_noise_points_ cfg = true →
  classify isCluster input indices walk_first_idx walk_last_idx = false →
  let in_loop := close_walk sizeof_PointXYZI isCluster cfg transform_info
                   input indices walk_first_idx walk_last_idx b in
  let at_end := close_last_walk sizeof_PointXYZI isCluster cfg transform_info
                  input indices walk_first_idx walk_last_idx b in
  let walk_size := Z.to_nat (walk_last_idx - walk_first_idx + 1) in
  noise_points_data in_loop
  = noise_points_data b
    ++ replicate walk_size
         (to_PointXYZI transform_info
            (input_at input (at_int indices walk_first_idx)))
  ∧ noise_points_size in_loop
    = noise_points_size b + walk_size * sizeof_PointXYZI
  ∧ output_data in_loop = output_data b
  ∧ noise_points_data at_end
    = noise_points_data b
      ++ map (λ i, to_PointXYZI transform_info
                     (input_at input (at_int indices i)))
           (int_range walk_first_idx (walk_last_idx - 1))
  ∧ output_data at_end = output_data b
  ∧ run_compose cfg_noise frame_three
    = Done {| output_data := [];
              output_size := 0;
              noise_points_data :=
                [copied (make_point 10 0 0 1 0 0 10);
                 copied (make_point 10 0 0 1 0 0 10)];
              noise_points_size := 2 * sizeof_four_floats;
              walks := [mkWalk 0 1 false] |}.
Proof.
  intros Hpub Hrej in_loop at_end walk_size.
  subst in_loop at_end walk_size. unfold close_walk, close_last_walk.
  rewrite Hrej, Hpub. rewrite <- length_int_range.
  destruct (foldl_push_noise_same sizeof_PointXYZI transform_info input
              (at_int indices walk_first_idx)
              (int_range walk_first_idx walk_last_idx)
              (record_walk (mkWalk walk_first_idx walk_last_idx false) b))
    as (H1 & H2 & H3 & _).
  destruct (foldl_push_noise_data sizeof_PointXYZI transform_info input
              (at_int indices) (int_range walk_first_idx (walk_last_idx - 1))
              (record_walk (mkWalk walk_first_idx walk_last_idx false) b))
    as [K1 K2].
  split_and!; [exact H1|exact H2|exact H3|exact K1|exact K2|by vm_compute].
Qed.

Lemma C2_rejected_walk_noise_records_witness :
  let in_loop := close_walk sizeof_four_floats (isCluster_model cfg_noise)
                   cfg_noise no_transform frame_three [0; 48; 96] 0 1
                   empty_buffers in
  let at_end := close_last_walk sizeof_four_floats (isCluster_model cfg_noise)
                  cfg_noise no_transform frame_three [0; 48; 96] 0 1
                  empty_buffers in
  noise_points_data in_loop
  = [] ++ replicate 2 (copied (make_point 10 0 0 1 0 0 10))
  ∧ noise_points_size in_loop = 0 + 2 * sizeof_four_floats
  ∧ output_data in_loop = []
  ∧ noise_points_data at_end
    = [] ++ map (λ i, to_PointXYZI no_transform
                        (input_at frame_three (at_int [0; 48; 96] i)))
              (int_range 0 (1 - 1))
  ∧ output_data at_end = []
  ∧ run_compose cfg_noise frame_three
    = Done {| output_data := [];
              output_size := 0;
              noise_points_data :=
                [copied (make_point 10 0 0 1 0 0 10);
                 copied (make_point 10 0 0 1 0 0 10)];
              noise_points_size := 2 * sizeof_four_floats;
              walks := [mkWalk 0 1 false] |}.
Proof.
  apply (C2_rejected_walk_noise_records sizeof_four_floats
           (isCluster_model cfg_noise) cfg_noise no_transform frame_three
           [0; 48; 96] 0 1 empty_buffers); reflexivity.
Defined.

(** C3: within a ring of two points or more the walks are closed in
    increasing order and are consecutive non-empty ranges, but they cover the
    positions 0, ..., size - 2 only: the last position of the ring, which the
    loop reads as [next_data_idx] and line 159 determines to be in the same
    walk, belongs to no walk.  On the five-point ring the only walk is
    [0, 3] and position 4 is left out. *)
Theorem C3_last_position_in_no_walk (sizeof_PointXYZI : nat)
    (isCluster : PointCloud2 PointXYZIRADRT.t → nat * nat → Z → bool)
    (cfg : Config) (transform_info : TransformInfo)
    (input : PointCloud2 PointXYZIRADRT.t) (indices : list nat)
    (b : Buffers) :
  2 ≤ length indices →
  (∃ ws,
     walks (filter_ring sizeof_PointXYZI isCluster cfg transform_info input
              b indices) = walks b ++ ws
     ∧ Forall (λ w, (walk_first w ≤ walk_last w)%Z) ws
     ∧ concat (map walk_range ws)
       = int_range 0 (Z.of_nat (length indices) - 2)
     ∧ (Z.of_nat (length indices) - 1)%Z ∈ visited indices
     ∧ (Z.of_nat (length indices) - 1)%Z ∉ concat (map walk_range ws))
  ∧ ∃ scenario,
      run_compose default_config frame_five = Done scenario
      ∧ walks scenario = [mkWalk 0 3 true]
      ∧ 4%Z ∈ visited [0; 48; 96; 144; 192]
      ∧ 4%Z ∉ walk_range (mkWalk 0 3 true).
Proof.
  intros Hsize. split.
  - destruct (filter_ring_cover sizeof_PointXYZI isCluster cfg transform_info
                input indices b) as (ws & Hws & Hcover & Hne).
    exists ws. split_and!; [done|done|done| |].
    + unfold visited. case_decide; [lia|]. apply elem_of_int_range. lia.
    + rewrite Hcover, elem_of_int_range. lia.
  - eexists. split; [by vm_compute|]. split; [done|]. split.
    + apply elem_of_int_range. simpl. lia.
    + unfold walk_range. rewrite elem_of_int_range. simpl. lia.
Qed.

Lemma C3_last_position_in_no_walk_witness :
  (∃ ws,
     walks (filter_ring sizeof_four_floats (isCluster_model default_config)
              default_config no_transform frame_five empty_buffers
              [0; 48; 96; 144; 192]) = walks empty_buffers ++ ws
     ∧ Forall (λ w, (walk_first w ≤ walk_last w)%Z) ws
     ∧ concat (map walk_range ws)
       = int_range 0 (Z.of_nat (length [0; 48; 96; 144; 192]) - 2)
     ∧ (Z.of_nat (length [0; 48; 96; 144; 192]) - 1)%Z
       ∈ visited [0; 48; 96; 144; 192]
     ∧ (Z.of_nat (length [0; 48; 96; 144; 192]) - 1)%Z
       ∉ concat (map walk_range ws))
  ∧ ∃ scenario,
      run_compose default_config frame_five = Done scenario
      ∧ walks scenario = [mkWalk 0 3 true]
      ∧ 4%Z ∈ visited [0; 48; 96; 144; 192]
      ∧ 4%Z ∉ walk_range (mkWalk 0 3 true).
Proof.
  apply (C3_last_position_in_no_walk sizeof_four_floats
           (isCluster_model default_config) default_config no_transform
           frame_five [0; 48; 96; 144; 192] empty_buffers).
  simpl. lia.
Defined.

(** X2: within a walk every consecutive pair of points satisfies the
    continuity condition, and a walk that ends before position size - 2,
    the last one the loop stands on, is followed by a pair that does not:
    the walks are the maximal continuous runs. *)
Theorem walks_are_maximal_continuous_runs (sizeof_PointXYZI : nat)
    (isCluster : PointCloud2 PointXYZIRADRT.t → nat * nat → Z → bool)
    (cfg : Config) (transform_info : TransformInfo)
    (input : PointCloud2 PointXYZIRADRT.t) (indices : list nat)
    (b : Buffers) :
  ∃ ws,
    walks (filter_ring sizeof_PointXYZI isCluster cfg transform_info input
             b indices) = walks b ++ ws
    ∧ Forall (λ w,
        (∀ i, (walk_first w ≤ i < walk_last w)%Z →
              continuous_at cfg input indices i = true)
        ∧ ((walk_last w < Z.of_nat (length indices) - 2)%Z →
           continuous_at cfg input indices (walk_last w) = false)) ws.
Proof.
  destruct (filter_ring_walks sizeof_PointXYZI isCluster cfg transform_info
              input indices b) as (ws & Hws & Hcont & _).
  by exists ws.
Qed.

(** X3: the accepted buffer grows, ring by ring, by the records of the
    kept walks: all their points, in walk order and in position order, and
    nothing of a rejected walk. *)
Theorem accepted_buffer_holds_kept_walks (sizeof_PointXYZI : nat)
    (isCluster : PointCloud2 PointXYZIRADRT.t → nat * nat → Z → bool)
    (cfg : Config) (transform_info : TransformInfo)
    (input : PointCloud2 PointXYZIRADRT.t) (indices : list nat)
    (b : Buffers) :
  ∃ ws,
    walks (filter_ring sizeof_PointXYZI isCluster cfg transform_info input
             b indices) = walks b ++ ws
    ∧ output_data (filter_ring sizeof_PointXYZI isCluster cfg transform_info
                     input b indices)
      = output_data b
        ++ concat (map (accepted_records transform_info input indices) ws).
Proof.
  destruct (filter_ring_walks sizeof_PointXYZI isCluster cfg transform_info
              input indices b) as (ws & Hws & _ & Hout).
  by exists ws.
Qed.

Section Provenance.
Variable sizeof_PointXYZI : nat.
Variable isCluster : PointCloud2 PointXYZIRADRT.t → nat * nat → Z → bool.
Variable cfg : Config.
Variable transform_info : TransformInfo.
Variable input : PointCloud2 PointXYZIRADRT.t.
Hypothesis step_positive : 0 < point_step input.

Local Abbreviation walk_loop :=
  (walk_loop sizeof_PointXYZI isCluster cfg transform_info input).
Local Abbreviation from_input := (is_input_record transform_info input).

Local Abbreviation grown := (grown_by_input transform_info input).

Lemma grown_refl (b : Buffers) : grown b b.
Proof. exists [], []. by rewrite !app_nil_r. Qed.

Lemma grown_trans (b1 b2 b3 : Buffers) : grown b1 b2 → grown b2 b3 → grown b1 b3.
Proof.
  intros (a1 & n1 & Ha1 & Hn1 & Fa1 & Fn1) (a2 & n2 & Ha2 & Hn2 & Fa2 & Fn2).
  exists (a1 ++ a2), (n1 ++ n2).
  rewrite Ha2, Hn2, Ha1, Hn1, <- !app_assoc.
  split_and!; [done|done|by apply Forall_app|by apply Forall_app].
Qed.

Lemma record_at_position (indices : list nat) (i : Z) :
  Forall (valid_offset input) indices →
  (0 ≤ i < Z.of_nat (length indices))%Z →
  from_input
    (to_PointXYZI transform_info (input_at input (at_int indices i))).
Proof.
  intros Hvalid Hi. unfold at_int.
  destruct (lookup_lt_is_Some_2 indices (Z.to_nat i)) as [o Ho]; [lia|].
  rewrite (list_lookup_total_correct _ _ _ Ho).
  destruct (Forall_lookup_1 _ _ _ _ Hvalid Ho) as (k & p & -> & Hk).
  exists p. split; [by eapply list_elem_of_lookup_2|].
  by rewrite (input_at_offset input k p).
Qed.

Lemma records_at_positions {A : Type} (indices : list nat) (f : A → Z)
    (l : list A) :
  Forall (valid_offset input) indices →
  Forall (λ a, (0 ≤ f a < Z.of_nat (length indices))%Z) l →
  Forall from_input
    (map (λ a, to_PointXYZI transform_info
                 (input_at input (at_int indices (f a)))) l).
Proof.
  intros Hvalid Hl. apply Forall_fmap. eapply Forall_impl; [exact Hl|].
  simpl. intros a Ha. by apply record_at_position.
Qed.

Lemma int_range_within (indices : list nat) (first last : Z) :
  (0 ≤ first)%Z → (last < Z.of_nat (length indices))%Z →
  Forall (λ i, (0 ≤ i < Z.of_nat (length indices))%Z) (int_range first last).
Proof.
  intros Hf Hl. apply Forall_forall. intros i Hi.
  apply elem_of_int_range in Hi. lia.
Qed.

Lemma close_walk_grown (indices : list nat) (first last : Z) (b : Buffers) :
  Forall (valid_offset input) indices →
  (0 ≤ first ≤ last)%Z → (last < Z.of_nat (length indices))%Z →
  grown b (close_walk sizeof_PointXYZI isCluster cfg transform_info input
             indices first last b).
Proof.
  intros Hvalid Hf Hl. unfold close_walk.
  destruct (classify isCluster input indices first last).
  - destruct (foldl_push_output_data sizeof_PointXYZI transform_info input
                (at_int indices) (int_range first last)
                (record_walk (mkWalk first last true) b)) as [H1 H2].
    exists (map (λ i : Z, to_PointXYZI transform_info (input_at input (at_int indices i))) (int_range first last)), [].
    rewrite H1, H2, app_nil_r. simpl.
    split_and!; [done|done| |done].
    apply (records_at_positions indices (λ i, i)); [done|].
    apply int_range_within; lia.
  - destruct (publish_noise_points_ cfg);
      [|exists [], []; simpl; by rewrite !app_nil_r].
    destruct (foldl_push_noise_data sizeof_PointXYZI transform_info input
                (λ _ : Z, at_int indices first) (int_range first last)
                (record_walk (mkWalk first last false) b)) as [H1 H2].
    exists [], (map (λ _ : Z, to_PointXYZI transform_info
                              (input_at input (at_int indices first)))
                  (int_range first last)).
    rewrite H1, H2, app_nil_r. simpl.
    split_and!; [done|done|done|].
    apply (records_at_positions indices (λ _ : Z, first)); [done|].
    apply Forall_forall. intros i _. lia.
Qed.

Lemma close_last_walk_grown (indices : list nat) (first last : Z)
    (b : Buffers) :
  Forall (valid_offset input) indices →
  (0 ≤ first ≤ last)%Z → (last < Z.of_nat (length indices))%Z →
  grown b (close_last_walk sizeof_PointXYZI isCluster cfg transform_info
             input indices first last b).
Proof.
  intros Hvalid Hf Hl. unfold close_last_walk.
  destruct (classify isCluster input indices first last).
  - destruct (foldl_push_output_data sizeof_PointXYZI transform_info input
                (at_int indices) (int_range first last)
                (record_walk (mkWalk first last true) b)) as [H1 H2].
    exists (map (λ i : Z, to_PointXYZI transform_info (input_at input (at_int indices i))) (int_range first last)), [].
    rewrite H1, H2, app_nil_r. simpl.
    split_and!; [done|done| |done].
    apply (records_at_positions indices (λ i, i)); [done|].
    apply int_range_within; lia.
  - destruct (publish_noise_points_ cfg);
      [|exists [], []; simpl; by rewrite !app_nil_r].
    destruct (foldl_push_noise_data sizeof_PointXYZI transform_info input
                (at_int indices) (int_range first (last - 1))
                (record_walk (mkWalk first last false) b)) as [H1 H2].
    exists [], (map (λ i : Z, to_PointXYZI transform_info (input_at input (at_int indices i))) (int_range first (last - 1))).
    rewrite H1, H2, app_nil_r. simpl.
    split_and!; [done|done|done|].
    apply (records_at_positions indices (λ i, i)); [done|].
    apply int_range_within; lia.
Qed.

Lemma walk_loop_grown (indices : list nat) (n : nat) :
  Forall (valid_offset input) indices →
  ∀ (idx : nat) (first last : Z) (b : Buffers) first' last' b',
    (0 ≤ first ≤ Z.of_nat idx)%Z → idx + n < length indices →
    walk_loop indices n idx first last b = (first', last', b') →
    grown b b'.
Proof.
  intros Hvalid.
  induction n as [|n IH]; intros idx first last b first' last' b' Hf Hn Hloop.
  - simpl in Hloop. inversion Hloop; subst. apply grown_refl.
  - simpl in Hloop. destruct (same_walk cfg _ _).
    + apply IH in Hloop; [done|lia|lia].
    + apply IH in Hloop; [|lia|lia].
      eapply grown_trans; [|exact Hloop].
      apply close_walk_grown; [done|lia|lia].
Qed.

Lemma filter_ring_grown (indices : list nat) (b : Buffers) :
  Forall (valid_offset input) indices →
  grown b (filter_ring sizeof_PointXYZI isCluster cfg transform_info input
             b indices).
Proof.
  intros Hvalid. unfold filter_ring. case_decide as Hlen; [apply grown_refl|].
  destruct (walk_loop indices (length indices - 1) 0 0%Z (-1)%Z b)
    as [[first' last'] b'] eqn:Hloop.
  assert (0 ≤ 0 ≤ Z.of_nat 0)%Z as Hstart by lia.
  pose proof (walk_loop_cover sizeof_PointXYZI isCluster cfg transform_info
                input indices _ 0 _ _ b first' last' b' Hstart Hloop)
    as (Hrange & Hlast & _).
  apply walk_loop_grown in Hloop; [|done|lia|lia].
  destruct (length indices - 1) as [|n] eqn:Hn; [lia|].
  destruct (first' >? last')%Z eqn:Hcmp; [done|].
  eapply grown_trans; [exact Hloop|].
  apply close_last_walk_grown; [done|lia|lia].
Qed.

Lemma filter_rings_grown (ring2indices : list (list nat)) :
  Forall (Forall (valid_offset input)) ring2indices →
  ∀ b, grown b (foldl (filter_ring sizeof_PointXYZI isCluster cfg
                         transform_info input) b ring2indices).
Proof.
  induction 1 as [|indices rest Hvalid _ IH]; intros b; simpl.
  - apply grown_refl.
  - eapply grown_trans; [by apply filter_ring_grown|apply IH].
Qed.

Lemma ring2indices_valid (ring2indices : list (list nat)) :
  ring2indices_of cfg input = Done ring2indices →
  Forall (Forall (valid_offset input)) ring2indices.
Proof.
  intros Hdone. apply Forall_lookup_2. intros ring indices Hlook.
  apply Forall_forall. intros o Ho.
  destruct (ring_partition_ring _ _ _ _ _ Hdone _ _ _ Hlook Ho)
    as [(old & Hold & Hin)|(k & p & -> & Hk & _)].
  - unfold ring2indices_init in Hold.
    apply lookup_replicate in Hold as [-> _]. by apply elem_of_nil in Hin.
  - by exists k, p.
Qed.

Lemma compose_grown (b : Buffers) :
  compose sizeof_PointXYZI isCluster cfg transform_info input = Done b →
  Forall from_input (output_data b) ∧ Forall from_input (noise_points_data b).
Proof.
  unfold compose.
  destruct (ring2indices_of cfg input) as [ring2indices|e|f] eqn:Hpart;
    simpl; [|discriminate|discriminate].
  intros Hb. inversion Hb; subst b. clear Hb.
  destruct (filter_rings_grown ring2indices (ring2indices_valid _ Hpart)
              empty_buffers) as (accepted & noise & Ha & Hn & Fa & Fn).
  unfold filter_rings. rewrite Ha, Hn. done.
Qed.
End Provenance.

Lemma elem_of_resize {A : Type} (n : nat) (x r : A) (l : list A) :
  r ∈ resize n x l → r ∈ l ∨ r = x.
Proof.
  rewrite resize_spec.
  intros Hr. apply elem_of_app in Hr as [Hr|Hr].
  - left. apply elem_of_take in Hr as (i & Hi & _).
    by eapply list_elem_of_lookup_2.
  - right. by apply elem_of_replicate in Hr as [-> _].
Qed.

(** X4: every record that the compositor writes to the accepted or to the
    noise buffer is the image of a point of the input: the intensity is the
    point's, and so are x, y and z when no transform is applied.  The clouds
    handed downstream, after [setUpPointCloudFormat], hold records of these
    buffers and zero-filled records only: a published record that is not
    the image of an input point is all zeros. *)
Theorem emitted_records_are_input_points (sizeof_PointXYZI : nat)
    (isCluster : PointCloud2 PointXYZIRADRT.t → nat * nat → Z → bool)
    (cfg : Config) (transform_info : TransformInfo)
    (input : PointCloud2 PointXYZIRADRT.t) (b : Buffers) :
  0 < point_step input →
  compose sizeof_PointXYZI isCluster cfg transform_info input = Done b →
  (∀ r, r ∈ output_data b ++ noise_points_data b →
        ∃ p, p ∈ data input
             ∧ r = to_PointXYZI transform_info p
             ∧ PointXYZI.intensity r = PointXYZIRADRT.intensity p
             ∧ (need_transform transform_info = false → r = copied p))
  ∧ ∀ r,
      r ∈ data (setUpPointCloudFormat input
                  (composed sizeof_PointXYZI (output_data b)) (output_size b))
          ++ data (setUpPointCloudFormat input
                     (composed sizeof_PointXYZI (noise_points_data b))
                     (noise_points_size b)) →
      r = PointXYZI.zero
      ∨ ∃ p, p ∈ data input ∧ r = to_PointXYZI transform_info p.
Proof.
  intros Hstep Hb.
  destruct (compose_grown sizeof_PointXYZI isCluster cfg transform_info input
              Hstep b Hb) as [Hout Hnoise].
  assert (∀ r, r ∈ output_data b ++ noise_points_data b →
               is_input_record transform_info input r) as Hwritten.
  { intros r Hr. apply elem_of_app in Hr as [Hr|Hr].
    - by apply (proj1 (Forall_forall _ _) Hout).
    - by apply (proj1 (Forall_forall _ _) Hnoise). }
  split.
  - intros r Hr. destruct (Hwritten r Hr) as (p & Hp & ->).
    exists p. split_and!; [done|done| |].
    + unfold to_PointXYZI. by destruct (need_transform transform_info).
    + intros Hno. unfold to_PointXYZI. by rewrite Hno.
  - intros r Hr. unfold setUpPointCloudFormat, data_resize in Hr.
    simpl in Hr.
    assert (r ∈ output_data b ++ noise_points_data b ∨ r = PointXYZI.zero)
      as [Hin|Hzero]; [|right; by apply Hwritten|by left].
    apply elem_of_app in Hr as [Hr|Hr];
      apply elem_of_resize in Hr as [Hr| ->]; try by right.
    + apply elem_of_resize in Hr as [Hr| ->]; [|by right].
      left. apply elem_of_app. by left.
    + apply elem_of_resize in Hr as [Hr| ->]; [|by right].
      left. apply elem_of_app. by right.
Qed.

Lemma emitted_records_are_input_points_witness :
  (∀ r, r ∈ map copied (take 4 (data frame_five)) ++ [] →
        ∃ p, p ∈ data frame_five
             ∧ r = to_PointXYZI no_transform p
             ∧ PointXYZI.intensity r = PointXYZIRADRT.intensity p
             ∧ (need_transform no_transform = false → r = copied p))
  ∧ ∀ r,
      r ∈ data (setUpPointCloudFormat frame_five
                  (composed sizeof_four_floats
                     (map copied (take 4 (data frame_five))))
                  (4 * sizeof_four_floats))
          ++ data (setUpPointCloudFormat frame_five
                     (composed sizeof_four_floats []) 0) →
      r = PointXYZI.zero
      ∨ ∃ p, p ∈ data frame_five ∧ r = to_PointXYZI no_transform p.
Proof.
  apply (emitted_records_are_input_points sizeof_four_floats
           (isCluster_model default_config) default_config no_transform
           frame_five
           (mkBuffers (map copied (take 4 (data frame_five)))
              (4 * sizeof_four_floats) [] 0 [mkWalk 0 3 true])).
  - simpl. lia.
  - reflexivity.
Defined.

(** X5: neither buffer receives more records than the frame has points,
    and each byte counter is the record count times [sizeof(PointXYZI)]: the
    stores stay inside the [point_step * width] bytes allocated for a cloud
    whose [width] is its number of points. *)
Theorem buffers_hold_at_most_the_input (sizeof_PointXYZI : nat)
    (isCluster : PointCloud2 PointXYZIRADRT.t → nat * nat → Z → bool)
    (cfg : Config) (transform_info : TransformInfo)
    (input : PointCloud2 PointXYZIRADRT.t) (b : Buffers) :
  compose sizeof_PointXYZI isCluster cfg transform_info input = Done b →
  length (output_data b) ≤ length (data input)
  ∧ length (noise_points_data b) ≤ length (data input)
  ∧ output_size b = sizeof_PointXYZI * length (output_data b)
  ∧ noise_points_size b = sizeof_PointXYZI * length (noise_points_data b).
Proof. apply compose_within_buffers. Qed.

Lemma buffers_hold_at_most_the_input_witness :
  length (map copied (take 4 (data frame_five))) ≤ length (data frame_five)
  ∧ length ([] : list PointXYZI.t) ≤ length (data frame_five)
  ∧ 4 * sizeof_four_floats
    = sizeof_four_floats * length (map copied (take 4 (data frame_five)))
  ∧ 0 = sizeof_four_floats * length ([] : list PointXYZI.t).
Proof.
  apply (buffers_hold_at_most_the_input sizeof_four_floats
           (isCluster_model default_config) default_config no_transform
           frame_five
           (mkBuffers (map copied (take 4 (data frame_five)))
              (4 * sizeof_four_floats) [] 0 [mkWalk 0 3 true])).
  reflexivity.
Defined.

Lemma setUpPointCloudFormat_padded (sizeof_PointXYZI : nat)
    (input : PointCloud2 PointXYZIRADRT.t) (records : list PointXYZI.t) :
  0 < sizeof_PointXYZI →
  length records ≤ width input →
  setUpPointCloudFormat input (composed sizeof_PointXYZI records)
    (sizeof_PointXYZI * length records)
  = mkPointCloud2
      (records ++ replicate (width input - length records) PointXYZI.zero)
      sizeof_PointXYZI (width input) 1 (is_bigendian input) (is_dense input).
Proof.
  intros Hsize Hfit.
  unfold setUpPointCloudFormat, data_resize, data_size, composed. simpl.
  rewrite (Nat.mul_comm sizeof_PointXYZI (length records)).
  rewrite Nat.div_mul by lia. rewrite resize_all.
  rewrite (Nat.mul_comm sizeof_PointXYZI (width input)).
  rewrite Nat.div_mul by lia. rewrite resize_ge by done.
  f_equal. rewrite length_app, length_replicate.
  replace (length records + (width input - length records)) with (width input)
    by lia.
  rewrite Nat.mul_comm. apply Nat.div_mul. lia.
Qed.

(** X6: for a cloud whose [width] is its number of points the cloud
    handed downstream holds the accepted records followed by zero-filled
    records up to [width]; its [width] is the input's, its [height] 1, and
    [is_bigendian] and [is_dense] are the input's.  The published noise
    cloud is padded in the same way. *)
Theorem exposed_buffers_are_zero_padded (sizeof_PointXYZI : nat)
    (isCluster : PointCloud2 PointXYZIRADRT.t → nat * nat → Z → bool)
    (cfg : Config) (transform_info : TransformInfo)
    (input : PointCloud2 PointXYZIRADRT.t) (messages : list Message)
    (output : PointCloud2 PointXYZI.t) :
  0 < sizeof_PointXYZI →
  width input = length (data input) →
  faster_filter sizeof_PointXYZI isCluster cfg transform_info input
  = (messages, Done output) →
  ∃ b,
    compose sizeof_PointXYZI isCluster cfg transform_info input = Done b
    ∧ output
      = mkPointCloud2
          (output_data b
           ++ replicate (width input - length (output_data b)) PointXYZI.zero)
          sizeof_PointXYZI (width input) 1
          (is_bigendian input) (is_dense input)
    ∧ (publish_noise_points_ cfg = true →
       ∃ rest,
         messages
         = NoisePoints
             (mkPointCloud2
                (noise_points_data b
                 ++ replicate (width input - length (noise_points_data b))
                      PointXYZI.zero)
                sizeof_PointXYZI (width input) 1
                (is_bigendian input) (is_dense input))
           :: rest).
Proof.
  intros Hsize Hwidth Hrun. unfold faster_filter in Hrun.
  destruct (compose sizeof_PointXYZI isCluster cfg transform_info input)
    as [b|e|f] eqn:Hb; [|discriminate Hrun|discriminate Hrun].
  destruct (compose_within_buffers _ _ _ _ _ b Hb) as (H1 & H2 & H3 & H4).
  exists b. split; [done|].
  rewrite H3, H4 in Hrun.
  rewrite !setUpPointCloudFormat_padded in Hrun by lia.
  destruct (publish_noise_points_ cfg).
  - destruct (visibility_messages cfg input) as [rest|e|f];
      inversion Hrun; subst. split; [done|]. intros _. by exists rest.
  - inversion Hrun; subst. split; [done|]. intros Hoff. discriminate Hoff.
Qed.

Lemma exposed_buffers_are_zero_padded_witness :
  ∃ b,
    run_compose default_config frame_five = Done b
    ∧ mkPointCloud2
        (map copied (take 4 (data frame_five)) ++ [PointXYZI.zero])
        sizeof_four_floats 5 1 false true
      = mkPointCloud2
          (output_data b
           ++ replicate (width frame_five - length (output_data b))
                PointXYZI.zero)
          sizeof_four_floats (width frame_five) 1
          (is_bigendian frame_five) (is_dense frame_five)
    ∧ (publish_noise_points_ default_config = true →
       ∃ rest,
         []
         = NoisePoints
             (mkPointCloud2
                (noise_points_data b
                 ++ replicate (width frame_five
                               - length (noise_points_data b))
                      PointXYZI.zero)
                sizeof_four_floats (width frame_five) 1
                (is_bigendian frame_five) (is_dense frame_five))
           :: rest).
Proof.
  apply (exposed_buffers_are_zero_padded sizeof_four_floats
           (isCluster_model default_config) default_config no_transform
           frame_five []).
  - unfold sizeof_four_floats. lia.
  - reflexivity.
  - reflexivity.
Defined.

Section NoiseDisabled.
Variable sizeof_PointXYZI : nat.
Variable isCluster : PointCloud2 PointXYZIRADRT.t → nat * nat → Z → bool.
Variable cfg : Config.
Variable transform_info : TransformInfo.
Variable input : PointCloud2 PointXYZIRADRT.t.
Hypothesis noise_off : publish_noise_points_ cfg = false.

Local Abbreviation walk_loop :=
  (walk_loop sizeof_PointXYZI isCluster cfg transform_info input).

Lemma close_walk_noise_off (indices : list nat) (first last : Z)
    (b : Buffers) :
  noise_points_data (close_walk sizeof_PointXYZI isCluster cfg transform_info
                       input indices first last b)
  = noise_points_data b.
Proof.
  unfold close_walk. rewrite noise_off.
  destruct (classify isCluster input indices first last); [|done].
  by destruct (foldl_push_output_data sizeof_PointXYZI transform_info input
                 (at_int indices) (int_range first last)
                 (record_walk (mkWalk first last true) b)) as [_ ->].
Qed.

Lemma close_last_walk_noise_off (indices : list nat) (first last : Z)
    (b : Buffers) :
  noise_points_data (close_last_walk sizeof_PointXYZI isCluster cfg
                       transform_info input indices first last b)
  = noise_points_data b.
Proof.
  unfold close_last_walk. rewrite noise_off.
  destruct (classify isCluster input indices first last); [|done].
  by destruct (foldl_push_output_data sizeof_PointXYZI transform_info input
                 (at_int indices) (int_range first last)
                 (record_walk (mkWalk first last true) b)) as [_ ->].
Qed.

Lemma walk_loop_noise_off (indices : list nat) (n : nat) :
  ∀ (idx : nat) (first last : Z) (b : Buffers) first' last' b',
    walk_loop indices n idx first last b = (first', last', b') →
    noise_points_data b' = noise_points_data b.
Proof.
  induction n as [|n IH]; intros idx first last b first' last' b' Hloop.
  - simpl in Hloop. by inversion Hloop; subst.
  - simpl in Hloop. destruct (same_walk cfg _ _).
    + by apply IH in Hloop.
    + apply IH in Hloop. by rewrite Hloop, close_walk_noise_off.
Qed.

Lemma filter_rings_noise_off (ring2indices : list (list nat)) :
  ∀ b, noise_points_data
         (foldl (filter_ring sizeof_PointXYZI isCluster cfg transform_info
                   input) b ring2indices)
       = noise_points_data b.
Proof.
  induction ring2indices as [|indices rest IH]; intros b; simpl; [done|].
  rewrite IH. unfold filter_ring. case_decide; [done|].
  destruct (walk_loop indices (length indices - 1) 0 0%Z (-1)%Z b)
    as [[first' last'] b'] eqn:Hloop.
  apply walk_loop_noise_off in Hloop.
  destruct (first' >? last')%Z; [done|].
  by rewrite close_last_walk_noise_off.
Qed.
End NoiseDisabled.

(** X7: with [publish_noise_points] false no record is written to the
    noise buffer, its byte counter stays 0 and nothing is published. *)
Theorem noise_disabled_leaves_no_trace (sizeof_PointXYZI : nat)
    (isCluster : PointCloud2 PointXYZIRADRT.t → nat * nat → Z → bool)
    (cfg : Config) (transform_info : TransformInfo)
    (input : PointCloud2 PointXYZIRADRT.t) (b : Buffers) :
  publish_noise_points_ cfg = false →
  compose sizeof_PointXYZI isCluster cfg transform_info input = Done b →
  noise_points_data b = []
  ∧ noise_points_size b = 0
  ∧ fst (faster_filter sizeof_PointXYZI isCluster cfg transform_info input)
    = [].
Proof.
  intros Hoff Hb.
  assert (noise_points_data b = []) as Hdata.
  { unfold compose in Hb.
    destruct (ring2indices_of cfg input) as [ring2indices|e|f];
      simpl in Hb; [|discriminate Hb|discriminate Hb].
    inversion Hb; subst b. unfold filter_rings.
    by rewrite filter_rings_noise_off. }
  destruct (compose_within_buffers _ _ _ _ _ b Hb) as (_ & _ & _ & H4).
  split; [done|]. split; [rewrite H4, Hdata; simpl; lia|].
  by apply faster_filter_silent.
Qed.

Lemma noise_disabled_leaves_no_trace_witness :
  ([] : list PointXYZI.t) = []
  ∧ 0 = 0
  ∧ fst (run_filter default_config frame_five) = [].
Proof.
  apply (noise_disabled_leaves_no_trace sizeof_four_floats
           (isCluster_model default_config) default_config no_transform
           frame_five
           (mkBuffers (map copied (take 4 (data frame_five)))
              (4 * sizeof_four_floats) [] 0 [mkWalk 0 3 true]));
    reflexivity.
Defined.

(** ** The continuity condition *)

(** X8: two points of non-negative distance continue a walk only if both
    distances are positive and [distance_ratio] is above 1: a return at
    distance 0 always ends the walk, and a ratio of 1 or less cuts every ring
    into single points. *)
Theorem continuity_needs_positive_distances (cfg : Config)
    (current next : PointXYZIRADRT.t) :
  (0 <= PointXYZIRADRT.distance current)%Q →
  (0 <= PointXYZIRADRT.distance next)%Q →
  same_walk cfg current next = true →
  (0 < PointXYZIRADRT.distance current)%Q
  ∧ (0 < PointXYZIRADRT.distance next)%Q
  ∧ (1 < distance_ratio_ cfg)%Q.
Proof.
  intros Hc Hn Hsame. unfold same_walk in Hsame.
  apply andb_true_iff in Hsame as [Hdist _]. apply Qltb_lt in Hdist.
  set (c := PointXYZIRADRT.distance current) in *.
  set (d := PointXYZIRADRT.distance next) in *.
  set (r := distance_ratio_ cfg) in *.
  destruct (Qlt_le_dec d c) as [Hlt|Hle].
  - rewrite (Q.max_l c d), (Q.min_r c d) in Hdist by lra.
    assert (0 < d)%Q as Hd.
    { destruct (Qlt_le_dec 0 d) as [?|Hd0]; [done|].
      assert (d == 0)%Q as Hz by lra. rewrite Hz in Hdist. lra. }
    split_and!; [lra|done|].
    destruct (Qlt_le_dec 1 r) as [?|Hr]; [done|]. exfalso.
    assert (d * r <= d * 1)%Q by (apply Qmult_le_l; lra). lra.
  - rewrite (Q.max_r c d), (Q.min_l c d) in Hdist by lra.
    assert (0 < c)%Q as Hc0.
    { destruct (Qlt_le_dec 0 c) as [?|Hc0]; [done|].
      assert (c == 0)%Q as Hz by lra. rewrite Hz in Hdist. lra. }
    split_and!; [done|lra|].
    destruct (Qlt_le_dec 1 r) as [?|Hr]; [done|]. exfalso.
    assert (c * r <= c * 1)%Q by (apply Qmult_le_l; lra). lra.
Qed.

Lemma continuity_needs_positive_distances_witness :
  (0 < PointXYZIRADRT.distance (make_point 10 0 0 1 0 0 10))%Q
  ∧ (0 < PointXYZIRADRT.distance (make_point 10 (1 # 100) 0 2 0 10 10))%Q
  ∧ (1 < distance_ratio_ default_config)%Q.
Proof.
  apply (continuity_needs_positive_distances default_config
           (make_point 10 0 0 1 0 0 10)
           (make_point 10 (1 # 100) 0 2 0 10 10)); by vm_compute.
Defined.

(** X9: for whole centidegrees in [0, 36000), which binary32 holds and
    subtracts exactly, the azimuth test of the continuity condition passes
    exactly when the azimuth grows by less than 100, or falls by more than
    35900 (the wrap-around); any other backward step ends the walk. *)
Theorem azimuth_step_tolerance (current next : Z) :
  (0 <= current < 36000)%Z → (0 <= next < 36000)%Z →
  Qltb (azimuth_diff (inject_Z current) (inject_Z next)) 100 = true
  ↔ (0 <= next - current < 100)%Z ∨ (next - current < -35900)%Z.
Proof.
  intros Hcurrent Hnext. rewrite Qltb_lt.
  rewrite azimuth_diff_whole by done.
  change 100%Q with (inject_Z 100). rewrite <- Zlt_Qlt.
  destruct (next - current <? 0)%Z eqn:Hsign; lia.
Qed.

Lemma azimuth_step_tolerance_witness :
  Qltb (azimuth_diff (inject_Z 35950) (inject_Z 50)) 100 = true
  ↔ (0 <= 50 - 35950 < 100)%Z ∨ (50 - 35950 < -35900)%Z.
Proof.
  apply (azimuth_step_tolerance 35950 50); lia.
Defined.

(** ** Faults of the histogram pass *)







(** X12: outside the azimuth/distance mode the resolution is 1000, and
    for [vertical_bins] between 0 and 2^31 - 1 (a row count that [cv::Size]
    takes as it is; the allocations are taken to succeed) the histogram pass
    runs to its end on every frame whose ring ids are below
    [vertical_bins]. *)
Theorem full_window_histogram_completes (cfg : Config)
    (input : PointCloud2 PointXYZIRADRT.t) :
  roi_mode_ cfg ≠ RoiAzimuthDistance →
  (0 ≤ vertical_bins_ cfg < 2 ^ 31)%Z →
  Forall (λ p, (Z.of_nat (PointXYZIRADRT.ring p) < vertical_bins_ cfg)%Z)
    (data input) →
  horizontal_resolution cfg = Done 1000%Z
  ∧ ∃ binary_image,
      createBinaryImage cfg input = Done binary_image
      ∧ Z.of_nat (length binary_image) = vertical_bins_ cfg.
Proof.
  intros Hroi Hbins Hrings.
  assert (u32 (vertical_bins_ cfg) = vertical_bins_ cfg) as Hu32
    by (unfold u32; apply Z.mod_small; lia).
  assert (horizontal_resolution cfg = Done 1000%Z
          ∧ float_to_uint (min_azimuth cfg / inject_Z 1000) = Done 0%Z)
    as [Hres Hfirst].
  { unfold horizontal_resolution, max_azimuth, min_azimuth.
    destruct (roi_mode_ cfg); [by vm_compute|by vm_compute|done]. }
  split; [done|].
  destruct (createBinaryImage_done cfg input 1000 0) as [binary Hbinary];
    [|done|discriminate|done|].
  { rewrite Hu32. eapply Forall_impl; [exact Hrings|]. simpl. lia. }
  exists binary. split; [done|].
  unfold createBinaryImage in Hbinary.
  destruct (frequency_image_of cfg input) as [image|e|f] eqn:Himage;
    simpl in Hbinary; [|discriminate Hbinary|discriminate Hbinary].
  inversion Hbinary; subst binary. unfold inRange. rewrite length_map.
  destruct (frequency_image_dimensions cfg input image Himage) as [Hrows _].
  rewrite Hrows, Hu32. lia.
Qed.

Lemma full_window_histogram_completes_witness :
  horizontal_resolution default_config = Done 1000%Z
  ∧ ∃ binary_image,
      createBinaryImage default_config frame_five = Done binary_image
      ∧ Z.of_nat (length binary_image) = vertical_bins_ default_config.
Proof.
  apply (full_window_histogram_completes default_config frame_five).
  - discriminate.
  - by vm_compute.
  - repeat (constructor; [vm_compute; done|]). constructor.
Defined.

(** ** The counts of the histogram *)

(** A sector counts at most the points that the scan passes. *)
Lemma segment_while_count (cfg : Config) (single_ring : list PointXYZIRADRT.t)
    (resolution i : Z) (n : nat) :
  ∀ (index : nat) (count : Z) index' count',
    segment_while cfg single_ring resolution i n index count
    = Done (index', count') →
    (count ≤ count' ≤ count + Z.of_nat n)%Z.
Proof.
  induction n as [|n IH]; intros index count index' count' Hscan;
    simpl in Hscan.
  - inversion Hscan; subst. lia.
  - destruct (sector_bound cfg resolution i) as [bound|e|f];
      simpl in Hscan; [|discriminate Hscan|discriminate Hscan].
    destruct (Qltb _ _).
    + apply IH in Hscan. destruct (in_roi cfg _); lia.
    + inversion Hscan; subst. lia.
Qed.

(** Where no point passes the region test the count stays as it is. *)
Lemma segment_while_outside_roi (cfg : Config)
    (single_ring : list PointXYZIRADRT.t) (resolution i : Z) (n : nat) :
  (∀ p, in_roi cfg p = false) →
  ∀ (index : nat) (count : Z) index' count',
    segment_while cfg single_ring resolution i n index count
    = Done (index', count') →
    count' = count.
Proof.
  intros Hroi.
  induction n as [|n IH]; intros index count index' count' Hscan;
    simpl in Hscan.
  - by inversion Hscan.
  - destruct (sector_bound cfg resolution i) as [bound|e|f];
      simpl in Hscan; [|discriminate Hscan|discriminate Hscan].
    destruct (Qltb _ _).
    + rewrite Hroi in Hscan. by apply IH in Hscan.
    + by inversion Hscan.
Qed.

(** What holds of the histogram after every write of a value with [V]
    holds of it after the scan of all rings, when every sector count has
    [V]. *)
Section HistogramValues.
Variable cfg : Config.
Variable P : Mat → Prop.
Variable V : Z → Prop.
Hypothesis P_mat_set :
  ∀ (row col : nat) (value : Z) (image : Mat),
    V value → P image → P (mat_set row col value image).
Hypothesis V_count :
  ∀ (single_ring : list PointXYZIRADRT.t) (resolution i : Z) (n index : nat)
    index' count,
    segment_while cfg single_ring resolution i n index 0%Z
    = Done (index', count) →
    V (Z.min count 255).

Lemma segment_for_values (single_ring : list PointXYZIRADRT.t)
    (resolution : Z) (ring_id : nat) (m : nat) :
  ∀ (i : Z) (index : nat) (frequency_image frequency_image' : Mat),
    segment_for cfg single_ring resolution ring_id m i index frequency_image
    = Done frequency_image' →
    P frequency_image → P frequency_image'.
Proof.
  induction m as [|m IH]; intros i index image image' Hfor Himage.
  - simpl in Hfor. by inversion Hfor; subst.
  - simpl in Hfor.
    destruct (segment_while cfg single_ring resolution i _ index 0%Z)
      as [[index' count]|e|f] eqn:Hscan; simpl in Hfor; [|discriminate Hfor|discriminate Hfor].
    apply IH in Hfor; [done|].
    apply P_mat_set; [|done]. by eapply V_count.
Qed.

Lemma analyze_rings_values (resolution : Z)
    (pcl_noise_ring_array : list (list PointXYZIRADRT.t)) :
  ∀ frequency_image frequency_image' : Mat,
    analyze_rings cfg resolution frequency_image pcl_noise_ring_array
    = Done frequency_image' →
    P frequency_image → P frequency_image'.
Proof.
  induction pcl_noise_ring_array as [|single_ring rest IH];
    intros image image' Hrings Himage.
  - simpl in Hrings. by inversion Hrings; subst.
  - simpl in Hrings.
    destruct (analyze_ring cfg resolution image single_ring)
      as [image1|e|f] eqn:Hring; simpl in Hrings; [|discriminate Hrings|discriminate Hrings].
    apply (IH image1 image' Hrings).
    unfold analyze_ring in Hring.
    destruct single_ring as [|front points].
    + by inversion Hring; subst.
    + by eapply segment_for_values.
Qed.

Lemma frequency_image_values (input : PointCloud2 PointXYZIRADRT.t)
    (frequency_image : Mat) :
  (∀ rows : nat, P (replicate rows (replicate (Z.to_nat horizontal_bins) 0%Z))) →
  frequency_image_of cfg input = Done frequency_image →
  P frequency_image.
Proof.
  intros Hinit Himage. unfold frequency_image_of in Himage.
  destruct (horizontal_resolution cfg) as [resolution|e|f];
    simpl in Himage; [|discriminate Himage|discriminate Himage].
  destruct (noise_ring_partition _ _) as [pcl_noise_ring_array|e|f];
    simpl in Himage; [|discriminate Himage|discriminate Himage].
  eapply analyze_rings_values; [exact Himage|apply Hinit].
Qed.
End HistogramValues.

Lemma mat_set_cells (C : Z → Prop) (row col : nat) (value : Z) (image : Mat) :
  C value → Forall (Forall C) image →
  Forall (Forall C) (mat_set row col value image).
Proof.
  intros Hvalue Himage. unfold mat_set. apply Forall_alter; [done|].
  intros cells _ Hcells. by apply Forall_insert.
Qed.

Lemma inRange_cells (lowerb upperb : Z) (image : Mat) :
  Forall (Forall (λ v, v = 0%Z ∨ v = 255%Z)) (inRange lowerb upperb image).
Proof.
  unfold inRange. apply Forall_fmap, Forall_true. intros cells.
  apply Forall_fmap, Forall_true. intros v. simpl.
  destruct (_ && _); auto.
Qed.

(** X13: the histogram has [vertical_bins] rows of 36 cells, every count
    lies in 0..255, and the image returned by [createBinaryImage] is its
    thresholding, which holds only 0 and 255. *)
Theorem histogram_shape_and_range (cfg : Config)
    (input : PointCloud2 PointXYZIRADRT.t) (frequency_image : Mat) :
  frequency_image_of cfg input = Done frequency_image →
  length frequency_image = Z.to_nat (u32 (vertical_bins_ cfg))
  ∧ Forall (λ cells, length cells = 36) frequency_image
  ∧ Forall (Forall (λ v, (0 ≤ v ≤ 255)%Z)) frequency_image
  ∧ createBinaryImage cfg input
    = Done (inRange (noise_threshold_ cfg) 255 frequency_image)
  ∧ Forall (Forall (λ v, v = 0%Z ∨ v = 255%Z))
      (inRange (noise_threshold_ cfg) 255 frequency_image).
Proof.
  intros Himage.
  destruct (frequency_image_dimensions cfg input frequency_image Himage)
    as [Hrows Hcols].
  split_and!; [done|done| | |apply inRange_cells].
  - apply (frequency_image_values cfg
             (Forall (Forall (λ v, (0 ≤ v ≤ 255)%Z)))
             (λ v, (0 ≤ v ≤ 255)%Z)) with input; [| | |done].
    + intros row col value image.
      apply (mat_set_cells (λ v, (0 ≤ v ≤ 255)%Z)).
    + intros single_ring resolution i n index index' count Hscan.
      apply segment_while_count in Hscan. lia.
    + intros rows. apply Forall_replicate, Forall_replicate. lia.
  - unfold createBinaryImage. by rewrite Himage.
Qed.

Lemma histogram_shape_and_range_witness :
  length [3%Z :: replicate 35 0%Z] = Z.to_nat (u32 (vertical_bins_ cfg_one_ring))
  ∧ Forall (λ cells, length cells = 36) [3%Z :: replicate 35 0%Z]
  ∧ Forall (Forall (λ v, (0 ≤ v ≤ 255)%Z)) [3%Z :: replicate 35 0%Z]
  ∧ createBinaryImage cfg_one_ring frame_last_sector
    = Done (inRange (noise_threshold_ cfg_one_ring) 255
              [3%Z :: replicate 35 0%Z])
  ∧ Forall (Forall (λ v, v = 0%Z ∨ v = 255%Z))
      (inRange (noise_threshold_ cfg_one_ring) 255 [3%Z :: replicate 35 0%Z]).
Proof.
  apply (histogram_shape_and_range cfg_one_ring frame_last_sector).
  by vm_compute.
Defined.

Lemma in_roi_reversed_y (cfg : Config) :
  roi_mode_ cfg = RoiFixedXyz → (y_min_ cfg <= y_max_ cfg)%Q →
  ∀ p, in_roi cfg p = false.
Proof.
  intros Hmode Hy p. unfold in_roi. rewrite Hmode. simpl.
  destruct (Qltb (y_max_ cfg) (PointXYZIRADRT.y p)) eqn:E1;
    [|by rewrite !andb_false_r].
  destruct (Qltb (PointXYZIRADRT.y p) (y_min_ cfg)) eqn:E2;
    [|by rewrite !andb_false_r].
  apply Qltb_lt in E1, E2. lra.
Qed.

Lemma countNonZero_zero (image : Mat) :
  Forall (Forall (λ v, v = 0%Z)) image → countNonZero image = 0%Z.
Proof.
  intros Hzero. unfold countNonZero.
  replace (filter _ (concat image)) with ([] : list Z); [done|].
  symmetry.
  induction Hzero as [|cells rest Hcells _ IH]; [done|].
  simpl. rewrite filter_app, IH, app_nil_r.
  clear IH. induction Hcells as [|v cells Hv _ IH]; [done|].
  rewrite filter_cons, decide_False by (intros H; by apply H). done.
Qed.

(** X14: in the xyz mode with [y_min <= y_max] (as declared) the region
    test asks for y above [y_max] and below [y_min], which no point passes:
    every count is 0 and, with a positive noise threshold, the visibility is
    1 whatever the frame. *)
Theorem xyz_roi_counts_nothing (cfg : Config)
    (input : PointCloud2 PointXYZIRADRT.t) (messages : list Message) :
  roi_mode_ cfg = RoiFixedXyz →
  (y_min_ cfg <= y_max_ cfg)%Q →
  (1 ≤ noise_threshold_ cfg)%Z →
  (0 < u32 (u32 (vertical_bins_ cfg) * 36))%Z →
  visibility_messages cfg input = Done messages →
  ∃ frequency_image binary_image visibility,
    frequency_image_of cfg input = Done frequency_image
    ∧ Forall (Forall (λ v, v = 0%Z)) frequency_image
    ∧ messages = [FrequencyImage binary_image; Visibility (Some visibility)]
    ∧ Forall (Forall (λ v, v = 0%Z)) binary_image
    ∧ (visibility == 1)%Q.
Proof.
  intros Hmode Hy Hthreshold Htotal Hvis.
  unfold visibility_messages, createBinaryImage in Hvis.
  destruct (frequency_image_of cfg input) as [image|e|f] eqn:Himage;
    simpl in Hvis; [|discriminate Hvis|discriminate Hvis].
  assert (Forall (Forall (λ v, v = 0%Z)) image) as Hzero.
  { apply (frequency_image_values cfg (Forall (Forall (λ v, v = 0%Z)))
             (λ v, v = 0%Z)) with input; [| | |done].
    - intros row col value img. apply (mat_set_cells (λ v, v = 0%Z)).
    - intros single_ring resolution i n index index' count Hscan.
      apply (segment_while_outside_roi cfg) in Hscan;
        [|by apply in_roi_reversed_y].
      by subst count.
    - intros rows. by apply Forall_replicate, Forall_replicate. }
  assert (Forall (Forall (λ v, v = 0%Z))
            (inRange (noise_threshold_ cfg) 255 image)) as Hbinary.
  { unfold inRange. apply Forall_fmap.
    eapply Forall_impl; [exact Hzero|]. intros cells Hcells. simpl.
    apply Forall_fmap. eapply Forall_impl; [exact Hcells|].
    intros v ->. simpl.
    replace (noise_threshold_ cfg <=? 0)%Z with false by (symmetry; lia).
    done. }
  unfold calculateFilledPixels in Hvis.
  rewrite (countNonZero_zero _ Hbinary) in Hvis.
  destruct (u32 (u32 (vertical_bins_ cfg) * 36) =? 0)%Z eqn:E; [lia|].
  simpl in Hvis. inversion Hvis; subst messages.
  eexists image, _, _. split_and!; [done|done|done|done|].
  unfold Qeq, Qminus, Qdiv, Qplus, Qopp, Qmult, Qinv, inject_Z. simpl.
  destruct (u32 (u32 (vertical_bins_ cfg) * 36)); simpl; lia.
Qed.

Lemma xyz_roi_counts_nothing_witness :
  ∃ frequency_image binary_image visibility,
    frequency_image_of cfg_xyz_one_ring frame_three
    = Done frequency_image
    ∧ Forall (Forall (λ v, v = 0%Z)) frequency_image
    ∧ [FrequencyImage [replicate 36 0%Z];
       Visibility (Some (1 - inject_Z 0 / inject_Z 36)%Q)]
      = [FrequencyImage binary_image; Visibility (Some visibility)]
    ∧ Forall (Forall (λ v, v = 0%Z)) binary_image
    ∧ (visibility == 1)%Q.
Proof.
  apply (xyz_roi_counts_nothing cfg_xyz_one_ring
           frame_three); by vm_compute.
Defined.

Lemma frequency_image_last_column (cfg : Config)
    (input : PointCloud2 PointXYZIRADRT.t) (frequency_image : Mat) :
  frequency_image_of cfg input = Done frequency_image →
  Forall (λ cells, cells !! 35 = Some 0%Z) frequency_image.
Proof.
  intros Himage. unfold frequency_image_of in Himage.
  destruct (horizontal_resolution cfg) as [resolution|e|f];
    simpl in Himage; [|discriminate Himage|discriminate Himage].
  destruct (noise_ring_partition _ _) as [pcl_noise_ring_array|e|f];
    simpl in Himage; [|discriminate Himage|discriminate Himage].
  eapply (analyze_rings_invariant cfg 35
            (Forall (λ cells, cells !! 35 = Some 0%Z)));
    [| |exact Himage|].
  - intros row col value image Hcol. apply mat_set_other_column. lia.
  - vm_compute. lia.
  - apply Forall_replicate. by vm_compute.
Qed.

(** A row of 36 cells whose last cell is 0 has at most 35 filled cells
    when the threshold is positive. *)
Lemma filled_in_row (noise_threshold : Z) (cells : list Z) :
  (1 ≤ noise_threshold)%Z → length cells = 36 → cells !! 35 = Some 0%Z →
  length (filter (λ v : Z, (noise_threshold ≤ v ≤ 255)%Z) cells) ≤ 35.
Proof.
  intros Hthreshold Hlen Hlast.
  rewrite <- (take_drop_middle cells 35 0%Z Hlast).
  rewrite filter_app, filter_cons, decide_False by lia.
  rewrite length_app.
  pose proof (length_filter (λ v : Z, (noise_threshold ≤ v ≤ 255)%Z)
                (take 35 cells)) as H1.
  pose proof (length_filter (λ v : Z, (noise_threshold ≤ v ≤ 255)%Z)
                (drop 36 cells)) as H2.
  rewrite length_take in H1. rewrite length_drop in H2. lia.
Qed.

Lemma filled_cells_last_column (noise_threshold : Z) (image : Mat) :
  (1 ≤ noise_threshold)%Z →
  Forall (λ cells, length cells = 36) image →
  Forall (λ cells, cells !! 35 = Some 0%Z) image →
  (filled_cells noise_threshold image ≤ 35 * Z.of_nat (length image))%Z.
Proof.
  intros Hthreshold Hcols Hlast. unfold filled_cells.
  induction image as [|cells rest IH]; [simpl; lia|].
  apply Forall_cons in Hcols as [Hc Hcols].
  apply Forall_cons in Hlast as [Hl Hlast].
  specialize (IH Hcols Hlast).
  pose proof (filled_in_row noise_threshold cells Hthreshold Hc Hl) as Hrow.
  simpl. rewrite filter_app, length_app. lia.
Qed.

(** X15: with a positive noise threshold the last sector of every ring is
    never filled, so the published visibility is at least 1/36 and at most
    1: it cannot reach 0. *)
Theorem visibility_is_at_least_one_in_36 (cfg : Config)
    (input : PointCloud2 PointXYZIRADRT.t) (messages : list Message) :
  (1 ≤ noise_threshold_ cfg)%Z →
  (0 < u32 (vertical_bins_ cfg))%Z →
  (u32 (vertical_bins_ cfg) * 36 < 2 ^ 32)%Z →
  visibility_messages cfg input = Done messages →
  ∃ binary_image visibility,
    messages = [FrequencyImage binary_image; Visibility (Some visibility)]
    ∧ (1 # 36 <= visibility)%Q
    ∧ (visibility <= 1)%Q.
Proof.
  intros Hthreshold Hbins Hfit Hvis.
  unfold visibility_messages, createBinaryImage in Hvis.
  destruct (frequency_image_of cfg input) as [image|e|f] eqn:Himage;
    simpl in Hvis; [|discriminate Hvis|discriminate Hvis].
  destruct (frequency_image_dimensions cfg input image Himage)
    as [Hrows Hcols].
  pose proof (frequency_image_last_column cfg input image Himage) as Hlast.
  pose proof (filled_cells_last_column (noise_threshold_ cfg) image
                Hthreshold Hcols Hlast) as Hfilled.
  pose proof (filled_cells_range (noise_threshold_ cfg) image) as Hrange.
  unfold calculateFilledPixels in Hvis. rewrite countNonZero_inRange in Hvis.
  set (rows := u32 (vertical_bins_ cfg)) in *.
  assert (u32 (rows * 36) = rows * 36)%Z as Htotal
    by (unfold u32 at 1; apply Z.mod_small; lia).
  rewrite Htotal in Hvis.
  destruct (rows * 36 =? 0)%Z eqn:E; [lia|].
  simpl in Hvis. inversion Hvis; subst messages.
  eexists _, _. split; [done|].
  set (filled := filled_cells (noise_threshold_ cfg) image) in *.
  assert (0 ≤ filled ≤ 35 * rows)%Z as Hf by lia.
  assert (0 < inject_Z (rows * 36))%Q as Hpos
    by (unfold Qlt; simpl; lia).
  assert (inject_Z filled / inject_Z (rows * 36) <= 35 # 36)%Q as Hup.
  { apply Qle_shift_div_r; [done|]. unfold Qle, Qmult, inject_Z. simpl. lia. }
  assert (0 <= inject_Z filled / inject_Z (rows * 36))%Q as Hlow.
  { apply Qle_shift_div_l; [done|]. unfold Qle, Qmult, inject_Z. simpl. lia. }
  split; lra.
Qed.

Lemma visibility_is_at_least_one_in_36_witness :
  ∃ binary_image visibility,
    [FrequencyImage [255%Z :: replicate 35 0%Z];
     Visibility (Some (1 - inject_Z 1 / inject_Z 36)%Q)]
    = [FrequencyImage binary_image; Visibility (Some visibility)]
    ∧ (1 # 36 <= visibility)%Q
    ∧ (visibility <= 1)%Q.
Proof.
  apply (visibility_is_at_least_one_in_36 cfg_one_ring frame_last_sector);
    by vm_compute.
Defined.

(** * Properties of the mission planner *)

Section RouteStateMachine.
Variable UNSET SET ARRIVED : Z.
Variable Checker : Type.
Variable is_arrived : Checker → Planner.PoseStamped → bool.
Variable set_goal_none : Checker → Checker.
Variable set_goal modify_goal : Planner.PoseWithUuidStamped → Checker → Checker.
Variable HADMapBin : Type.

Local Abbreviation planner_node := (Planner.Node Checker HADMapBin).
Local Abbreviation handle_event :=
  (Planner.handle UNSET SET ARRIVED is_arrived set_goal_none set_goal
     modify_goal).
Local Abbreviation run_events :=
  (Planner.run UNSET SET ARRIVED is_arrived set_goal_none set_goal
     modify_goal).
Local Abbreviation set_route := (Planner.on_set_route UNSET SET set_goal).
Local Abbreviation set_route_points :=
  (Planner.on_set_route_points UNSET SET set_goal).

(** The two route services either throw or publish a route, its marker
    and the state SET, in this order. *)
Lemma on_set_route_returned env req (node node' : planner_node) :
  set_route env req node = Planner.Returned node' →
  Planner.state (Planner.state_ node) = UNSET
  ∧ is_Some (Planner.odometry_ node)
  ∧ Planner.map_frame_ node' = Planner.map_frame_ node
  ∧ Planner.odometry_ node' = Planner.odometry_ node
  ∧ Planner.state_ node' = Planner.mkRouteState (Planner.now env) SET
  ∧ ∃ route,
      Planner.frame_id (Planner.header route) = Planner.map_frame_ node
      ∧ Planner.published node'
        = Planner.published node
          ++ [Planner.PubRoute route; Planner.PubMarker route;
              Planner.PubState (Planner.state_ node')].
Proof.
  unfold Planner.on_set_route.
  destruct (Z.eqb_spec (Planner.state (Planner.state_ node)) UNSET)
    as [Hstate|Hstate]; simpl; [|discriminate].
  destruct (Planner.odometry_ node) as [odometry|] eqn:Hodometry;
    [|discriminate].
  destruct (Planner.transform_pose env node _) as [transformed|e];
    [|discriminate].
  intros [= <-]. simpl. split_and!; try done.
  eexists. split; [|by rewrite <- app_assoc]. done.
Qed.

Lemma on_set_route_points_returned env req (node node' : planner_node) :
  set_route_points env req node = Planner.Returned node' →
  Planner.state (Planner.state_ node) = UNSET
  ∧ is_Some (Planner.odometry_ node)
  ∧ Planner.map_frame_ node' = Planner.map_frame_ node
  ∧ Planner.odometry_ node' = Planner.odometry_ node
  ∧ Planner.state_ node' = Planner.mkRouteState (Planner.now env) SET
  ∧ ∃ route,
      Planner.frame_id (Planner.header route) = Planner.map_frame_ node
      ∧ Planner.published node'
        = Planner.published node
          ++ [Planner.PubRoute route; Planner.PubMarker route;
              Planner.PubState (Planner.state_ node')].
Proof.
  unfold Planner.on_set_route_points.
  destruct (Z.eqb_spec (Planner.state (Planner.state_ node)) UNSET)
    as [Hstate|Hstate]; simpl; [|discriminate].
  destruct (Planner.planner_ready env); simpl; [|discriminate].
  destruct (Planner.odometry_ node) as [odometry|] eqn:Hodometry;
    [|discriminate].
  destruct (Planner.transform_waypoints env node _ _) as [waypoints|e];
    [|discriminate].
  destruct (Planner.transform_pose env node _) as [goal|e];
    [|discriminate].
  case_decide; [discriminate|].
  intros [= <-]. simpl. split_and!; try done.
  eexists. split; [|by rewrite <- app_assoc]. done.
Qed.

(** X16: one callback either leaves the route state and the publications
    as they are, or it is one of three transitions: [clear_route] to UNSET;
    an odometry message in state SET at which the arrival checker answers
    yes, to ARRIVED; a route service in state UNSET with a known vehicle
    pose, to SET.  The first two publish the new state only, the last one
    publishes a route in the map frame, its marker and then the new
    state. *)
Theorem route_state_transitions env event (node : planner_node) :
  let node' :=
    Planner.handle UNSET SET ARRIVED is_arrived set_goal_none set_goal
      modify_goal env event node in
  (Planner.state_ node' = Planner.state_ node
   ∧ Planner.published node' = Planner.published node)
  ∨ (event = Planner.Clear_route
     ∧ Planner.state_ node' = Planner.mkRouteState (Planner.now env) UNSET
     ∧ Planner.published node'
       = Planner.published node ++ [Planner.PubState (Planner.state_ node')])
  ∨ (∃ msg,
       event = Planner.Odometry_received msg
       ∧ Planner.state (Planner.state_ node) = SET
       ∧ is_arrived (Planner.arrival_checker_ node)
           (Planner.mkPoseStamped (Planner.odom_header msg)
              (Planner.odom_pose msg)) = true
       ∧ Planner.state_ node' = Planner.mkRouteState (Planner.now env) ARRIVED
       ∧ Planner.published node'
         = Planner.published node
           ++ [Planner.PubState (Planner.state_ node')])
  ∨ (((∃ req, event = Planner.Set_route req)
      ∨ (∃ req, event = Planner.Set_route_points req))
     ∧ Planner.state (Planner.state_ node) = UNSET
     ∧ is_Some (Planner.odometry_ node)
     ∧ Planner.state_ node' = Planner.mkRouteState (Planner.now env) SET
     ∧ ∃ route,
         Planner.frame_id (Planner.header route) = Planner.map_frame_ node
         ∧ Planner.published node'
           = Planner.published node
             ++ [Planner.PubRoute route; Planner.PubMarker route;
                 Planner.PubState (Planner.state_ node')]).
Proof.
  destruct event as [msg|msg|msg| |req|req]; simpl.
  - unfold Planner.on_odometry. simpl.
    destruct (Z.eqb_spec (Planner.state (Planner.state_ node)) SET)
      as [Hstate|Hstate]; [|by left].
    destruct (is_arrived _ _) eqn:Harrived; [|by left].
    right; right; left. exists msg. by simpl.
  - by left.
  - by left.
  - right; left. by simpl.
  - destruct (set_route env req node) as [node'|e] eqn:Hset; simpl;
      [|by left].
    apply on_set_route_returned in Hset
      as (Hstate & Hodometry & _ & _ & Hstate' & route & Hframe & Hpublished).
    right; right; right. split_and!; eauto.
  - destruct (set_route_points env req node) as [node'|e] eqn:Hset; simpl;
      [|by left].
    apply on_set_route_points_returned in Hset
      as (Hstate & Hodometry & _ & _ & Hstate' & route & Hframe & Hpublished).
    right; right; right. split_and!; eauto.
Qed.

(** What every callback keeps. *)
Local Abbreviation planner_invariant frame node :=
  ((Planner.state (Planner.state_ node) = UNSET
    ∨ Planner.state (Planner.state_ node) = SET
    ∨ Planner.state (Planner.state_ node) = ARRIVED)
   ∧ (Planner.state (Planner.state_ node) ≠ UNSET
      → is_Some (Planner.odometry_ node))
   ∧ last (Planner.published node)
     = Some (Planner.PubState (Planner.state_ node))
   ∧ Planner.map_frame_ node = frame).

Lemma handle_keeps_invariant frame env event (node : planner_node) :
  planner_invariant frame node →
  planner_invariant frame (handle_event env event node).
Proof.
  intros (Hstate & Hodometry & Hlast & Hframe).
  destruct event as [msg|msg|msg| |req|req]; simpl.
  - unfold Planner.on_odometry. simpl.
    destruct (Z.eqb_spec (Planner.state (Planner.state_ node)) SET)
      as [Hset|Hset]; [destruct (is_arrived _ _)|]; simpl;
      split_and!; eauto using last_snoc.
  - done.
  - done.
  - split_and!; simpl; eauto using last_snoc.
  - destruct (set_route env req node) as [node'|e] eqn:Hset; simpl; [|done].
    apply on_set_route_returned in Hset
      as (_ & Hknown & Hframe' & Hodometry' & Hstate' & route & _ & Hpublished).
    rewrite Hpublished, Hodometry', Hframe', Hstate'. simpl.
    split_and!; eauto.
    by rewrite last_app.
  - destruct (set_route_points env req node) as [node'|e] eqn:Hset; simpl;
      [|done].
    apply on_set_route_points_returned in Hset
      as (_ & Hknown & Hframe' & Hodometry' & Hstate' & route & _ & Hpublished).
    rewrite Hpublished, Hodometry', Hframe', Hstate'. simpl.
    split_and!; eauto.
    by rewrite last_app.
Qed.

(** X17: after the constructor and any sequence of callbacks, whatever
    the collaborators answer: the route state is UNSET, SET or ARRIVED; a
    state other than UNSET comes with a known vehicle pose; the last message
    the node has published is its current route state; and the map frame is
    the one of the constructor. *)
Theorem planner_invariants env frame checker
    (events : list (Planner.Environment * Planner.Event HADMapBin)) :
  let node := run_events events (Planner.constructed UNSET env frame checker) in
  (Planner.state (Planner.state_ node) = UNSET
   ∨ Planner.state (Planner.state_ node) = SET
   ∨ Planner.state (Planner.state_ node) = ARRIVED)
  ∧ (Planner.state (Planner.state_ node) ≠ UNSET
     → is_Some (Planner.odometry_ node))
  ∧ last (Planner.published node)
    = Some (Planner.PubState (Planner.state_ node))
  ∧ Planner.map_frame_ node = frame.
Proof.
  simpl.
  assert (planner_invariant frame
            (Planner.constructed UNSET (HADMapBin := HADMapBin)
               env frame checker)) as Hinitial.
  { simpl. split_and!; eauto. by intros []. }
  revert Hinitial.
  generalize (Planner.constructed UNSET (HADMapBin := HADMapBin)
                env frame checker).
  unfold Planner.run.
  induction events as [|[env' event] events IH]; intros node Hnode; [done|].
  simpl. apply IH. by apply handle_keeps_invariant.
Qed.

(** One callback other than [clear_route] on a node that has a route
    publishes nothing, or the state ARRIVED. *)
Lemma handle_keeps_route env event (node : planner_node) :
  SET ≠ UNSET → ARRIVED ≠ UNSET →
  Planner.state (Planner.state_ node) = SET
  ∨ Planner.state (Planner.state_ node) = ARRIVED →
  event ≠ Planner.Clear_route →
  (Planner.state (Planner.state_ (handle_event env event node)) = SET
   ∨ Planner.state (Planner.state_ (handle_event env event node)) = ARRIVED)
  ∧ ∃ states,
      Planner.published (handle_event env event node)
      = Planner.published node ++ map Planner.PubState states
      ∧ Forall (λ s, Planner.state s = ARRIVED) states.
Proof.
  intros Hset Harrived Hstate Hevent.
  assert (Planner.state (Planner.state_ node) ≠ UNSET) as Hroute
    by (destruct Hstate as [-> | ->]; done).
  assert (∃ states : list Planner.RouteState,
            Planner.published node
            = Planner.published node ++ map Planner.PubState states
            ∧ Forall (λ s, Planner.state s = ARRIVED) states) as Hnothing.
  { exists []. simpl. by rewrite app_nil_r. }
  destruct event as [msg|msg|msg| |req|req]; simpl; try done.
  - unfold Planner.on_odometry. simpl.
    destruct (_ =? SET)%Z; [destruct (is_arrived _ _)|]; simpl; try done.
    split; [by right|].
    exists [Planner.mkRouteState (Planner.now env) ARRIVED].
    split; [done|]. by constructor.
  - unfold Planner.on_set_route.
    by destruct (Z.eqb_spec (Planner.state (Planner.state_ node)) UNSET).
  - unfold Planner.on_set_route_points.
    by destruct (Z.eqb_spec (Planner.state (Planner.state_ node)) UNSET).
Qed.

(** X18: as long as the constants SET and ARRIVED differ from UNSET, a
    node whose route is set or arrived keeps a route through every sequence
    of callbacks without [clear_route]: all that is published during it are
    state messages with the state ARRIVED, no route and no marker, and
    afterwards both route services throw ERROR_ROUTE_EXISTS, whatever the
    vehicle pose, the planner and the transform are. *)
Theorem route_is_kept_until_cleared
    (events : list (Planner.Environment * Planner.Event HADMapBin))
    (node : planner_node) :
  SET ≠ UNSET → ARRIVED ≠ UNSET →
  Planner.state (Planner.state_ node) = SET
  ∨ Planner.state (Planner.state_ node) = ARRIVED →
  Forall (λ step, snd step ≠ Planner.Clear_route) events →
  let node' := run_events events node in
  (Planner.state (Planner.state_ node') = SET
   ∨ Planner.state (Planner.state_ node') = ARRIVED)
  ∧ (∃ states,
       Planner.published node'
       = Planner.published node ++ map Planner.PubState states
       ∧ Forall (λ s, Planner.state s = ARRIVED) states)
  ∧ ∀ env req points,
      set_route env req node' = Planner.Thrown Planner.ERROR_ROUTE_EXISTS
      ∧ set_route_points env points node'
        = Planner.Thrown Planner.ERROR_ROUTE_EXISTS.
Proof.
  intros Hset Harrived Hstate Hevents. simpl.
  assert ((Planner.state (Planner.state_ (run_events events node)) = SET
           ∨ Planner.state (Planner.state_ (run_events events node)) = ARRIVED)
          ∧ ∃ states,
              Planner.published (run_events events node)
              = Planner.published node ++ map Planner.PubState states
              ∧ Forall (λ s, Planner.state s = ARRIVED) states)
    as [Hstate' Hpublished].
  { revert node Hstate. unfold Planner.run.
    induction Hevents as [|[env event] events Hevent _ IH]; intros node Hstate.
    - split; [done|]. exists []. simpl. by rewrite app_nil_r.
    - simpl in Hevent. simpl.
      destruct (handle_keeps_route env event node Hset Harrived Hstate Hevent)
        as (Hnext & first & Hfirst & Harrivals).
      destruct (IH _ Hnext) as (IHstate & rest & Hrest & Hrests).
      split; [done|]. exists (first ++ rest). split.
      + by rewrite Hrest, Hfirst, map_app, <- app_assoc.
      + by apply Forall_app. }
  split; [done|]. split; [done|].
  intros env req points.
  assert (Planner.state (Planner.state_ (run_events events node)) ≠ UNSET)
    as Hroute by (destruct Hstate' as [-> | ->]; done).
  unfold Planner.on_set_route, Planner.on_set_route_points.
  by destruct (Z.eqb_spec
                 (Planner.state (Planner.state_ (run_events events node)))
                 UNSET).
Qed.

(** X19: as long as the constant ARRIVED differs from SET and from
    UNSET, arrival is final until the route is cleared: through every
    sequence of callbacks without [clear_route] the state message, with its
    stamp, stays as it is and nothing is published. *)
Theorem arrival_is_final_until_cleared
    (events : list (Planner.Environment * Planner.Event HADMapBin))
    (node : planner_node) :
  ARRIVED ≠ SET → ARRIVED ≠ UNSET →
  Planner.state (Planner.state_ node) = ARRIVED →
  Forall (λ step, snd step ≠ Planner.Clear_route) events →
  Planner.state_ (run_events events node) = Planner.state_ node
  ∧ Planner.published (run_events events node) = Planner.published node.
Proof.
  intros Hset Hunset Hstate Hevents. revert node Hstate. unfold Planner.run.
  induction Hevents as [|[env event] events Hevent _ IH]; intros node Hstate;
    [done|].
  simpl in Hevent. simpl.
  assert (Planner.state_ (handle_event env event node) = Planner.state_ node
          ∧ Planner.published (handle_event env event node)
            = Planner.published node) as [Hsame Hpublished].
  { destruct event as [msg|msg|msg| |req|req]; simpl; try done.
    - unfold Planner.on_odometry. simpl.
      by destruct (Z.eqb_spec (Planner.state (Planner.state_ node)) SET);
        [congruence|].
    - unfold Planner.on_set_route.
      destruct (Z.eqb_spec (Planner.state (Planner.state_ node)) UNSET);
        [congruence|done].
    - unfold Planner.on_set_route_points.
      destruct (Z.eqb_spec (Planner.state (Planner.state_ node)) UNSET);
        [congruence|done]. }
  destruct (IH (handle_event env event node)) as [IHstate IHpublished].
  { by rewrite Hsame. }
  split; congruence.
Qed.
End RouteStateMachine.

Lemma route_is_kept_until_cleared_witness :
  (Planner.state
     (Planner.state_
        (Planner.run 1 2 3 Planner.example_is_arrived (λ _, None)
           Planner.example_set_goal Planner.example_set_goal
           Planner.example_events Planner.example_driving)) = 2%Z
   ∨ Planner.state
       (Planner.state_
          (Planner.run 1 2 3 Planner.example_is_arrived (λ _, None)
             Planner.example_set_goal Planner.example_set_goal
             Planner.example_events Planner.example_driving)) = 3%Z)
  ∧ (∃ states,
       Planner.published
         (Planner.run 1 2 3 Planner.example_is_arrived (λ _, None)
            Planner.example_set_goal Planner.example_set_goal
            Planner.example_events Planner.example_driving)
       = Planner.published Planner.example_driving
         ++ map Planner.PubState states
       ∧ Forall (λ s, Planner.state s = 3%Z) states)
  ∧ ∀ env req points,
      Planner.on_set_route 1 2 Planner.example_set_goal env req
        (Planner.run 1 2 3 Planner.example_is_arrived (λ _, None)
           Planner.example_set_goal Planner.example_set_goal
           Planner.example_events Planner.example_driving)
      = Planner.Thrown Planner.ERROR_ROUTE_EXISTS
      ∧ Planner.on_set_route_points 1 2 Planner.example_set_goal env points
          (Planner.run 1 2 3 Planner.example_is_arrived (λ _, None)
             Planner.example_set_goal Planner.example_set_goal
             Planner.example_events Planner.example_driving)
        = Planner.Thrown Planner.ERROR_ROUTE_EXISTS.
Proof.
  apply (route_is_kept_until_cleared 1 2 3 Planner.example_checker
           Planner.example_is_arrived (λ _, None) Planner.example_set_goal
           Planner.example_set_goal unit Planner.example_events
           Planner.example_driving).
  - discriminate.
  - discriminate.
  - left. reflexivity.
  - repeat constructor; discriminate.
Defined.

Lemma arrival_is_final_until_cleared_witness :
  Planner.state_
    (Planner.run 1 2 3 Planner.example_is_arrived (λ _, None)
       Planner.example_set_goal Planner.example_set_goal
       Planner.example_events Planner.example_arrived)
  = Planner.mkRouteState 3 3
  ∧ Planner.published
      (Planner.run 1 2 3 Planner.example_is_arrived (λ _, None)
         Planner.example_set_goal Planner.example_set_goal
         Planner.example_events Planner.example_arrived)
    = Planner.published Planner.example_arrived.
Proof.
  apply (arrival_is_final_until_cleared 1 2 3 Planner.example_checker
           Planner.example_is_arrived (λ _, None) Planner.example_set_goal
           Planner.example_set_goal unit Planner.example_events
           Planner.example_arrived).
  - discriminate.
  - discriminate.
  - reflexivity.
  - repeat constructor; discriminate.
Defined.

Section RouteServices.
Variable UNSET SET : Z.
Variable Checker : Type.
Variable set_goal : Planner.PoseWithUuidStamped → Checker → Checker.
Variable HADMapBin : Type.

Local Abbreviation served_node := (Planner.Node Checker HADMapBin).

Lemma lookup_map {A B : Type} (f : A → B) (l : list A) (i : nat) :
  map f l !! i = f <$> l !! i.
Proof.
  revert i. induction l as [|x l IH]; intros [|i]; simpl; done.
Qed.

Lemma convert_primitive_same p : Planner.convert_primitive p = p.
Proof. by destruct p. Qed.

Lemma map_convert_primitive l : map Planner.convert_primitive l = l.
Proof.
  induction l as [|p l IH]; [done|].
  simpl. by rewrite convert_primitive_same, IH.
Qed.

(** X20: [set_route] on a node without a route whose vehicle pose is
    known and whose goal can be transformed returns, and publishes exactly
    a route, its marker and the state SET.  The route starts at the vehicle
    pose, ends at the transformed goal, and carries the request's stamp, the
    map frame and the random id.  It has the request's segments in order,
    each changed in two ways: the preferred primitive keeps its id but
    loses its type, and the list of primitives is the request's one with a
    copy of the request's preferred primitive put in front.  The arrival
    checker is given this goal. *)
Theorem set_route_publishes_converted_route env req (node : served_node)
    odometry transformed :
  Planner.state (Planner.state_ node) = UNSET →
  Planner.odometry_ node = Some odometry →
  Planner.do_transform env (Planner.map_frame_ node)
    (Planner.mkPoseStamped (Planner.sr_header req) (Planner.sr_goal req))
  = Some transformed →
  ∃ node' route,
    Planner.on_set_route UNSET SET set_goal env req node
    = Planner.Returned node'
    ∧ Planner.published node'
      = Planner.published node
        ++ [Planner.PubRoute route; Planner.PubMarker route;
            Planner.PubState (Planner.mkRouteState (Planner.now env) SET)]
    ∧ Planner.state_ node' = Planner.mkRouteState (Planner.now env) SET
    ∧ Planner.arrival_checker_ node'
      = set_goal
          (Planner.mkGoal (Planner.header route) (Planner.goal_pose route)
             (Planner.uuid route))
          (Planner.arrival_checker_ node)
    ∧ Planner.header route
      = Planner.mkHeader (Planner.stamp (Planner.sr_header req))
          (Planner.map_frame_ node)
    ∧ Planner.start_pose route = Planner.odom_pose odometry
    ∧ Planner.goal_pose route = Planner.ps_pose transformed
    ∧ Planner.uuid route = Planner.random_id env
    ∧ length (Planner.segments route) = length (Planner.sr_segments req)
    ∧ ∀ i segment,
        Planner.sr_segments req !! i = Some segment →
        Planner.segments route !! i
        = Some
            (Planner.mkSegment
               (Planner.mkPrimitive
                  (Planner.id (Planner.preferred_primitive segment))
                  EmptyString)
               (Planner.preferred_primitive segment
                :: Planner.primitives segment)).
Proof.
  intros Hstate Hodometry Htransform.
  unfold Planner.on_set_route, Planner.transform_pose.
  rewrite Hstate, Z.eqb_refl, Hodometry, Htransform. simpl.
  eexists _,
    (Planner.mkRoute
       (Planner.mkHeader (Planner.stamp (Planner.sr_header req))
          (Planner.map_frame_ node))
       (Planner.odom_pose odometry) (Planner.ps_pose transformed)
       (map Planner.convert_segment (Planner.sr_segments req))
       (Planner.random_id env)).
  split; [reflexivity|]. simpl.
  split_and!; try reflexivity.
  - by rewrite <- app_assoc.
  - apply length_map.
  - intros i segment Hsegment.
    rewrite lookup_map, Hsegment. simpl.
    unfold Planner.convert_segment.
    by rewrite convert_primitive_same, map_convert_primitive.
Qed.

(** What the loop over the waypoints gives. *)
Lemma transform_waypoints_outcome env (node : served_node) request_header
    waypoints :
  match Planner.transform_waypoints env node request_header waypoints with
  | Planner.Returned points =>
      Forall (λ waypoint,
                is_Some
                  (Planner.do_transform env (Planner.map_frame_ node)
                     (Planner.mkPoseStamped request_header waypoint)))
        waypoints
  | Planner.Thrown e =>
      e = Planner.TransformError
      ∧ ∃ waypoint,
          waypoint ∈ waypoints
          ∧ Planner.do_transform env (Planner.map_frame_ node)
              (Planner.mkPoseStamped request_header waypoint) = None
  end.
Proof.
  induction waypoints as [|waypoint rest IH]; simpl; [done|].
  unfold Planner.transform_pose.
  destruct (Planner.do_transform env (Planner.map_frame_ node)
              (Planner.mkPoseStamped request_header waypoint))
    as [transformed|] eqn:Htransform.
  - destruct (Planner.transform_waypoints env node request_header rest)
      as [points|e].
    + constructor; [by rewrite Htransform|done].
    + destruct IH as (-> & other & Hin & Hnone).
      split; [done|]. exists other. split; [by right|done].
  - split; [done|]. exists waypoint. split; [by left|done].
Qed.

(** X21: on a node without a route, with a ready planner and a known
    vehicle pose, [set_route_points] throws a TransformError exactly when
    one of the waypoints or the goal cannot be transformed into the map
    frame; the planner's answer plays no part in it. *)
Theorem route_points_transform_error env req (node : served_node) :
  Planner.state (Planner.state_ node) = UNSET →
  Planner.planner_ready env = true →
  is_Some (Planner.odometry_ node) →
  Planner.on_set_route_points UNSET SET set_goal env req node
  = Planner.Thrown Planner.TransformError
  ↔ ∃ pose,
      pose ∈ Planner.srp_waypoints req ++ [Planner.srp_goal req]
      ∧ Planner.do_transform env (Planner.map_frame_ node)
          (Planner.mkPoseStamped (Planner.srp_header req) pose) = None.
Proof.
  intros Hstate Hready [odometry Hodometry].
  unfold Planner.on_set_route_points.
  rewrite Hstate, Z.eqb_refl, Hready, Hodometry. simpl.
  pose proof (transform_waypoints_outcome env node (Planner.srp_header req)
                (Planner.srp_waypoints req)) as Hwaypoints.
  destruct (Planner.transform_waypoints env node (Planner.srp_header req)
              (Planner.srp_waypoints req)) as [waypoints|e].
  - unfold Planner.transform_pose.
    destruct (Planner.do_transform env (Planner.map_frame_ node)
                (Planner.mkPoseStamped (Planner.srp_header req)
                   (Planner.srp_goal req)))
      as [goal|] eqn:Hgoal.
    + split.
      * by case_decide.
      * intros (pose & Hin & Hnone). exfalso.
        apply elem_of_app in Hin as [Hin|Hin].
        -- rewrite Forall_forall in Hwaypoints.
           destruct (Hwaypoints pose Hin) as [transformed Hsome]. congruence.
        -- apply list_elem_of_singleton in Hin as ->. congruence.
    + split; [|done]. intros _. exists (Planner.srp_goal req).
      split; [|done]. apply elem_of_app. right. by left.
  - destruct Hwaypoints as (-> & waypoint & Hin & Hnone).
    split; [|done]. intros _. exists waypoint.
    split; [|done]. apply elem_of_app. by left.
Qed.
End RouteServices.

Lemma set_route_publishes_converted_route_witness :
  ∃ node' route,
    Planner.on_set_route 1 2 Planner.example_set_goal (Planner.example_env 2)
      Planner.example_request Planner.example_started
    = Planner.Returned node'
    ∧ Planner.published node'
      = Planner.published Planner.example_started
        ++ [Planner.PubRoute route; Planner.PubMarker route;
            Planner.PubState (Planner.mkRouteState 2 2)]
    ∧ Planner.state_ node' = Planner.mkRouteState 2 2
    ∧ Planner.arrival_checker_ node'
      = Some
          (Planner.mkGoal (Planner.header route) (Planner.goal_pose route)
             (Planner.uuid route))
    ∧ Planner.header route = Planner.mkHeader 5 "map"
    ∧ Planner.start_pose route = Planner.example_pose 0
    ∧ Planner.goal_pose route = Planner.example_pose 40
    ∧ Planner.uuid route = [7; 7; 7; 7]%Z
    ∧ length (Planner.segments route) = 2
    ∧ ∀ i segment,
        Planner.sr_segments Planner.example_request !! i = Some segment →
        Planner.segments route !! i
        = Some
            (Planner.mkSegment
               (Planner.mkPrimitive
                  (Planner.id (Planner.preferred_primitive segment))
                  EmptyString)
               (Planner.preferred_primitive segment
                :: Planner.primitives segment)).
Proof.
  apply (set_route_publishes_converted_route 1 2 Planner.example_checker
           Planner.example_set_goal unit (Planner.example_env 2)
           Planner.example_request Planner.example_started
           (Planner.example_odometry 0 2)
           (Planner.mkPoseStamped (Planner.mkHeader 5 "map")
              (Planner.example_pose 40))).
  - reflexivity.
  - reflexivity.
  - reflexivity.
Defined.

Lemma route_points_transform_error_witness :
  Planner.on_set_route_points 1 2 Planner.example_set_goal
    (Planner.example_env 2)
    (Planner.mkSetRoutePoints (Planner.mkHeader 5 "unknown")
       (Planner.example_pose 40) [Planner.example_pose 20])
    Planner.example_started
  = Planner.Thrown Planner.TransformError
  ↔ ∃ pose,
      pose ∈ [Planner.example_pose 20] ++ [Planner.example_pose 40]
      ∧ Planner.example_transform "map"
          (Planner.mkPoseStamped (Planner.mkHeader 5 "unknown") pose) = None.
Proof.
  apply (route_points_transform_error 1 2 Planner.example_checker
           Planner.example_set_goal unit (Planner.example_env 2)
           (Planner.mkSetRoutePoints (Planner.mkHeader 5 "unknown")
              (Planner.example_pose 40) [Planner.example_pose 20])
           Planner.example_started).
  - reflexivity.
  - reflexivity.
  - by eexists.
Defined.

(** ** [checkRerouteSafety] *)

Lemma foldl_keeps_last {A B : Type} (f : A → B) (b : B) (l : list A) :
  foldl (λ _ x, f x) b l = from_option f b (last l).
Proof.
  induction l as [|x l _] using rev_ind; [done|].
  by rewrite foldl_app, last_snoc.
Qed.

(** X22: the comparison of two primitive lists in [checkRerouteSafety]
    answers yes exactly when the lists have the same size and the id of the
    LAST original primitive occurs among the target primitives: the flag is
    assigned anew for every original primitive, so the earlier ones do not
    count, and two empty lists are not the same. *)
Theorem same_primitives_compares_last_only original target :
  Planner.hasSamePrimitives original target = true
  ↔ length original = length target
    ∧ ∃ p q,
        last original = Some p ∧ q ∈ target ∧ Planner.id q = Planner.id p.
Proof.
  unfold Planner.hasSamePrimitives.
  destruct (Nat.eqb_spec (length original) (length target)) as [Hsize|Hsize];
    simpl; [|split; [discriminate|by intros [? _]]].
  rewrite (foldl_keeps_last
             (λ primitive,
                existsb (λ p, (Planner.id p =? Planner.id primitive)%Z) target)).
  destruct (last original) as [p|]; simpl.
  - rewrite existsb_exists. split.
    + intros (q & Hin & Hid). split; [done|]. exists p, q.
      split; [done|]. split; [by apply list_elem_of_In|by apply Z.eqb_eq].
    + intros (_ & p' & q & [= <-] & Hin & Hid). exists q.
      split; [by apply list_elem_of_In|by apply Z.eqb_eq].
  - split; [discriminate|]. by intros (_ & p & q & Hnone & _).
Qed.

Lemma find_start_idx_no_match original_segments target_front_primitives i :
  Forall (λ segment,
            Planner.hasSamePrimitives (Planner.primitives segment)
              target_front_primitives = false) original_segments →
  Planner.find_start_idx original_segments target_front_primitives i
  = i + length original_segments.
Proof.
  intros Hall. revert i.
  induction Hall as [|segment rest Hsegment _ IH]; intros i; simpl; [lia|].
  rewrite Hsegment, IH. lia.
Qed.

Lemma find_end_idx_beyond original_segments target_segments start_idx n i :
  length original_segments - 1 < start_idx + i →
  Planner.find_end_idx original_segments target_segments start_idx n i
  = Planner.Returned start_idx.
Proof.
  intros Hbeyond. destruct n as [|n]; simpl; [done|].
  by destruct (Nat.ltb_spec (length original_segments - 1) (start_idx + i));
    [|lia].
Qed.

Section RerouteSafety.
Variable Checker HADMapBin Lanelet : Type.
Variable laneletLayer_get : HADMapBin → Z → option Lanelet.
Variable getClosestLanelet : list Lanelet → Planner.Pose → option Lanelet.
Variable arc_length : Lanelet → Planner.Pose → Q.
Variable getLaneletLength2d : Lanelet → Q.

Local Abbreviation check_reroute :=
  (Planner.checkRerouteSafety (Checker := Checker) laneletLayer_get
     getClosestLanelet arc_length getLaneletLength2d).

(** X23: when both routes have segments, the map and the vehicle pose
    are known, and no segment of the original route passes the comparison
    with the front segment of the target route, [checkRerouteSafety] does
    not answer: the start index stays at the size of the original route and
    the access to the segment at this index throws [std::out_of_range]. *)
Theorem reroute_without_common_segment_throws node original target front
    rest map_msg odometry :
  Planner.segments original ≠ [] →
  Planner.segments target = front :: rest →
  Planner.map_ptr_ node = Some map_msg →
  Planner.odometry_ node = Some odometry →
  Forall (λ segment,
            Planner.hasSamePrimitives (Planner.primitives segment)
              (Planner.primitives front) = false)
    (Planner.segments original) →
  check_reroute node original target = Planner.Thrown Planner.out_of_range.
Proof.
  intros Horiginal Htarget Hmap Hodometry Hall.
  unfold Planner.checkRerouteSafety.
  rewrite Htarget, Hmap, Hodometry.
  destruct (Planner.segments original) as [|first others] eqn:Hsegments;
    [done|].
  rewrite (find_start_idx_no_match _ _ 0 Hall).
  rewrite find_end_idx_beyond by (simpl; lia).
  unfold Planner.segment_at.
  by rewrite (lookup_ge_None_2 (first :: others)) by (simpl; lia).
Qed.

Lemma Qmin_zero_left y : (0 <= y)%Q → Qmin 0 y = 0%Q.
Proof.
  intros Hy. unfold Qmin, GenericMinMax.gmin.
  destruct (0 ?= y)%Q eqn:Hcompare; [done|done|].
  apply Qgt_alt in Hcompare. lra.
Qed.

Lemma min_element_zero_padded n lengths :
  0 < n → Forall (λ x, (0 <= x)%Q) lengths →
  Planner.min_element (replicate n 0%Q ++ lengths) = 0%Q.
Proof.
  intros Hn Hlengths. destruct n as [|n]; [lia|]. simpl. clear Hn.
  induction n as [|n IH]; simpl.
  - induction Hlengths as [|x l Hx _ IH]; simpl; [done|].
    by rewrite Qmin_zero_left.
  - by rewrite Qmin_zero_left.
Qed.

Lemma accumulate_length_adds_nothing map_msg original_segments n i
    accumulated_length total :
  (∀ lanelet, 0 <= getLaneletLength2d lanelet)%Q →
  Planner.accumulate_length laneletLayer_get getLaneletLength2d map_msg
    original_segments n i accumulated_length = Planner.Returned total →
  (total == accumulated_length)%Q.
Proof.
  intros Hlengths. revert i accumulated_length.
  induction n as [|n IH]; intros i accumulated_length; simpl.
  - by intros [= <-].
  - destruct (Planner.segment_at original_segments i) as [segment|e];
      [|discriminate].
    destruct (Planner.primitives segment) as [|p l] eqn:Hprimitives.
    + by intros [= <-].
    + destruct (Planner.get_lanelets laneletLayer_get map_msg (p :: l))
        as [lanelets|e]; [|discriminate].
      rewrite (min_element_zero_padded (length (p :: l))).
      * intros Htotal. apply IH in Htotal. rewrite Htotal. ring.
      * simpl. lia.
      * apply Forall_forall. intros x Hin.
        apply list_elem_of_In, in_map_iff in Hin as (lanelet & <- & _).
        apply Hlengths.
Qed.

(** X24: when no lanelet has a negative length, the segments after
    the first common one add nothing to the length that decides: each adds
    the least element of a vector that starts with as many zeros as the
    segment has primitives.  [checkRerouteSafety] answers yes only if the
    rest of the closest lanelet of one original segment, from the start
    pose of the target route on, is alone longer than ten times the
    velocity. *)
Theorem reroute_safety_counts_first_lanelet_only node original target :
  (∀ lanelet, 0 <= getLaneletLength2d lanelet)%Q →
  check_reroute node original target = Planner.Returned true →
  ∃ odometry map_msg segment lanelets closest,
    Planner.odometry_ node = Some odometry
    ∧ Planner.map_ptr_ node = Some map_msg
    ∧ segment ∈ Planner.segments original
    ∧ Planner.get_lanelets laneletLayer_get map_msg
        (Planner.primitives segment) = Planner.Returned lanelets
    ∧ getClosestLanelet lanelets (Planner.start_pose target) = Some closest
    ∧ (Planner.odom_linear_x odometry * 10
       < getLaneletLength2d closest
         - arc_length closest (Planner.start_pose target))%Q.
Proof.
  intros Hlengths. unfold Planner.checkRerouteSafety.
  destruct (Planner.segments original) as [|first others] eqn:Horiginal;
    [discriminate|].
  destruct (Planner.segments target) as [|front rest]; [discriminate|].
  destruct (Planner.map_ptr_ node) as [map_msg|]; [|discriminate].
  destruct (Planner.odometry_ node) as [odometry|]; [|discriminate].
  destruct (Planner.find_end_idx _ _ _ _ _) as [end_idx|e]; [|discriminate].
  unfold Planner.segment_at at 1.
  destruct ((first :: others) !! _) as [segment|] eqn:Hsegment;
    [|discriminate].
  destruct (Planner.get_lanelets laneletLayer_get map_msg
              (Planner.primitives segment)) as [lanelets|e] eqn:Hlanelets;
    [|discriminate].
  destruct (getClosestLanelet lanelets (Planner.start_pose target))
    as [closest|] eqn:Hclosest; [|discriminate].
  destruct (Planner.accumulate_length _ _ _ _ _ _ _) as [total|e] eqn:Htotal;
    [|discriminate].
  apply (accumulate_length_adds_nothing _ _ _ _ _ _ Hlengths) in Htotal.
  intros [= Hsafe]. apply negb_true_iff in Hsafe.
  exists odometry, map_msg, segment, lanelets, closest.
  split_and!; try done.
  - by apply list_elem_of_lookup_2 in Hsegment.
  - rewrite <- Htotal. apply Qnot_le_lt. intros Hle.
    apply Qle_bool_iff in Hle. congruence.
Qed.
End RerouteSafety.

Lemma reroute_without_common_segment_throws_witness :
  Planner.checkRerouteSafety Planner.example_lanelet_get
    Planner.example_closest Planner.example_arc_length
    Planner.example_lanelet_length Planner.example_mapped
    (Planner.example_route (Planner.example_pose 0) [[1; 2]; [3; 4]]%Z)
    (Planner.example_route (Planner.example_pose 0) [[5; 6]; [3; 4]]%Z)
  = Planner.Thrown Planner.out_of_range.
Proof.
  apply (reroute_without_common_segment_throws Planner.example_checker unit Z
           Planner.example_lanelet_get Planner.example_closest
           Planner.example_arc_length Planner.example_lanelet_length
           Planner.example_mapped
           (Planner.example_route (Planner.example_pose 0) [[1; 2]; [3; 4]]%Z)
           (Planner.example_route (Planner.example_pose 0) [[5; 6]; [3; 4]]%Z)
           (Planner.mkSegment (Planner.mkPrimitive 5 "lane")
              [Planner.mkPrimitive 5 "lane"; Planner.mkPrimitive 6 "lane"])
           [Planner.mkSegment (Planner.mkPrimitive 3 "lane")
              [Planner.mkPrimitive 3 "lane"; Planner.mkPrimitive 4 "lane"]]
           () (Planner.example_odometry 0 2)).
  - discriminate.
  - reflexivity.
  - reflexivity.
  - reflexivity.
  - repeat constructor.
Defined.

Lemma reroute_safety_counts_first_lanelet_only_witness :
  ∃ odometry map_msg segment lanelets closest,
    Planner.odometry_ Planner.example_mapped = Some odometry
    ∧ Planner.map_ptr_ Planner.example_mapped = Some map_msg
    ∧ segment
      ∈ Planner.segments
          (Planner.example_route (Planner.example_pose 0)
             [[10]; [20]; [30]]%Z)
    ∧ Planner.get_lanelets Planner.example_lanelet_get map_msg
        (Planner.primitives segment) = Planner.Returned lanelets
    ∧ Planner.example_closest lanelets (Planner.example_pose 5) = Some closest
    ∧ (Planner.odom_linear_x odometry * 10
       < Planner.example_lanelet_length closest
         - Planner.example_arc_length closest (Planner.example_pose 5))%Q.
Proof.
  apply (reroute_safety_counts_first_lanelet_only Planner.example_checker
           unit Z Planner.example_lanelet_get Planner.example_closest
           Planner.example_arc_length Planner.example_lanelet_length
           Planner.example_mapped
           (Planner.example_route (Planner.example_pose 0)
              [[10]; [20]; [30]]%Z)
           (Planner.example_route (Planner.example_pose 5) [[10]; [21]]%Z)).
  - intros lanelet. vm_compute. discriminate.
  - vm_compute. reflexivity.
Defined.

Section RoutePoints.
Variable UNSET SET : Z.
Variable Checker : Type.
Variable set_goal : Planner.PoseWithUuidStamped → Checker → Checker.
Variable HADMapBin : Type.

Lemma transform_waypoints_returned env (node : Planner.Node Checker HADMapBin)
    request_header waypoints (transformed : Planner.Pose → Planner.PoseStamped) :
  (∀ pose,
     pose ∈ waypoints →
     Planner.do_transform env (Planner.map_frame_ node)
       (Planner.mkPoseStamped request_header pose)
     = Some (transformed pose)) →
  Planner.transform_waypoints env node request_header waypoints
  = Planner.Returned (map (λ pose, Planner.ps_pose (transformed pose)) waypoints).
Proof.
  induction waypoints as [|waypoint rest IH]; intros Hall; simpl; [done|].
  unfold Planner.transform_pose.
  rewrite (Hall waypoint) by by left.
  rewrite IH; [done|]. intros pose Hin. apply Hall. by right.
Qed.

(** X25: [set_route_points] on a node without a route, with a ready
    planner, a known vehicle pose and poses that can all be transformed,
    asks the planner for a route through the vehicle pose, the transformed
    waypoints in the order of the request, and the transformed goal.  If
    the planner's route has no segment the service throws
    ERROR_PLANNER_FAILED; otherwise it returns, and publishes exactly the
    planner's route with the request's stamp, the map frame and the random
    id put in, its marker and the state SET, and gives the goal of this
    route to the arrival checker. *)
Theorem set_route_points_plans_through_waypoints env req
    (node : Planner.Node Checker HADMapBin) odometry
    (transformed : Planner.Pose → Planner.PoseStamped) :
  Planner.state (Planner.state_ node) = UNSET →
  Planner.planner_ready env = true →
  Planner.odometry_ node = Some odometry →
  (∀ pose,
     pose ∈ Planner.srp_waypoints req ++ [Planner.srp_goal req] →
     Planner.do_transform env (Planner.map_frame_ node)
       (Planner.mkPoseStamped (Planner.srp_header req) pose)
     = Some (transformed pose)) →
  ∃ planned,
    planned
    = Planner.planner_plan env
        (Planner.odom_pose odometry
         :: map (λ pose, Planner.ps_pose (transformed pose))
              (Planner.srp_waypoints req ++ [Planner.srp_goal req]))
    ∧ (Planner.segments planned = [] →
       Planner.on_set_route_points UNSET SET set_goal env req node
       = Planner.Thrown Planner.ERROR_PLANNER_FAILED)
    ∧ (Planner.segments planned ≠ [] →
       ∃ node' route,
         Planner.on_set_route_points UNSET SET set_goal env req node
         = Planner.Returned node'
         ∧ route
           = Planner.mkRoute
               (Planner.mkHeader (Planner.stamp (Planner.srp_header req))
                  (Planner.map_frame_ node))
               (Planner.start_pose planned) (Planner.goal_pose planned)
               (Planner.segments planned) (Planner.random_id env)
         ∧ Planner.published node'
           = Planner.published node
             ++ [Planner.PubRoute route; Planner.PubMarker route;
                 Planner.PubState
                   (Planner.mkRouteState (Planner.now env) SET)]
         ∧ Planner.state_ node' = Planner.mkRouteState (Planner.now env) SET
         ∧ Planner.arrival_checker_ node'
           = set_goal
               (Planner.mkGoal (Planner.header route)
                  (Planner.goal_pose route) (Planner.uuid route))
               (Planner.arrival_checker_ node)).
Proof.
  intros Hstate Hready Hodometry Hall.
  eexists. split; [reflexivity|].
  unfold Planner.on_set_route_points.
  rewrite Hstate, Z.eqb_refl, Hready, Hodometry. simpl.
  rewrite (transform_waypoints_returned _ _ _ _ transformed)
    by (intros pose Hin; apply Hall, elem_of_app; by left).
  unfold Planner.transform_pose.
  rewrite (Hall (Planner.srp_goal req))
    by (apply elem_of_app; right; by left).
  rewrite map_app. simpl.
  split; intros Hplanned; case_decide; try done.
  eexists _, _. split; [reflexivity|]. simpl.
  split_and!; try reflexivity.
  by rewrite <- app_assoc.
Qed.
End RoutePoints.

Lemma set_route_points_plans_through_waypoints_witness :
  ∃ planned,
    planned
    = Planner.example_plan
        (Planner.example_pose 0
         :: map (λ pose, pose) ([Planner.example_pose 20] ++ [Planner.example_pose 40]))
    ∧ (Planner.segments planned = [] →
       Planner.on_set_route_points 1 2 Planner.example_set_goal
         (Planner.example_env 2)
         (Planner.mkSetRoutePoints (Planner.mkHeader 5 "base_link")
            (Planner.example_pose 40) [Planner.example_pose 20])
         Planner.example_started
       = Planner.Thrown Planner.ERROR_PLANNER_FAILED)
    ∧ (Planner.segments planned ≠ [] →
       ∃ node' route,
         Planner.on_set_route_points 1 2 Planner.example_set_goal
           (Planner.example_env 2)
           (Planner.mkSetRoutePoints (Planner.mkHeader 5 "base_link")
              (Planner.example_pose 40) [Planner.example_pose 20])
           Planner.example_started
         = Planner.Returned node'
         ∧ route
           = Planner.mkRoute (Planner.mkHeader 5 "map")
               (Planner.start_pose planned) (Planner.goal_pose planned)
               (Planner.segments planned) [7; 7; 7; 7]%Z
         ∧ Planner.published node'
           = Planner.published Planner.example_started
             ++ [Planner.PubRoute route; Planner.PubMarker route;
                 Planner.PubState (Planner.mkRouteState 2 2)]
         ∧ Planner.state_ node' = Planner.mkRouteState 2 2
         ∧ Planner.arrival_checker_ node'
           = Some
               (Planner.mkGoal (Planner.header route)
                  (Planner.goal_pose route) (Planner.uuid route))).
Proof.
  apply (set_route_points_plans_through_waypoints 1 2 Planner.example_checker
           Planner.example_set_goal unit (Planner.example_env 2)
           (Planner.mkSetRoutePoints (Planner.mkHeader 5 "base_link")
              (Planner.example_pose 40) [Planner.example_pose 20])
           Planner.example_started (Planner.example_odometry 0 2)
           (λ pose, Planner.mkPoseStamped (Planner.mkHeader 5 "map") pose)).
  - reflexivity.
  - reflexivity.
  - reflexivity.
  - intros pose _. reflexivity.
Defined.
